(** * Image helper scripts: convert_to_webp.py and make_thumbnails.py

    A shallow embedding of the two command-line helpers under
    [helper scripts/].  Both walk a directory tree, filter the files they
    find, compare modification times and hand each remaining file to the
    Pillow imaging library.

    What is modelled, and how:
    - a path is the list of its [parts] (pathlib's [Path.parts]);
    - the file system is a finite map from paths to nodes; a node is a
      directory or a regular file and carries the fields of [os.stat] the
      scripts read ([st_mtime], [st_size]);
    - Pillow is an interface ([Platform]) of fallible functions; the
      scripts' own code around it (mode normalisation, [save_kwargs]) is
      written out;
    - statements that may raise live in a state-and-exception monad whose
      state holds the file system, the clock, standard output and the
      counters of [main];
    - the operating system may refuse to remove a file, and standard
      output may be unable to encode a line: both are answers of the
      platform, and [unlink] and [print] raise accordingly;
    - creating or removing an entry of a directory stamps that directory
      with the clock, as POSIX has it;
    - [root.rglob("*")] is the list of paths it yields, in the order it
      yields them; the loop looks every path up in the current file system
      the way the script does.

    A string is the sequence of bytes of its encoding (a file name as
    the file system has it, ASCII text as its characters).  [str.lower]
    belongs to the platform; the scripts rely on it being idempotent and
    on what it does to ASCII text.  A set of strings ([CONVERT_EXTS],
    [skip_folders]) is the list of its elements; the scripts only test
    membership in it or run [any] over it. *)

From Stdlib Require Import ZArith Ascii String List Bool Lia.
From stdpp Require Import base option list gmap strings pretty.

Open Scope string_scope.
Open Scope Z_scope.

(* ===================================================================== *)
(** * Strings: the pieces of [str] and [pathlib] the scripts use *)
(* ===================================================================== *)

(** What [str.lower] does to ASCII text: the letters [A] to [Z] become
    [a] to [z], every other character stays. *)
Definition lower_ascii (c : ascii) : ascii :=
  let n := nat_of_ascii c in
  if ((65 <=? n)%nat && (n <=? 90)%nat)%bool then ascii_of_nat (n + 32) else c.

Fixpoint ascii_lower (s : string) : string :=
  match s with
  | EmptyString => EmptyString
  | String c t => String (lower_ascii c) (ascii_lower t)
  end.

(** [name.rfind('.')]: the index of the last dot, [-1] when there is none. *)
Fixpoint rfind_dot (s : string) : Z :=
  match s with
  | EmptyString => -1
  | String c t =>
      let r := rfind_dot t in
      if 0 <=? r then r + 1
      else if Ascii.eqb c "." then 0 else -1
  end.

(** [s[i:]] and [s[:i]] for a natural number [i]. *)
Fixpoint str_drop (i : nat) (s : string) : string :=
  match i, s with
  | O, _ => s
  | S i', String _ t => str_drop i' t
  | S _, EmptyString => EmptyString
  end.

Fixpoint str_take (i : nat) (s : string) : string :=
  match i, s with
  | O, _ => EmptyString
  | S i', String c t => String c (str_take i' t)
  | S _, EmptyString => EmptyString
  end.

Definition str_len (s : string) : Z := Z.of_nat (String.length s).

(** [PurePath.suffix] applied to the final component, as pathlib
    computes it up to Python 3.12:
    [i = name.rfind('.'); name[i:] if 0 < i < len(name) - 1 else ''] *)
Definition name_suffix (name : string) : string :=
  let i := rfind_dot name in
  if ((0 <? i) && (i <? str_len name - 1))%bool
  then str_drop (Z.to_nat i) name
  else "".

(** The characters every encoding of standard output can encode. *)
Definition is_ascii (c : ascii) : bool := (nat_of_ascii c <? 128)%nat.

Fixpoint all_ascii (s : string) : bool :=
  match s with
  | EmptyString => true
  | String c t => (is_ascii c && all_ascii t)%bool
  end.

(** [x in xs] for a set or tuple literal of strings. *)
Definition str_in (x : string) (xs : list string) : bool :=
  existsb (String.eqb x) xs.

(* ===================================================================== *)
(** * Paths *)
(* ===================================================================== *)

(** A path is its tuple of parts; an absolute path starts with the anchor
    ["/"].  The operations below are those of pathlib on a path that has
    at least one component after its anchor, which is the case of every
    path the scripts apply them to. *)
Abbreviation path := (list string).

(** [Path.name]: the final component, [''] for a path without one. *)
Definition path_name (p : path) : string := List.last p "".

(** [Path.parent] *)
Definition path_parent (p : path) : path := removelast p.

(** [Path.suffix] *)
Definition path_suffix (p : path) : string := name_suffix (path_name p).

(** [p / name] for a single relative component; joining the empty name
    gives [p] back. *)
Definition path_join (p : path) (name : string) : path :=
  if String.eqb name "" then p else p ++ [name].

(** Python exceptions that reach an [except Exception] clause, by their
    message. *)
Inductive result (A : Type) : Type :=
  | Ok (a : A)
  | Raise (msg : string).
Arguments Ok {A} a.
Arguments Raise {A} msg.

(** [Path.with_suffix(suffix)]:
    [ValueError] when the path has an empty name, otherwise the old suffix
    (if any) is cut off the name and the new one appended. *)
Definition with_suffix (p : path) (suffix : string) : result path :=
  let name := path_name p in
  if String.eqb name "" then Raise "ValueError: path has an empty name"
  else
    let old := name_suffix name in
    let name' :=
      if String.eqb old "" then name ++ suffix
      else str_take (String.length name - String.length old) name ++ suffix in
    Ok (path_join (path_parent p) name').

(** [str(path)] on a POSIX system. *)
Definition path_str (p : path) : string :=
  match p with
  | "/" :: rest => "/" ++ String.concat "/" rest
  | _ => String.concat "/" p
  end.

(* ===================================================================== *)
(** * The file system and the process state *)
(* ===================================================================== *)

(** The fields of [os.stat_result] the scripts read.  [st_mtime] is a
    float in Python; only [>=] is applied to it, so it is modelled by the
    integer number of clock ticks it denotes. *)
Record stat_result : Type := Stat { st_mtime : Z; st_size : Z }.

Inductive node : Type :=
  | NDir (st : stat_result)
  | NFile (mtime : Z) (data : list Byte.byte).

Definition node_stat (n : node) : stat_result :=
  match n with
  | NDir st => st
  | NFile m d => Stat m (Z.of_nat (length d))
  end.

Definition node_is_file (n : node) : bool :=
  match n with NFile _ _ => true | NDir _ => false end.

Definition node_is_dir (n : node) : bool :=
  match n with NDir _ => true | NFile _ _ => false end.

(** What a process can observe and change: the file tree, the system
    clock and the lines written to standard output. *)
Record world : Type := World {
  w_fs : gmap (list string) node;
  w_clock : Z;
  w_stdout : list string
}.

Definition set_fs (f : gmap (list string) node) (w : world) : world :=
  World f (w_clock w) (w_stdout w).

(** Statements of [main]: they read and write the world and the counters
    [C] of the script, and either return or raise. *)
Definition M (C A : Type) : Type := world * C -> result A * (world * C).

#[global] Instance M_ret {C} : MRet (M C) := fun A a s => (Ok a, s).
#[global] Instance M_bind {C} : MBind (M C) := fun A B f m s =>
  match m s with
  | (Ok a, s') => f a s'
  | (Raise e, s') => (Raise e, s')
  end.

Definition raise {C A} (msg : string) : M C A := fun s => (Raise msg, s).

(** Lift a pure look at the world. *)
Definition ask {C A} (f : world -> A) : M C A := fun s => (Ok (f (fst s)), s).

(** Run a world-only statement. *)
Definition lift_w {C A} (f : world -> result A * world) : M C A := fun s =>
  let '(r, w') := f (fst s) in (r, (w', snd s)).

(** [counter += 1] and friends. *)
Definition modify_c {C} (f : C -> C) : M C unit := fun s => (Ok tt, (fst s, f (snd s))).

(** [try: body  except Exception as e: handler(e)] *)
Definition try_except {C A} (body : M C A) (handler : string -> M C A) : M C A :=
  fun s =>
    match body s with
    | (Ok a, s') => (Ok a, s')
    | (Raise e, s') => handler e s'
    end.

(** ** Primitive operations of [pathlib] and [os] *)

(** [p.exists()] *)
Definition exists_ (w : world) (p : path) : bool :=
  match w_fs w !! p with Some _ => true | None => false end.

(** [p.is_file()] *)
Definition is_file (w : world) (p : path) : bool :=
  match w_fs w !! p with Some n => node_is_file n | None => false end.

(** [p.is_dir()] *)
Definition is_dir (w : world) (p : path) : bool :=
  match w_fs w !! p with Some n => node_is_dir n | None => false end.

(** [p.stat()]: [FileNotFoundError] when nothing is there. *)
Definition stat (w : world) (p : path) : result stat_result :=
  match w_fs w !! p with
  | Some n => Ok (node_stat n)
  | None => Raise ("FileNotFoundError: " ++ path_str p)
  end.

(** Creating or removing an entry of the directory [d] at time [t] sets
    the [st_mtime] of [d]. *)
Definition touch_dir (d : path) (t : Z) (fs : gmap (list string) node)
  : gmap (list string) node :=
  match fs !! d with
  | Some (NDir st) => <[d := NDir (Stat t (st_size st))]> fs
  | _ => fs
  end.

(** [p.mkdir(parents=True, exist_ok=True)], following pathlib: try
    [os.mkdir(p)]; when the parent is missing create it first and retry;
    an existing directory is accepted, anything else in the way raises.
    The path is given by its parts in reverse, so that the parent is the
    tail.  A fresh directory is stamped with the current clock, and so is
    the directory it is created in. *)
Fixpoint mkdir_parents_rev (rp : list string) (w : world) : result unit * world :=
  let p := rev rp in
  let fresh := NDir (Stat (w_clock w) 4096) in
  match w_fs w !! p with
  | Some (NDir _) => (Ok tt, w)
  | Some (NFile _ _) => (Raise ("FileExistsError: " ++ path_str p), w)
  | None =>
      match rp with
      | [] | [_] => (Raise ("FileNotFoundError: " ++ path_str p), w)
      | _ :: rparent =>
          match w_fs w !! rev rparent with
          | Some (NDir _) =>
              (Ok tt, set_fs (<[p := fresh]>
                                (touch_dir (rev rparent) (w_clock w) (w_fs w))) w)
          | Some (NFile _ _) => (Raise ("NotADirectoryError: " ++ path_str p), w)
          | None =>
              match mkdir_parents_rev rparent w with
              | (Ok _, w') =>
                  (Ok tt, set_fs (<[p := NDir (Stat (w_clock w') 4096)]>
                                    (touch_dir (rev rparent) (w_clock w') (w_fs w'))) w')
              | (Raise e, w') => (Raise e, w')
              end
          end
      end
  end.

Definition mkdir_parents (p : path) (w : world) : result unit * world :=
  mkdir_parents_rev (rev p) w.

(** World-only statements: the helpers of the scripts do not touch the
    counters. *)
Definition W (A : Type) : Type := world -> result A * world.

#[global] Instance W_ret : MRet W := fun A a w => (Ok a, w).
#[global] Instance W_bind : MBind W := fun A B f m w =>
  match m w with
  | (Ok a, w') => f a w'
  | (Raise e, w') => (Raise e, w')
  end.

(** A pure step that may raise, as a statement. *)
Definition liftR {A} (r : result A) : W A := fun w => (r, w).

(** A pure look at the world that may raise. *)
Definition readR {A} (f : world -> result A) : W A := fun w => (f w, w).

(* ===================================================================== *)
(** * Pillow *)
(* ===================================================================== *)

(** A decoded image: its [mode], its [info] dictionary, its size and the
    raster, which the scripts never look into. *)
Record image : Type := Image {
  im_mode : string;
  im_info : gmap string (list Byte.byte);
  im_size : Z * Z;
  im_raster : list Byte.byte
}.

(** The keyword arguments the scripts pass to [Image.save]. *)
Record save_kwargs : Type := SaveKwargs {
  kw_format : string;
  kw_quality : Z;
  kw_method : Z;
  kw_optimize : bool;
  kw_icc_profile : option (list Byte.byte);
  kw_exif : option (list Byte.byte)
}.

(** The behaviour of the platform the scripts run on: the Pillow codecs,
    the system clock, what the operating system lets the process remove,
    what standard output can encode, and Python's case mapping.  Each
    codec may raise. *)
Class Platform : Type := {
  (** decoding done by [Image.open] on the bytes of a file *)
  pil_decode : list Byte.byte -> result image;
  (** [ImageOps.exif_transpose(im)] *)
  pil_exif_transpose : image -> result image;
  (** [im.convert(mode)] *)
  pil_convert : image -> string -> result image;
  (** [im.thumbnail(size, LANCZOS)], returning the image it updated *)
  pil_thumbnail : image -> Z * Z -> result image;
  (** [ImageOps.fit(im, size, method=LANCZOS)] *)
  pil_fit : image -> Z * Z -> result image;
  (** the WebP encoder behind [im.save] *)
  pil_encode_webp : image -> save_kwargs -> result (list Byte.byte);
  (** the clock value after a write stamped with the given one *)
  clock_tick : Z -> Z;
  (** the error with which [os.unlink] refuses to remove the regular file
      at this path, if it does ([PermissionError]: the directory is not
      writable, the file is in use) *)
  unlink_error : list string -> option string;
  (** whether the encoding of [sys.stdout] can encode this text; asked
      for texts with characters outside ASCII only *)
  stdout_encodes : string -> bool;
  (** [str.lower()], with the two facts about it the scripts rely on:
      lowering a lowered string changes nothing, and ASCII text is
      lowered letter by letter *)
  lower : string -> string;
  lower_idemp : forall s, lower (lower s) = lower s;
  lower_ascii_text : forall s, all_ascii s = true -> lower s = ascii_lower s
}.

(** What the scripts rely on from Pillow's [convert]: the result has the
    requested mode.  And of the clock: it does not run backwards. *)
Class PlatformLaws (P : Platform) : Prop := {
  pil_convert_mode : forall im m im', pil_convert im m = Ok im' -> im_mode im' = m;
  clock_tick_mono : forall t, t <= clock_tick t
}.


(** [key in im.info] *)
Definition info_has (key : string) (im : image) : bool :=
  match im_info im !! key with Some _ => true | None => false end.

Section platform_calls.
Context {P : Platform}.

(** [p.unlink()]: the entry is removed from its directory, unless the
    operating system refuses. *)
Definition unlink (p : path) : W unit :=
  fun w =>
    match w_fs w !! p with
    | Some (NFile _ _) =>
        match unlink_error p with
        | Some e => (Raise e, w)
        | None =>
            (Ok tt, set_fs (touch_dir (path_parent p) (w_clock w)
                              (delete p (w_fs w))) w)
        end
    | Some (NDir _) => (Raise ("IsADirectoryError: " ++ path_str p), w)
    | None => (Raise ("FileNotFoundError: " ++ path_str p), w)
    end.

(** A line standard output accepts: ASCII text always is, any other
    text when the encoding of [sys.stdout] has its characters. *)
Definition printable (line : string) : bool :=
  (all_ascii line || stdout_encodes line)%bool.

(** [print(line)]: the line is encoded and written; a line that cannot
    be encoded raises [UnicodeEncodeError] and nothing is written. *)
Definition print (line : string) : W unit :=
  fun w =>
    if printable line
    then (Ok tt, World (w_fs w) (w_clock w) (w_stdout w ++ [line]))
    else (Raise "UnicodeEncodeError: standard output cannot encode the line", w).

(** A sequence of [print] statements. *)
Fixpoint print_lines (lines : list string) : W unit :=
  match lines with
  | [] => mret tt
  | line :: rest => _ ← print line; print_lines rest
  end.

(** [Image.open(src)]: open the file, then decode it. *)
Definition Image_open (src : path) : W image :=
  readR (fun w =>
    match w_fs w !! src with
    | Some (NFile _ data) => pil_decode data
    | Some (NDir _) => Raise ("IsADirectoryError: " ++ path_str src)
    | None => Raise ("FileNotFoundError: " ++ path_str src)
    end).

(** [im.save(dst, **save_kwargs)]: the file is opened with mode ["w+b"]
    (so the parent must be a directory and [dst] must not be one), the
    image is encoded, and the bytes are written.  Opening a file that
    was not there creates an entry in the parent directory.  When the
    encoder raises, Pillow removes the file if the call created it; a
    file that was there before stays, truncated. *)
Definition Image_save (im : image) (dst : path) (kw : save_kwargs) : W unit :=
  fun w =>
    match w_fs w !! dst with
    | Some (NDir _) => (Raise ("IsADirectoryError: " ++ path_str dst), w)
    | prev =>
        if negb (is_dir w (path_parent dst))
        then (Raise ("FileNotFoundError: " ++ path_str dst), w)
        else
          let opened :=
            match prev with
            | Some _ => w_fs w
            | None => touch_dir (path_parent dst) (w_clock w) (w_fs w)
            end in
          match pil_encode_webp im kw with
          | Ok data =>
              (Ok tt, World (<[dst := NFile (w_clock w) data]> opened)
                            (clock_tick (w_clock w)) (w_stdout w))
          | Raise e =>
              match prev with
              | Some _ =>
                  (Raise e, World (<[dst := NFile (w_clock w) []]> opened)
                                  (clock_tick (w_clock w)) (w_stdout w))
              | None => (Raise e, set_fs opened w)
              end
          end
    end.
End platform_calls.

(** How a run of [main] ends: it returns an exit code (the scripts call
    [raise SystemExit(main())]), it raises [SystemExit] itself, or an
    exception escapes. *)
Inductive outcome : Type :=
  | Returned (code : Z)
  | SystemExit (msg : string)
  | Uncaught (msg : string).

(** The exit status of the process: [SystemExit] with an integer gives
    that integer; with a message, or a traceback, it is 1. *)
Definition exit_status (o : outcome) : Z :=
  match o with
  | Returned code => code
  | SystemExit _ => 1
  | Uncaught _ => 1
  end.

(** [argparse]'s [action="append"]: every occurrence of the option is
    appended to a copy of the default list. *)
Definition argparse_append (default given : list string) : list string :=
  default ++ given.

(* ===================================================================== *)
(** * convert_to_webp.py *)
(* ===================================================================== *)

Module convert_to_webp.

Definition CONVERT_EXTS : list string :=
  [".jpg"; ".jpeg"; ".png"; ".tif"; ".tiff"; ".bmp"; ".gif"].

Definition WEBP_EXTS : list string := [".webp"].

Section with_platform.
Context {P : Platform}.

(** [is_in_folder_named(path, folder_name)] *)
Definition is_in_folder_named (p : path) (folder_name : string) : bool :=
let folder_name := lower folder_name in
existsb (fun part => String.eqb (lower part) folder_name) p.

(** [is_up_to_date(src, dst)]:
  [dst.exists() and dst.stat().st_mtime >= src.stat().st_mtime] *)
Definition is_up_to_date (src dst : path) : W bool :=
readR (fun w =>
  if exists_ w dst then
    match stat w dst with
    | Ok d =>
        match stat w src with
        | Ok s => Ok (st_mtime s <=? st_mtime d)
        | Raise e => Raise e
        end
    | Raise e => Raise e
    end
  else Ok false).

(** The command line: the positional [root] and the options as given. *)
Record cli : Type := Cli {
cli_root : path;
cli_quality : option Z;
cli_keep_metadata : bool;
cli_delete_originals : bool;
cli_overwrite : bool;
cli_skip_folder : list string
}.

(** The namespace [ap.parse_args()] returns. *)
Record args : Type := Args {
root : path;
quality : Z;
keep_metadata : bool;
delete_originals : bool;
overwrite : bool;
skip_folder : list string
}.

(** The parser set up in [main]: [--quality] defaults to 80, the flags
  to [False], and [--skip-folder] appends to the default list
  [["thumbnails"]]. *)
Definition parse_args (c : cli) : args :=
{| root := cli_root c;
   quality := default 80 (cli_quality c);
   keep_metadata := cli_keep_metadata c;
   delete_originals := cli_delete_originals c;
   overwrite := cli_overwrite c;
   skip_folder := argparse_append ["thumbnails"] (cli_skip_folder c) |}.

(** The counters of [main]. *)
Record counters : Type := Counters {
converted : nat;
skipped : nat;
errors : nat;
deleted : nat
}.

Definition zero : counters := Counters 0 0 0 0.
Definition incr_converted (c : counters) : counters :=
Counters (S (converted c)) (skipped c) (errors c) (deleted c).
Definition incr_skipped (c : counters) : counters :=
Counters (converted c) (S (skipped c)) (errors c) (deleted c).
Definition incr_errors (c : counters) : counters :=
Counters (converted c) (skipped c) (S (errors c)) (deleted c).
Definition incr_deleted (c : counters) : counters :=
Counters (converted c) (skipped c) (errors c) (S (deleted c)).

(** The tests of lines 106-117 a path has to pass to reach the [try]
  statement: it is a file, none of its parts is a skipped folder, and
  its extension is convertible and not WebP. *)
Definition name_passes (skip_folders : list string) (src : path) : bool :=
(negb (existsb (fun name => is_in_folder_named src name) skip_folders)
 && negb (str_in (lower (path_suffix src)) WEBP_EXTS)
 && str_in (lower (path_suffix src)) CONVERT_EXTS)%bool.

Definition eligible (skip_folders : list string) (w : world) (src : path) : bool :=
(is_file w src && name_passes skip_folders src)%bool.

(** Lines 53-59 of [convert_one]: ensure a mode WebP can store. *)
Definition normalize_mode (im : image) : result image :=
  if negb (str_in (im_mode im) ["RGB"; "RGBA"]) then
    if info_has "transparency" im
    then pil_convert im "RGBA"
    else pil_convert im "RGB"
  else Ok im.

(** Lines 61-74 of [convert_one]: the arguments for [im.save]. *)
Definition make_save_kwargs (im : image) (quality : Z) (keep_metadata : bool)
  : save_kwargs :=
  {| kw_format := "WEBP";
     kw_quality := quality;
     kw_method := 6;
     kw_optimize := true;
     kw_icc_profile := im_info im !! "icc_profile";
     kw_exif := if keep_metadata then im_info im !! "exif" else None |}.

(** [convert_one(src, dst, quality, keep_metadata)] *)
Definition convert_one (src dst : path) (quality : Z) (keep_metadata : bool)
  : W unit :=
  im ← Image_open src;
  im ← liftR (pil_exif_transpose im);
  im ← liftR (normalize_mode im);
  let kw := make_save_kwargs im quality keep_metadata in
  _ ← mkdir_parents (path_parent dst);
  Image_save im dst kw.

(** The condition of line 122:
    [not args.overwrite and is_up_to_date(src, dst)] *)
Definition skip_check (a : args) (src dst : path) : W bool :=
  if negb (overwrite a) then is_up_to_date src dst else mret false.

(** The condition of line 131:
    [dst.exists() and dst.stat().st_size > 0] *)
Definition dst_nonempty (dst : path) : W bool :=
  readR (fun w =>
    if exists_ w dst then
      match stat w dst with
      | Ok d => Ok (0 <? st_size d)
      | Raise e => Raise e
      end
    else Ok false).

(** The body of the [try] statement, lines 122-133. *)
Definition try_body (a : args) (src dst : path) : M counters unit :=
  up ← lift_w (skip_check a src dst);
  if (up : bool) then modify_c incr_skipped
  else
    _ ← lift_w (convert_one src dst (quality a) (keep_metadata a));
    _ ← modify_c incr_converted;
    if delete_originals a then
      ok ← lift_w (dst_nonempty dst);
      if (ok : bool) then
        _ ← lift_w (unlink src);
        modify_c incr_deleted
      else mret tt
    else mret tt.

(** The [except Exception as e] clause, lines 135-137. *)
Definition handler (src : path) (e : string) : M counters unit :=
  _ ← modify_c incr_errors;
  lift_w (print ("[ERROR] " ++ path_str src ++ ": " ++ e)).

(** One turn of the [for] loop, lines 106-137. *)
Definition iteration (a : args) (skip_folders : list string) (src : path)
  : M counters unit :=
  f ← ask (fun w => is_file w src);
  if negb f then mret tt
  else if existsb (fun name => is_in_folder_named src name) skip_folders
  then mret tt
  else
    let ext := lower (path_suffix src) in
    if str_in ext WEBP_EXTS then mret tt
    else if negb (str_in ext CONVERT_EXTS) then mret tt
    else
      dst ← lift_w (liftR (with_suffix src ".webp"));
      try_except (try_body a src dst) (handler src).

(** [for src in root.rglob("*"): ...] over the paths [rglob] yields. *)
Fixpoint loop (a : args) (skip_folders : list string) (walk : list path)
  : M counters unit :=
  match walk with
  | [] => mret tt
  | src :: rest =>
      _ ← iteration a skip_folders src;
      loop a skip_folders rest
  end.

(** The summary, lines 139-143. *)
Definition summary (c : counters) : list string :=
  [ String "010" "Done.";
    "Converted: " ++ pretty (converted c);
    "Skipped (up-to-date): " ++ pretty (skipped c);
    "Deleted originals: " ++ pretty (deleted c);
    "Errors: " ++ pretty (errors c) ].

(** [main()], given the command line, the world it starts in and the
    sequence of paths [root.rglob("*")] yields.  [root.resolve()] is
    the identity: [cli_root] is taken as absolute and free of
    symbolic links. *)
Definition main (c : cli) (walk : list path) (w : world)
  : outcome * (world * counters) :=
  let a := parse_args c in
  let root := root a in
  if (negb (exists_ w root) || negb (is_dir w root))%bool
  then (SystemExit ("Folder not found: " ++ path_str root), (w, zero))
  else
    let skip_folders := map lower (skip_folder a) in
    match loop a skip_folders walk (w, zero) with
    | (Ok _, (w', cnt)) =>
        match print_lines (summary cnt) w' with
        | (Ok _, w'') =>
            (Returned (if Nat.eqb (errors cnt) 0 then 0 else 2), (w'', cnt))
        | (Raise e, w'') => (Uncaught e, (w'', cnt))
        end
    | (Raise e, s') => (Uncaught e, s')
    end.
End with_platform.

End convert_to_webp.

(* ===================================================================== *)
(** * make_thumbnails.py *)
(* ===================================================================== *)

Module make_thumbnails.

Definition IMAGE_EXTS : list string :=
  [".jpg"; ".jpeg"; ".png"; ".webp"; ".tif"; ".tiff"; ".bmp"; ".gif"].

Definition THUMB_DIR_NAME : string := "thumbnails".

Section with_platform.
Context {P : Platform}.

(** [is_image(p)]: [p.is_file() and p.suffix.lower() in IMAGE_EXTS] *)
Definition is_image (w : world) (p : path) : bool :=
(is_file w p && str_in (lower (path_suffix p)) IMAGE_EXTS)%bool.

(** [is_up_to_date(src, dst)]:
  [dst.exists() and dst.stat().st_mtime >= src.stat().st_mtime] *)
Definition is_up_to_date (src dst : path) : W bool :=
readR (fun w =>
  if exists_ w dst then
    match stat w dst with
    | Ok d =>
        match stat w src with
        | Ok s => Ok (st_mtime s <=? st_mtime d)
        | Raise e => Raise e
        end
    | Raise e => Raise e
    end
  else Ok false).

(** The two values [--method] accepts ([choices=["fit", "cover"]]). *)
Inductive method_choice : Type := fit | cover.

Definition method_str (m : method_choice) : string :=
match m with fit => "fit" | cover => "cover" end.

(** The command line: the positional [root] and the options as given. *)
Record cli : Type := Cli {
cli_root : path;
cli_max : option (Z * Z);
cli_quality : option Z;
cli_method : option method_choice;
cli_keep_metadata : bool;
cli_overwrite : bool
}.

(** The namespace [ap.parse_args()] returns. *)
Record args : Type := Args {
root : path;
max : Z * Z;
quality : Z;
method : string;
keep_metadata : bool;
overwrite : bool
}.

Definition parse_args (c : cli) : args :=
{| root := cli_root c;
   max := default (600, 600) (cli_max c);
   quality := default 80 (cli_quality c);
   method := method_str (default fit (cli_method c));
   keep_metadata := cli_keep_metadata c;
   overwrite := cli_overwrite c |}.

(** The counters of [main]. *)
Record counters : Type := Counters {
created : nat;
skipped : nat;
errors : nat
}.

Definition zero : counters := Counters 0 0 0.
Definition incr_created (c : counters) : counters :=
Counters (S (created c)) (skipped c) (errors c).
Definition incr_skipped (c : counters) : counters :=
Counters (created c) (S (skipped c)) (errors c).
Definition incr_errors (c : counters) : counters :=
Counters (created c) (skipped c) (S (errors c)).

(** The tests of lines 99-104 a path has to pass to reach the [try]
  statement: it is an image and no part of it is [thumbnails]. *)
Definition name_passes (src : path) : bool :=
(str_in (lower (path_suffix src)) IMAGE_EXTS
 && negb (existsb (String.eqb THUMB_DIR_NAME) src))%bool.

Definition eligible (w : world) (src : path) : bool :=
(is_file w src && name_passes src)%bool.

(** Lines 48-49 of [make_thumbnail]. *)
Definition normalize_mode (im : image) : result image :=
  if negb (str_in (im_mode im) ["RGB"; "RGBA"])
  then pil_convert im "RGB"
  else Ok im.

(** Lines 51-56 of [make_thumbnail]. *)
Definition resize (im : image) (max_size : Z * Z) (method : string)
  : result image :=
  if String.eqb method "fit" then pil_thumbnail im max_size
  else if String.eqb method "cover" then pil_fit im max_size
  else Raise ("Unknown method: " ++ method).

(** Lines 60-71 of [make_thumbnail]. *)
Definition make_save_kwargs (im : image) (quality : Z) (keep_metadata : bool)
  : save_kwargs :=
  {| kw_format := "WEBP";
     kw_quality := quality;
     kw_method := 6;
     kw_optimize := true;
     kw_icc_profile := im_info im !! "icc_profile";
     kw_exif := if keep_metadata then im_info im !! "exif" else None |}.

(** [make_thumbnail(src, dst, max_size, quality, method, keep_metadata)] *)
Definition make_thumbnail (src dst : path) (max_size : Z * Z) (quality : Z)
    (method : string) (keep_metadata : bool) : W unit :=
  im ← Image_open src;
  im ← liftR (pil_exif_transpose im);
  im ← liftR (normalize_mode im);
  im ← liftR (resize im max_size method);
  _ ← mkdir_parents (path_parent dst);
  let kw := make_save_kwargs im quality keep_metadata in
  Image_save im dst kw.

(** The condition of line 110:
    [not args.overwrite and is_up_to_date(src, thumb_path)] *)
Definition skip_check (a : args) (src dst : path) : W bool :=
  if negb (overwrite a) then is_up_to_date src dst else mret false.

(** The body of the [try] statement, lines 110-122. *)
Definition try_body (a : args) (src thumb_path : path) : M counters unit :=
  up ← lift_w (skip_check a src thumb_path);
  if (up : bool) then modify_c incr_skipped
  else
    _ ← lift_w (make_thumbnail src thumb_path (max a) (quality a)
                  (method a) (keep_metadata a));
    modify_c incr_created.

(** The [except Exception as e] clause, lines 124-126. *)
Definition handler (src : path) (e : string) : M counters unit :=
  _ ← modify_c incr_errors;
  lift_w (print ("[ERROR] " ++ path_str src ++ ": " ++ e)).

(** Lines 106-107: where the thumbnail of [src] goes. *)
Definition thumb_path_of (src : path) : result path :=
  let thumb_dir := path_join (path_parent src) THUMB_DIR_NAME in
  with_suffix (path_join thumb_dir (path_name src)) ".webp".

(** One turn of the [for] loop, lines 99-126. *)
Definition iteration (a : args) (src : path) : M counters unit :=
  img ← ask (fun w => is_image w src);
  if negb img then mret tt
  else if existsb (String.eqb THUMB_DIR_NAME) src then mret tt
  else
    thumb_path ← lift_w (liftR (thumb_path_of src));
    try_except (try_body a src thumb_path) (handler src).

(** [for src in root.rglob("*"): ...] over the paths [rglob] yields. *)
Fixpoint loop (a : args) (walk : list path) : M counters unit :=
  match walk with
  | [] => mret tt
  | src :: rest =>
      _ ← iteration a src;
      loop a rest
  end.

(** The summary, lines 128-131. *)
Definition summary (c : counters) : list string :=
  [ String "010" "Done.";
    "Created: " ++ pretty (created c);
    "Skipped: " ++ pretty (skipped c);
    "Errors:  " ++ pretty (errors c) ].

(** [main()], given the command line, the world it starts in and the
    sequence of paths [root.rglob("*")] yields. *)
Definition main (c : cli) (walk : list path) (w : world)
  : outcome * (world * counters) :=
  let a := parse_args c in
  let root := root a in
  if (negb (exists_ w root) || negb (is_dir w root))%bool
  then (SystemExit ("Folder not found: " ++ path_str root), (w, zero))
  else
    match loop a walk (w, zero) with
    | (Ok _, (w', cnt)) =>
        match print_lines (summary cnt) w' with
        | (Ok _, w'') =>
            (Returned (if Nat.eqb (errors cnt) 0 then 0 else 2), (w'', cnt))
        | (Raise e, w'') => (Uncaught e, (w'', cnt))
        end
    | (Raise e, s') => (Uncaught e, s')
    end.
End with_platform.

End make_thumbnails.

(* ===================================================================== *)
(** * A small platform to run the scripts on *)
(* ===================================================================== *)

(** A codec for a one-byte-header image format, used to evaluate the
    scripts on concrete trees: the first byte of a file names the mode
    (["R"] RGB, ["A"] RGBA, ["L"] greyscale, ["G"] greyscale with alpha,
    ["P"] palette with a [transparency] entry), the rest is the raster.
    Anything else does not decode.  The clock advances by one per write.
    Files under a folder named [locked] cannot be removed, and standard
    output encodes ASCII only.  Case mapping is that of ASCII. *)
Module toy.

Definition decode (data : list Byte.byte) : result image :=
  match data with
  | Byte.x52 :: r => Ok (Image "RGB" ∅ (8, 8) r)
  | Byte.x41 :: r => Ok (Image "RGBA" ∅ (8, 8) r)
  | Byte.x4c :: r => Ok (Image "L" ∅ (8, 8) r)
  | Byte.x47 :: r => Ok (Image "LA" ∅ (8, 8) r)
  | Byte.x50 :: r => Ok (Image "P" {[ "transparency" := [Byte.x00] ]} (8, 8) r)
  | _ => Raise "cannot identify image file"
  end.

Definition set_mode (im : image) (m : string) : image :=
  Image m (im_info im) (im_size im) (im_raster im).

Definition set_size (im : image) (sz : Z * Z) : image :=
  Image (im_mode im) (im_info im) sz (im_raster im).

Definition encode (im : image) (kw : save_kwargs) : result (list Byte.byte) :=
  Ok (Byte.x57 :: im_raster im).

(** Lowering ASCII letters twice is lowering them once. *)
Definition lower_ascii_twice (c : ascii) : lower_ascii (lower_ascii c) = lower_ascii c :=
  match c with
  | Ascii b0 b1 b2 b3 b4 b5 b6 b7 =>
      ltac:(destruct b0, b1, b2, b3, b4, b5, b6, b7; exact eq_refl)
  end.

Fixpoint ascii_lower_twice (s : string) : ascii_lower (ascii_lower s) = ascii_lower s :=
  match s with
  | EmptyString => eq_refl
  | String c t =>
      f_equal2 String (lower_ascii_twice c) (ascii_lower_twice t)
  end.

Definition platform : Platform := {|
  pil_decode := decode;
  pil_exif_transpose := fun im => Ok im;
  pil_convert := fun im m => Ok (set_mode im m);
  pil_thumbnail := fun im sz => Ok (set_size im sz);
  pil_fit := fun im sz => Ok (set_size im sz);
  pil_encode_webp := encode;
  clock_tick := fun t => t + 1;
  unlink_error := fun p =>
    if existsb (String.eqb "locked") p
    then Some ("PermissionError: " ++ path_str p) else None;
  stdout_encodes := fun _ => false;
  lower := ascii_lower;
  lower_idemp := ascii_lower_twice;
  lower_ascii_text := fun s _ => eq_refl
|}.

Definition dir (t : Z) : node := NDir (Stat t 4096).

(** [/site] holding [a.jpg] (RGB, written at time 10). *)
Definition site : path := ["/"; "site"].
Definition a_jpg : path := ["/"; "site"; "a.jpg"].
Definition a_webp : path := ["/"; "site"; "a.webp"].

Definition tree_a (mtime : Z) : gmap (list string) node :=
  {[ ["/"] := dir 0; site := dir 1; a_jpg := NFile mtime [Byte.x52; Byte.x01] ]}.

Definition world_a (mtime now : Z) : world := World (tree_a mtime) now [].

(** The same with a file that is not an image. *)
Definition b_jpg : path := ["/"; "site"; "b.jpg"].
Definition b_webp : path := ["/"; "site"; "b.webp"].
Definition world_b : world :=
  World {[ ["/"] := dir 0; site := dir 1; b_jpg := NFile 10 [] ]} 100 [].

(** [/site] after a conversion: [a.jpg] next to a newer [a.webp]. *)
Definition world_a_done : world :=
  World (<[ a_webp := NFile 50 [Byte.x57; Byte.x01] ]> (tree_a 10)) 100 [].

(** A tree whose images sit in a folder spelled [Thumbnails]. *)
Definition caps_jpg : path := ["/"; "site"; "Thumbnails"; "a.jpg"].
Definition caps_thumb : path := ["/"; "site"; "Thumbnails"; "thumbnails"; "a.webp"].
Definition world_caps : world :=
  World {[ ["/"] := dir 0; site := dir 1; ["/"; "site"; "Thumbnails"] := dir 2;
           caps_jpg := NFile 10 [Byte.x52; Byte.x01] ]} 100 [].

(** A tree with one WebP image, [/site/w.webp]. *)
Definition w_webp : path := ["/"; "site"; "w.webp"].
Definition w_thumb : path := ["/"; "site"; "thumbnails"; "w.webp"].
Definition world_w : world :=
  World {[ ["/"] := dir 0; site := dir 1; w_webp := NFile 10 [Byte.x52; Byte.x01] ]}
        100 [].


(** The tree [tree_a] after [a.jpg] was converted at time 100. *)
Definition tree_a_after (mtime : Z) : gmap (list string) node :=
  {[ ["/"] := dir 0; site := dir 100; a_jpg := NFile mtime [Byte.x52; Byte.x01];
     a_webp := NFile 100 [Byte.x57; Byte.x01] ]}.

(** [/site] holding a file that is no image and whose name has a byte
    that is not ASCII (a name the file system encoding cannot decode). *)
Definition odd_jpg : path := ["/"; "site"; String "255" ".jpg"].
Definition world_odd : world :=
  World {[ ["/"] := dir 0; site := dir 1; odd_jpg := NFile 10 [] ]} 100 [].

(** [/site/locked] holding an image that cannot be removed. *)
Definition locked_jpg : path := ["/"; "site"; "locked"; "a.jpg"].
Definition world_locked : world :=
  World {[ ["/"] := dir 0; site := dir 1; ["/"; "site"; "locked"] := dir 2;
           locked_jpg := NFile 10 [Byte.x52; Byte.x01] ]} 100 [].

(** [convert_to_webp /site] *)
Definition cli_plain : convert_to_webp.cli :=
  convert_to_webp.Cli site None false false false [].

(** [convert_to_webp /site --delete-originals] and
    [make_thumbnails /site]. *)
Definition cli_delete : convert_to_webp.cli :=
  convert_to_webp.Cli site None false true false [].

Definition cli_thumbs : make_thumbnails.cli :=
  make_thumbnails.Cli site None None None false false.

End toy.

(* ===================================================================== *)
(** * Vocabulary of the statements *)
(* ===================================================================== *)

(** The destination is there and not older than the source: what
    [is_up_to_date] computes when both [stat] calls succeed. *)
Definition up_to_date (w : world) (src dst : path) : bool :=
  match w_fs w !! dst, w_fs w !! src with
  | Some d, Some s => st_mtime (node_stat s) <=? st_mtime (node_stat d)
  | _, _ => false
  end.

(** [p] lies strictly below [root]. *)
Definition below (root p : path) : Prop :=
  exists rest, rest <> [] /\ p = (root ++ rest)%list.

(** [walk] is what [root.rglob("*")] yields on the tree of [w]: every path
    below [root], once, in some order. *)
Definition rglob_yields (w : world) (root : path) (walk : list path) : Prop :=
  NoDup walk /\
  forall p, p ∈ walk <-> is_Some (w_fs w !! p) /\ below root p.

(** [w'] differs from [w] by directories only: every regular file is as
    it was, and where the trees differ [w] had no regular file and [w']
    has a directory stamped with the clock (a directory that was created,
    or one in which an entry was created or removed); clock and output
    are the same. *)
Definition adds_dirs (w w' : world) : Prop :=
  w_clock w' = w_clock w /\ w_stdout w' = w_stdout w /\
  forall q, w_fs w' !! q = w_fs w !! q \/
            (is_file w q = false /\
             exists st, w_fs w' !! q = Some (NDir st) /\ st_mtime st = w_clock w).

(** The transform wrote [dst] in world [w]: missing parent directories
    were created, then [dst], which was not a directory, was replaced by
    a file stamped with the clock, and the clock advanced. *)
Definition wrote `{Platform} (dst : path) (w w' : world) : Prop :=
  exists w1 data,
    adds_dirs w w1 /\
    is_dir w1 dst = false /\
    w' = World (<[dst := NFile (w_clock w) data]> (w_fs w1))
               (clock_tick (w_clock w)) (w_stdout w).

(** What a transform ([convert_one], [make_thumbnail]) can do to the
    world: when it raises, it has at most created and stamped
    directories, or it has truncated a destination file that was there
    before; when it returns, it has written the destination. *)
Definition transform_effect `{Platform} (dst : path) (r : result unit)
    (w w' : world) : Prop :=
  ((exists e, r = Raise e) /\ adds_dirs w w') \/
  (wrote dst w w' /\
   (r = Ok tt \/ (exists e, r = Raise e) /\ is_file w dst = true)).

(** ** Statements of the specification that the scripts do not satisfy *)

(** "Every file with a path component that matches a skip-folder name
    case-insensitively is excluded": for convert_to_webp the configured
    names, for make_thumbnails the fixed name. *)
Definition skip_folder_claim : Prop :=
  (forall (P : Platform) a src s,
     (exists part name, part ∈ src /\ name ∈ convert_to_webp.skip_folder a /\
                        lower part = lower name) ->
     convert_to_webp.iteration a (map lower (convert_to_webp.skip_folder a)) src s
     = (Ok tt, s)) /\
  (forall (P : Platform) a src s,
     (exists part, part ∈ src /\ lower part = lower make_thumbnails.THUMB_DIR_NAME) ->
     make_thumbnails.iteration a src s = (Ok tt, s)).

(** "Every file whose extension is [.webp] is excluded by the filter of
    both scripts." *)
Definition webp_excluded_claim : Prop :=
  (forall (P : Platform) a sf src s,
     lower (path_suffix src) = ".webp" ->
     convert_to_webp.iteration a sf src s = (Ok tt, s)) /\
  (forall (P : Platform) a src s,
     lower (path_suffix src) = ".webp" ->
     make_thumbnails.iteration a src s = (Ok tt, s)).

(** "Any exception raised for a file is caught, ... and iteration
    continues with the next file; no single file's failure aborts the
    run": whatever happens to a file, its turn of the loop returns. *)
Definition errors_never_abort_claim : Prop :=
  (forall (P : Platform) a sf src s,
     exists s', convert_to_webp.iteration a sf src s = (Ok tt, s')) /\
  (forall (P : Platform) a src s,
     exists s', make_thumbnails.iteration a src s = (Ok tt, s')).

(** "With a root that is a directory the run completes and exits with
    status 0 when the error counter is zero and with status 2 when at
    least one per-file error occurred." *)
Definition exit_status_claim : Prop :=
  (forall (P : Platform) (c : convert_to_webp.cli) (walk : list path) (w : world),
     is_dir w (convert_to_webp.root (convert_to_webp.parse_args c)) = true ->
     exists w' cnt,
       snd (convert_to_webp.main c walk w) = (w', cnt) /\
       exit_status (fst (convert_to_webp.main c walk w))
       = (if Nat.eqb (convert_to_webp.errors cnt) 0 then 0 else 2)) /\
  (forall (P : Platform) (c : make_thumbnails.cli) (walk : list path) (w : world),
     is_dir w (make_thumbnails.root (make_thumbnails.parse_args c)) = true ->
     exists w' cnt,
       snd (make_thumbnails.main c walk w) = (w', cnt) /\
       exit_status (fst (make_thumbnails.main c walk w))
       = (if Nat.eqb (make_thumbnails.errors cnt) 0 then 0 else 2)).





(** ** Two runs in a row *)

(** Every path of the tree below [root] occurs in [walk]: what the
    lazy [rglob] of a run that changes the tree guarantees for the paths
    that were there when the run started. *)
Definition walk_reaches (w : world) (root : path) (walk : list path) : Prop :=
  forall p, is_Some (w_fs w !! p) -> below root p -> p ∈ walk.

(** No work item carries a modification time later than the clock. *)
Definition no_future_sources (eligible : world -> path -> bool) (w : world) : Prop :=
  forall p n, eligible w p = true -> w_fs w !! p = Some n ->
              st_mtime (node_stat n) <= w_clock w.

Section staleness_invariant.
(** The part of the filter that looks at the name only, and the
    destination of a source. *)
Variable name_ok : path -> bool.
Variable dst_of : path -> result path.

(** [p] is a work item in [w]. *)
Definition source_in (w : world) (p : path) : bool :=
  (is_file w p && name_ok p)%bool.

(** If [p] is a work item in [w], its destination is up to date. *)
Definition settled (w : world) (p : path) : Prop :=
  source_in w p = true ->
  exists dst, dst_of p = Ok dst /\ up_to_date w p dst = true.

(** What holds of the world [w] in the middle of an error-free run that
    started in [w0] and has handled the paths [done]: the work items
    of [w] are files of [w0], unchanged; none is stamped later than the
    clock; the directories of [w0] are still directories; and every
    path handled so far is settled. *)
Record run_inv (w0 w : world) (done : list path) : Prop := RunInv {
  inv_sources : forall p, source_in w p = true -> w_fs w !! p = w_fs w0 !! p;
  inv_clock : forall p n, source_in w p = true -> w_fs w !! p = Some n ->
                          st_mtime (node_stat n) <= w_clock w;
  inv_dirs : forall p, is_dir w0 p = true -> is_dir w p = true;
  inv_done : forall p, p ∈ done -> settled w p
}.
End staleness_invariant.

(** "Run twice in a row with the same arguments, without [--overwrite],
    on a tree that does not change in between and whose first run had no
    errors, the second run converts (creates) nothing and skips every
    eligible file": the first run starts in [w0] and returns 0, the second
    starts on the tree the first one left. *)
Definition idempotence_claim : Prop :=
  (forall (P : Platform), PlatformLaws P ->
   forall (c : convert_to_webp.cli) (walk1 walk2 : list path)
          (w0 w1 w1' : world) (cnt1 : convert_to_webp.counters),
     let a := convert_to_webp.parse_args c in
     let sf := map lower (convert_to_webp.skip_folder a) in
     convert_to_webp.cli_overwrite c = false ->
     walk_reaches w0 (convert_to_webp.root a) walk1 ->
     convert_to_webp.main c walk1 w0 = (Returned 0, (w1, cnt1)) ->
     w_fs w1' = w_fs w1 ->
     rglob_yields w1' (convert_to_webp.root a) walk2 ->
     exists w2 cnt2 code,
       convert_to_webp.main c walk2 w1' = (Returned code, (w2, cnt2)) /\
       convert_to_webp.converted cnt2 = 0%nat /\
       convert_to_webp.skipped cnt2
       = length (List.filter (convert_to_webp.eligible sf w1') walk2)) /\
  (forall (P : Platform), PlatformLaws P ->
   forall (c : make_thumbnails.cli) (walk1 walk2 : list path)
          (w0 w1 w1' : world) (cnt1 : make_thumbnails.counters),
     let a := make_thumbnails.parse_args c in
     make_thumbnails.cli_overwrite c = false ->
     walk_reaches w0 (make_thumbnails.root a) walk1 ->
     make_thumbnails.main c walk1 w0 = (Returned 0, (w1, cnt1)) ->
     w_fs w1' = w_fs w1 ->
     rglob_yields w1' (make_thumbnails.root a) walk2 ->
     exists w2 cnt2 code,
       make_thumbnails.main c walk2 w1' = (Returned code, (w2, cnt2)) /\
       make_thumbnails.created cnt2 = 0%nat /\
       make_thumbnails.skipped cnt2
       = length (List.filter (make_thumbnails.eligible w1') walk2)).

(** ** Further vocabulary *)

(** [PurePath.stem] applied to the final component: the name without its
    suffix. *)
Definition name_stem (name : string) : string :=
  str_take (String.length name - String.length (name_suffix name)) name.

(** One part of [p] is [name] up to letter case. *)
Definition has_part_like `{Platform} (p : path) (name : string) : Prop :=
  exists part, part ∈ p /\ lower part = lower name.

(** How the tree may differ after make_thumbnails has worked on it: a
    regular file outside every [thumbnails] folder is as it was, content
    and time stamp; a directory is still a directory (its time stamp
    changes when an entry is created in it); nothing has disappeared; and
    a regular file that is new or changed lies in a [thumbnails] folder
    and has the suffix [.webp]. *)
Definition thumbnails_footprint (w w' : world) : Prop :=
  (forall p m d, existsb (String.eqb make_thumbnails.THUMB_DIR_NAME) p = false ->
                 w_fs w !! p = Some (NFile m d) -> w_fs w' !! p = Some (NFile m d)) /\
  (forall p, is_dir w p = true -> is_dir w' p = true) /\
  (forall p, is_Some (w_fs w !! p) -> is_Some (w_fs w' !! p)) /\
  (forall p m d, w_fs w' !! p = Some (NFile m d) ->
                 w_fs w !! p = Some (NFile m d) \/
                 (existsb (String.eqb make_thumbnails.THUMB_DIR_NAME) p = true /\
                  path_suffix p = ".webp")).

(** How steps of convert_to_webp may change the tree, [gone] being the
    paths they may have removed: a regular file whose suffix is not
    [.webp] is as it was, content and time stamp, or it is one of
    [gone]; a directory is still a directory; nothing
    but [gone] has disappeared; and a regular file that is new or changed
    has the suffix [.webp]. *)
Definition webp_step (gone : path -> Prop) (w w' : world) : Prop :=
  (forall p m d, path_suffix p <> ".webp" -> w_fs w !! p = Some (NFile m d) ->
                 w_fs w' !! p = Some (NFile m d) \/ gone p) /\
  (forall p, is_dir w p = true -> is_dir w' p = true) /\
  (forall p, is_Some (w_fs w !! p) -> is_Some (w_fs w' !! p) \/ gone p) /\
  (forall p m d, w_fs w' !! p = Some (NFile m d) ->
                 w_fs w !! p = Some (NFile m d) \/ path_suffix p = ".webp").


(** The number of work items a run has handled so far, as its counters
    tell it. *)
Definition thumb_total (c : make_thumbnails.counters) : nat :=
  (make_thumbnails.created c + make_thumbnails.skipped c + make_thumbnails.errors c)%nat.

Definition webp_total (c : convert_to_webp.counters) : nat :=
  (convert_to_webp.converted c + convert_to_webp.skipped c
   + convert_to_webp.errors c)%nat.

(** A line the handler prints. *)
Definition is_error_line (line : string) : Prop := String.prefix "[ERROR] " line = true.


(* ===================================================================== *)
(** * Facts about strings and paths *)
(* ===================================================================== *)

Lemma append_cons (c : ascii) (a b : string) :
  (String c a ++ b)%string = String c (a ++ b).
Proof. reflexivity. Qed.

Lemma append_empty_l (b : string) : ("" ++ b)%string = b.
Proof. reflexivity. Qed.

(** [str.lower] on the ASCII constants of the scripts. *)
Lemma lower_empty `{Platform} : lower "" = "".
Proof. now rewrite lower_ascii_text. Qed.

Lemma lower_webp `{Platform} : lower ".webp" = ".webp".
Proof. now rewrite lower_ascii_text. Qed.

Lemma lower_thumbnails `{Platform} : lower "thumbnails" = "thumbnails".
Proof. now rewrite lower_ascii_text. Qed.

Lemma str_len_app (a b : string) : str_len (a ++ b) = str_len a + str_len b.
Proof.
  unfold str_len. induction a as [|c a IH]; [reflexivity|].
  rewrite append_cons. simpl String.length. lia.
Qed.

Lemma str_len_nonneg (s : string) : 0 <= str_len s.
Proof. unfold str_len. lia. Qed.

Lemma str_len_pos (s : string) : s <> "" -> 0 < str_len s.
Proof. destruct s; [congruence|]. unfold str_len. simpl. lia. Qed.

(** The last dot of [a ++ b] is the last dot of [b] when [b] has one. *)
Lemma rfind_dot_app (a b : string) :
  0 <= rfind_dot b -> rfind_dot (a ++ b) = str_len a + rfind_dot b.
Proof.
  intros Hb. induction a as [|c a IH].
  - rewrite append_empty_l. unfold str_len. simpl. lia.
  - rewrite append_cons. simpl rfind_dot. rewrite IH.
    assert (0 <= str_len a) by apply str_len_nonneg.
    destruct (0 <=? str_len a + rfind_dot b) eqn:E.
    + unfold str_len. simpl String.length. unfold str_len in *. lia.
    + apply Z.leb_gt in E. lia.
Qed.

Lemma str_drop_app_length (a b : string) :
  str_drop (String.length a) (a ++ b) = b.
Proof. induction a as [|c a IH]; [reflexivity|]. rewrite append_cons. exact IH. Qed.

Lemma str_drop_length (i : nat) (s : string) :
  String.length (str_drop i s) = (String.length s - i)%nat.
Proof.
  revert s. induction i as [|i IH]; intros s; simpl.
  - lia.
  - destruct s as [|c t]; simpl; [reflexivity|]. apply IH.
Qed.

Lemma str_take_nonempty (i : nat) (s : string) :
  (0 < i)%nat -> s <> "" -> str_take i s <> "".
Proof. destruct i; [lia|]. destruct s; [congruence|]. simpl. congruence. Qed.

Lemma append_nonempty_r (a b : string) : b <> "" -> (a ++ b)%string <> "".
Proof.
  destruct a as [|c a]; [now rewrite append_empty_l|].
  rewrite append_cons. congruence.
Qed.

Lemma eqb_false_neq (a b : string) : String.eqb a b = false <-> a <> b.
Proof. apply String.eqb_neq. Qed.

(** A name with a suffix has something in front of it. *)
Lemma name_suffix_nonempty (name : string) :
  name_suffix name <> "" ->
  name <> "" /\
  (0 < String.length name - String.length (name_suffix name))%nat.
Proof.
  unfold name_suffix.
  destruct ((0 <? rfind_dot name) && (rfind_dot name <? str_len name - 1))%bool eqn:E;
    [|congruence].
  intros _. apply andb_true_iff in E as [E1 E2].
  apply Z.ltb_lt in E1. apply Z.ltb_lt in E2. unfold str_len in E2.
  split.
  - destruct name; [simpl in E1; lia|congruence].
  - rewrite str_drop_length. lia.
Qed.

(** Appending [".webp"] to a non-empty stem gives a name whose suffix is
    [".webp"]. *)
Lemma name_suffix_webp (stem : string) :
  stem <> "" -> name_suffix (stem ++ ".webp") = ".webp".
Proof.
  intros Hne. unfold name_suffix.
  rewrite rfind_dot_app by (simpl; lia).
  rewrite str_len_app.
  change (rfind_dot ".webp") with 0. change (str_len ".webp") with 5.
  pose proof (str_len_pos stem Hne) as Hpos.
  replace (0 <? str_len stem + 0) with true by (symmetry; apply Z.ltb_lt; lia).
  replace (str_len stem + 0 <? str_len stem + 5 - 1) with true
    by (symmetry; apply Z.ltb_lt; lia).
  simpl andb. cbv iota.
  replace (Z.to_nat (str_len stem + 0)) with (String.length stem)
    by (unfold str_len; lia).
  apply str_drop_app_length.
Qed.

Lemma path_name_snoc (p : path) (name : string) : path_name (p ++ [name]) = name.
Proof. unfold path_name. apply last_last. Qed.

(** [with_suffix] raises only on a path with an empty name; otherwise the
    result lies in the same directory and its suffix is the new one. *)
Lemma with_suffix_webp (p : path) :
  path_name p <> "" ->
  exists stem, stem <> "" /\
    with_suffix p ".webp" = Ok (path_parent p ++ [(stem ++ ".webp")%string])%list.
Proof.
  intros Hname. unfold with_suffix.
  apply eqb_false_neq in Hname as Hn. rewrite Hn.
  set (name' := if String.eqb (name_suffix (path_name p)) "" then _ else _).
  assert (exists stem, stem <> "" /\ name' = (stem ++ ".webp")%string) as (stem & Hs & ->).
  { subst name'. destruct (String.eqb (name_suffix (path_name p)) "") eqn:E.
    - eauto.
    - apply eqb_false_neq in E. apply name_suffix_nonempty in E as [_ E].
      eexists; split; [|reflexivity]. now apply str_take_nonempty. }
  exists stem. split; [assumption|].
  unfold path_join.
  assert ((stem ++ ".webp")%string <> "") as Hne by (apply append_nonempty_r; congruence).
  apply eqb_false_neq in Hne. now rewrite Hne.
Qed.

Lemma with_suffix_webp_suffix (p q : path) :
  with_suffix p ".webp" = Ok q -> path_suffix q = ".webp".
Proof.
  intros H.
  destruct (String.eqb (path_name p) "") eqn:E.
  - unfold with_suffix in H. rewrite E in H. discriminate.
  - apply eqb_false_neq in E.
    destruct (with_suffix_webp p E) as (stem & Hs & Heq).
    rewrite Heq in H. injection H as <-.
    unfold path_suffix. rewrite path_name_snoc. now apply name_suffix_webp.
Qed.

(** A path whose suffix is not empty has a name. *)
Lemma path_suffix_name (p : path) : path_suffix p <> "" -> path_name p <> "".
Proof. unfold path_suffix. intros H. now apply name_suffix_nonempty in H. Qed.

(** ** Text that every standard output can encode *)

Lemma all_ascii_app (a b : string) :
  all_ascii (a ++ b) = (all_ascii a && all_ascii b)%bool.
Proof.
  induction a as [|c a IH]; [reflexivity|].
  rewrite append_cons. simpl. rewrite IH. now rewrite andb_assoc.
Qed.

Lemma pretty_N_char_ascii (x : N) : is_ascii (pretty_N_char x) = true.
Proof.
  unfold pretty_N_char.
  repeat match goal with
         | |- context [match ?y with _ => _ end] => destruct y
         end; reflexivity.
Qed.

Lemma pretty_N_go_ascii (x : N) (s : string) :
  all_ascii s = true -> all_ascii (pretty_N_go x s) = true.
Proof.
  revert s. induction (N.lt_wf_0 x) as [x _ IH]. intros s Hs.
  destruct (decide (x = 0%N)) as [->|Hne].
  - now rewrite pretty_N_go_0.
  - rewrite pretty_N_go_step by lia. apply IH.
    + apply N.div_lt; lia.
    + simpl. now rewrite pretty_N_char_ascii.
Qed.

(** The decimal numeral of a natural number is ASCII text. *)
Lemma pretty_nat_ascii (n : nat) : all_ascii (pretty n) = true.
Proof.
  unfold pretty, pretty_nat, pretty, pretty_N.
  destruct (decide (N.of_nat n = 0%N)); [reflexivity|].
  now apply pretty_N_go_ascii.
Qed.

(* ===================================================================== *)
(** * Facts about the monads and the file system *)
(* ===================================================================== *)

Lemma W_bind_eq {A B} (m : W A) (k : A -> W B) (w : world) :
  (m ≫= k) w =
  match m w with
  | (Ok a, w') => k a w'
  | (Raise e, w') => (Raise e, w')
  end.
Proof. reflexivity. Qed.

Lemma M_bind_eq {C A B} (m : M C A) (k : A -> M C B) (s : world * C) :
  (m ≫= k) s =
  match m s with
  | (Ok a, s') => k a s'
  | (Raise e, s') => (Raise e, s')
  end.
Proof. reflexivity. Qed.

Lemma W_bind_inv {A B} (m : W A) (k : A -> W B) (w w' : world) (r : result B) :
  (m ≫= k) w = (r, w') ->
  (exists a w1, m w = (Ok a, w1) /\ k a w1 = (r, w')) \/
  (exists e, m w = (Raise e, w') /\ r = Raise e).
Proof.
  rewrite W_bind_eq. destruct (m w) as [[a|e] w1]; intros H.
  - left. eauto.
  - right. injection H as <- <-. eauto.
Qed.

Lemma liftR_inv {A} (r r' : result A) (w w' : world) :
  liftR r w = (r', w') -> r' = r /\ w' = w.
Proof. unfold liftR. intros H. now injection H as <- <-. Qed.

Lemma readR_inv {A} (f : world -> result A) (r : result A) (w w' : world) :
  readR f w = (r, w') -> r = f w /\ w' = w.
Proof. unfold readR. intros H. now injection H as <- <-. Qed.

(** ** Worlds that differ by directories only *)

Lemma adds_dirs_refl (w : world) : adds_dirs w w.
Proof. repeat split. intros q. now left. Qed.

Lemma adds_dirs_file_keeps (w w' : world) (q : path) (m : Z) (d : list Byte.byte) :
  adds_dirs w w' -> w_fs w !! q = Some (NFile m d) -> w_fs w' !! q = Some (NFile m d).
Proof.
  intros (_ & _ & H) Hq. destruct (H q) as [E|[E _]]; [congruence|].
  unfold is_file in E. rewrite Hq in E. discriminate.
Qed.

Lemma adds_dirs_file (w w' : world) (q : path) (m : Z) (d : list Byte.byte) :
  adds_dirs w w' -> w_fs w' !! q = Some (NFile m d) -> w_fs w !! q = Some (NFile m d).
Proof. intros (_ & _ & H) Hq. destruct (H q) as [E|(_ & st & E & _)]; congruence. Qed.

Lemma adds_dirs_is_Some (w w' : world) (q : path) :
  adds_dirs w w' -> is_Some (w_fs w !! q) -> is_Some (w_fs w' !! q).
Proof.
  intros (_ & _ & H) Hq. destruct (H q) as [E|(_ & st & E & _)]; rewrite E; eauto.
Qed.

Lemma adds_dirs_is_file (w w' : world) (q : path) :
  adds_dirs w w' -> is_file w' q = is_file w q.
Proof.
  intros (_ & _ & H). destruct (H q) as [E|(Hf & st & E & _)]; unfold is_file in *.
  - now rewrite E.
  - rewrite E. simpl. now rewrite Hf.
Qed.

Lemma adds_dirs_is_dir (w w' : world) (q : path) :
  adds_dirs w w' -> is_dir w q = true -> is_dir w' q = true.
Proof.
  intros (_ & _ & H) Hq. destruct (H q) as [E|(_ & st & E & _)]; unfold is_dir in *.
  - now rewrite E.
  - now rewrite E.
Qed.

(** A directory of [w] is in [w'] as it was, or stamped with the clock. *)
Lemma adds_dirs_dir_stamp (w w' : world) (q : path) (st : stat_result) :
  adds_dirs w w' -> w_fs w !! q = Some (NDir st) ->
  exists st', w_fs w' !! q = Some (NDir st') /\
              (st' = st \/ st_mtime st' = w_clock w).
Proof.
  intros (_ & _ & H) Hq. destruct (H q) as [E|(_ & st' & E & Hst)].
  - exists st. split; [congruence|now left].
  - exists st'. split; [assumption|now right].
Qed.

Lemma adds_dirs_trans (w1 w2 w3 : world) :
  adds_dirs w1 w2 -> adds_dirs w2 w3 -> adds_dirs w1 w3.
Proof.
  intros H12 (Hc & Ho & H23).
  pose proof H12 as (Hc' & Ho' & H12').
  repeat split; [congruence..|]. intros q.
  destruct (H23 q) as [E|(Hf & st & E & Hst)].
  - rewrite E. apply H12'.
  - right. split.
    + now rewrite <- (adds_dirs_is_file w1 w2 q H12).
    + exists st. split; [assumption|congruence].
Qed.

Lemma touch_dir_lookup (d q : path) (t : Z) (fs : gmap (list string) node) :
  touch_dir d t fs !! q = fs !! q \/
  exists st, fs !! q = Some (NDir st) /\
             touch_dir d t fs !! q = Some (NDir (Stat t (st_size st))).
Proof.
  unfold touch_dir. destruct (fs !! d) as [[st|m dd]|] eqn:E; try now left.
  destruct (decide (d = q)) as [<-|Hne].
  - right. exists st. split; [assumption|apply lookup_insert_eq].
  - left. now apply lookup_insert_ne.
Qed.

(** Stamping a directory relates the worlds by [adds_dirs]. *)
Lemma adds_dirs_touch (w : world) (d : path) :
  adds_dirs w (set_fs (touch_dir d (w_clock w) (w_fs w)) w).
Proof.
  repeat split. intros q. cbn [w_fs set_fs].
  destruct (touch_dir_lookup d q (w_clock w) (w_fs w)) as [E|(st & E1 & E2)].
  - now left.
  - right. split; [unfold is_file; now rewrite E1|]. eauto.
Qed.

(** Creating a directory where there was no file, in a stamped parent. *)
Lemma adds_dirs_mkdir (w w1 : world) (p d : path) (sz : Z) :
  adds_dirs w w1 -> is_file w p = false ->
  adds_dirs w (set_fs (<[p := NDir (Stat (w_clock w1) sz)]>
                         (touch_dir d (w_clock w1) (w_fs w1))) w1).
Proof.
  intros Hadd Hp. pose proof Hadd as (Hc & Ho & H).
  repeat split; [assumption..|]. intros q. cbn [w_fs set_fs].
  destruct (decide (p = q)) as [<-|Hne].
  - right. split; [assumption|].
    eexists. split; [apply lookup_insert_eq|exact Hc].
  - rewrite lookup_insert_ne by assumption.
    destruct (touch_dir_lookup d q (w_clock w1) (w_fs w1)) as [E|(st & E1 & E2)].
    + rewrite E. apply H.
    + right. split.
      * rewrite <- (adds_dirs_is_file w w1 q Hadd). unfold is_file. now rewrite E1.
      * eexists. split; [exact E2|exact Hc].
Qed.

Ltac case_lookup E :=
  match goal with
  | |- context [match w_fs ?w !! ?p with _ => _ end] =>
      destruct (w_fs w !! p) as [[?|? ?]|] eqn:E
  end.

(** [mkdir(parents=True, exist_ok=True)] creates and stamps directories
    and does nothing else, whether it returns or raises; when it returns,
    the directory is there. *)
Lemma mkdir_parents_rev_spec (rp : list string) (w w' : world) (r : result unit) :
  mkdir_parents_rev rp w = (r, w') ->
  adds_dirs w w' /\ (r = Ok tt -> is_dir w' (rev rp) = true).
Proof.
  revert w w' r. induction rp as [|x rparent IH]; intros w w' r;
    cbn [mkdir_parents_rev].
  - case_lookup E; intros H; injection H as <- <-;
      (split; [apply adds_dirs_refl|]); try discriminate.
    intros _. unfold is_dir. now rewrite E.
  - case_lookup E.
    + intros H; injection H as <- <-. split; [apply adds_dirs_refl|].
      intros _. unfold is_dir. now rewrite E.
    + intros H; injection H as <- <-. split; [apply adds_dirs_refl|discriminate].
    + destruct rparent as [|y rgrand].
      { intros H; injection H as <- <-. split; [apply adds_dirs_refl|discriminate]. }
      case_lookup Ep.
      * intros H; injection H as <- <-. split.
        -- apply adds_dirs_mkdir; [apply adds_dirs_refl|].
           unfold is_file. cbn [rev] in E |- *. now rewrite E.
        -- intros _. unfold is_dir. simpl. now rewrite lookup_insert_eq.
      * intros H; injection H as <- <-. split; [apply adds_dirs_refl|discriminate].
      * destruct (mkdir_parents_rev (y :: rgrand) w) as [[[]|e] w1] eqn:Er.
        -- destruct (IH _ _ _ Er) as [Hadd _].
           intros H; injection H as <- <-. split.
           ++ apply adds_dirs_mkdir; [assumption|].
              unfold is_file. cbn [rev] in E |- *. now rewrite E.
           ++ intros _. unfold is_dir. simpl. now rewrite lookup_insert_eq.
        -- destruct (IH _ _ _ Er) as [Hadd _].
           intros H; injection H as <- <-. split; [assumption|discriminate].
Qed.

Lemma mkdir_parents_spec (p : path) (w w' : world) (r : result unit) :
  mkdir_parents p w = (r, w') ->
  adds_dirs w w' /\ (r = Ok tt -> is_dir w' p = true).
Proof.
  unfold mkdir_parents. intros H. apply mkdir_parents_rev_spec in H.
  now rewrite rev_involutive in H.
Qed.

(** ** [Image.save] and the two transforms *)

Section transforms.
Context {P : Platform}.

Lemma Image_save_spec (im : image) (dst : path) (kw : save_kwargs)
    (w w' : world) (r : result unit) :
  Image_save im dst kw w = (r, w') ->
  ((exists e, r = Raise e) /\ adds_dirs w w') \/
  (is_dir w dst = false /\
   exists w1 data,
     adds_dirs w w1 /\ is_dir w1 dst = false /\
     w' = World (<[dst := NFile (w_clock w) data]> (w_fs w1))
                (clock_tick (w_clock w)) (w_stdout w) /\
     (r = Ok tt \/ (exists e, r = Raise e) /\ is_Some (w_fs w !! dst))).
Proof.
  unfold Image_save.
  destruct (w_fs w !! dst) as [[st|m d]|] eqn:E.
  - intros H; injection H as <- <-. left. split; [eauto|apply adds_dirs_refl].
  - assert (is_dir w dst = false) as Hd by (unfold is_dir; now rewrite E).
    destruct (negb _);
      [intros H; injection H as <- <-; left; split; [eauto|apply adds_dirs_refl]|].
    cbv zeta.
    destruct (pil_encode_webp im kw) as [data|e];
      intros H; injection H as <- <-; right; (split; [exact Hd|]).
    + exists w, data. split; [apply adds_dirs_refl|]. split; [exact Hd|].
      split; [reflexivity|]. now left.
    + exists w, []. split; [apply adds_dirs_refl|]. split; [exact Hd|].
      split; [reflexivity|]. right. split; eauto.
  - assert (is_dir w dst = false) as Hd by (unfold is_dir; now rewrite E).
    destruct (negb _);
      [intros H; injection H as <- <-; left; split; [eauto|apply adds_dirs_refl]|].
    cbv zeta.
    destruct (pil_encode_webp im kw) as [data|e];
      intros H; injection H as <- <-.
    + right. split; [exact Hd|].
      exists (set_fs (touch_dir (path_parent dst) (w_clock w) (w_fs w)) w), data.
      split; [apply adds_dirs_touch|]. split.
      * unfold is_dir. cbn [w_fs set_fs].
        destruct (touch_dir_lookup (path_parent dst) dst (w_clock w) (w_fs w))
          as [E1|(st & E1 & _)]; [now rewrite E1, E|congruence].
      * split; [reflexivity|now left].
    + left. split; [eauto|apply adds_dirs_touch].
Qed.

(** The common tail of both transforms: create the parent directories,
    then save. *)
Lemma mkdir_save_spec (im : image) (dst : path) (kw : save_kwargs)
    (w w' : world) (r : result unit) :
  (mkdir_parents (path_parent dst) ≫= fun _ => Image_save im dst kw) w = (r, w') ->
  transform_effect dst r w w'.
Proof.
  intros H. apply W_bind_inv in H as [(a & w1 & Hm & Hs)|(e & Hm & ->)].
  - apply mkdir_parents_spec in Hm as [Hadd _].
    apply Image_save_spec in Hs as [[He Hadd2]|(Hd & w2 & data & Hadd2 & Hd2 & -> & Hr)].
    + left. split; [assumption|]. eapply adds_dirs_trans; eauto.
    + right. pose proof Hadd as (Hc & Ho & Hq). split.
      * exists w2, data. rewrite Hc, Ho.
        split; [eapply adds_dirs_trans; eauto|]. split; [assumption|reflexivity].
      * destruct Hr as [->|[He Hsome]]; [now left|right].
        split; [assumption|].
        destruct Hsome as [n Hn]. unfold is_dir in Hd. rewrite Hn in Hd.
        destruct n as [st|m d]; [discriminate|].
        rewrite <- (adds_dirs_is_file w w1 dst Hadd).
        unfold is_file. now rewrite Hn.
  - apply mkdir_parents_spec in Hm as [Hadd _]. left. eauto.
Qed.

Lemma transform_effect_refl (dst : path) (e : string) (w : world) :
  transform_effect dst (Raise e) w w.
Proof. left. split; [eauto|apply adds_dirs_refl]. Qed.

Lemma convert_one_spec (src dst : path) (q : Z) (k : bool)
    (w w' : world) (r : result unit) :
  convert_to_webp.convert_one src dst q k w = (r, w') ->
  transform_effect dst r w w'.
Proof.
  unfold convert_to_webp.convert_one, Image_open. intros H.
  apply W_bind_inv in H as [(a & w1 & H1 & H)|(e & H1 & ->)];
    apply readR_inv in H1 as [H1 ->]; [|apply transform_effect_refl].
  apply W_bind_inv in H as [(a2 & w2 & H2 & H)|(e & H2 & ->)];
    apply liftR_inv in H2 as [H2 ->]; [|apply transform_effect_refl].
  apply W_bind_inv in H as [(a3 & w3 & H3 & H)|(e & H3 & ->)];
    apply liftR_inv in H3 as [H3 ->]; [|apply transform_effect_refl].
  now apply mkdir_save_spec in H.
Qed.

Lemma make_thumbnail_spec (src dst : path) (mx : Z * Z) (q : Z) (m : string)
    (k : bool) (w w' : world) (r : result unit) :
  make_thumbnails.make_thumbnail src dst mx q m k w = (r, w') ->
  transform_effect dst r w w'.
Proof.
  unfold make_thumbnails.make_thumbnail, Image_open. intros H.
  apply W_bind_inv in H as [(a & w1 & H1 & H)|(e & H1 & ->)];
    apply readR_inv in H1 as [H1 ->]; [|apply transform_effect_refl].
  apply W_bind_inv in H as [(a2 & w2 & H2 & H)|(e & H2 & ->)];
    apply liftR_inv in H2 as [H2 ->]; [|apply transform_effect_refl].
  apply W_bind_inv in H as [(a3 & w3 & H3 & H)|(e & H3 & ->)];
    apply liftR_inv in H3 as [H3 ->]; [|apply transform_effect_refl].
  apply W_bind_inv in H as [(a4 & w4 & H4 & H)|(e & H4 & ->)];
    apply liftR_inv in H4 as [H4 ->]; [|apply transform_effect_refl].
  now apply mkdir_save_spec in H.
Qed.
End transforms.

(* ===================================================================== *)
(** * The staleness check and the [try] statement, unfolded *)
(* ===================================================================== *)

Lemma up_to_date_iff (w : world) (src dst : path) :
  up_to_date w src dst = true <->
  exists d s, w_fs w !! dst = Some d /\ w_fs w !! src = Some s /\
              st_mtime (node_stat s) <= st_mtime (node_stat d).
Proof.
  unfold up_to_date. split.
  - destruct (w_fs w !! dst) as [d|]; [|discriminate].
    destruct (w_fs w !! src) as [s|]; [|discriminate].
    intros H%Z.leb_le. eauto.
  - intros (d & s & -> & -> & H). now apply Z.leb_le.
Qed.

Lemma is_file_some (w : world) (p : path) :
  is_file w p = true -> exists m d, w_fs w !! p = Some (NFile m d).
Proof.
  unfold is_file. destruct (w_fs w !! p) as [[st|m d]|]; try discriminate. eauto.
Qed.

Section print_facts.
Context {P : Platform}.

Lemma print_ascii (line : string) (w : world) :
  all_ascii line = true ->
  print line w = (Ok tt, World (w_fs w) (w_clock w) (w_stdout w ++ [line])).
Proof. intros H. unfold print, printable. now rewrite H. Qed.

(** What [print] leaves behind, whether it returns or raises. *)
Lemma print_spec (line : string) (w w' : world) (r : result unit) :
  print line w = (r, w') ->
  (r = Ok tt /\ printable line = true /\
   w' = World (w_fs w) (w_clock w) (w_stdout w ++ [line])) \/
  ((exists e, r = Raise e) /\ printable line = false /\ w' = w).
Proof.
  unfold print. destruct (printable line); intros H; injection H as <- <-.
  - now left.
  - right. eauto.
Qed.

Lemma print_lines_ascii (lines : list string) (w : world) :
  Forall (fun line => all_ascii line = true) lines ->
  print_lines lines w = (Ok tt, World (w_fs w) (w_clock w) (w_stdout w ++ lines)).
Proof.
  intros H. revert w. induction H as [|line rest Hl _ IH]; intros w.
  - cbn [print_lines]. rewrite app_nil_r. now destruct w.
  - cbn [print_lines]. rewrite W_bind_eq, (print_ascii _ _ Hl), IH.
    cbn [w_fs w_clock w_stdout]. now rewrite <- app_assoc.
Qed.
End print_facts.

Section webp_facts.
Import convert_to_webp.
Context {P : Platform}.

Lemma webp_is_up_to_date_eq (w : world) (src dst : path) :
  is_Some (w_fs w !! src) ->
  is_up_to_date src dst w = (Ok (up_to_date w src dst), w).
Proof.
  intros [s Hs]. unfold is_up_to_date, readR, exists_, stat, up_to_date.
  rewrite Hs. now destruct (w_fs w !! dst).
Qed.

Lemma webp_skip_check_eq (a : args) (w : world) (src dst : path) :
  is_Some (w_fs w !! src) ->
  skip_check a src dst w = (Ok (negb (overwrite a) && up_to_date w src dst)%bool, w).
Proof.
  intros Hs. unfold skip_check. destruct (overwrite a); simpl.
  - reflexivity.
  - now apply webp_is_up_to_date_eq.
Qed.

Lemma webp_skip_check_world (a : args) (w w' : world) (src dst : path) (r : result bool) :
  skip_check a src dst w = (r, w') -> w' = w.
Proof.
  unfold skip_check. destruct (negb (overwrite a)).
  - unfold is_up_to_date. intros H. now apply readR_inv in H.
  - intros H. now injection H.
Qed.

(** The [try] body as a decision tree over the results of the calls
    it makes. *)
Lemma webp_try_body_eq (a : args) (src dst : path) (w : world) (c : counters) :
  try_body a src dst (w, c) =
  match skip_check a src dst w with
  | (Raise e, w1) => (Raise e, (w1, c))
  | (Ok true, w1) => (Ok tt, (w1, incr_skipped c))
  | (Ok false, w1) =>
      match convert_one src dst (quality a) (keep_metadata a) w1 with
      | (Raise e, w2) => (Raise e, (w2, c))
      | (Ok _, w2) =>
          if delete_originals a then
            match dst_nonempty dst w2 with
            | (Raise e, w3) => (Raise e, (w3, incr_converted c))
            | (Ok false, w3) => (Ok tt, (w3, incr_converted c))
            | (Ok true, w3) =>
                match unlink src w3 with
                | (Raise e, w4) => (Raise e, (w4, incr_converted c))
                | (Ok _, w4) => (Ok tt, (w4, incr_deleted (incr_converted c)))
                end
            end
          else (Ok tt, (w2, incr_converted c))
      end
  end.
Proof.
  unfold try_body, mbind, M_bind, mret, M_ret, lift_w, modify_c.
  lazy beta iota zeta delta [fst snd].
  destruct (skip_check a src dst w) as [[[|]|e] w1]; try reflexivity.
  lazy beta iota zeta delta [fst snd].
  destruct (convert_one src dst (quality a) (keep_metadata a) w1) as [[[]|e] w2];
    try reflexivity.
  lazy beta iota zeta delta [fst snd].
  destruct (delete_originals a); [|reflexivity].
  lazy beta iota zeta delta [fst snd].
  destruct (dst_nonempty dst w2) as [[[|]|e] w3]; try reflexivity.
  lazy beta iota zeta delta [fst snd].
  destruct (unlink src w3) as [[[]|e] w4]; reflexivity.
Qed.

Lemma webp_dst_nonempty_eq (dst : path) (w : world) :
  dst_nonempty dst w =
  (Ok (match w_fs w !! dst with
       | Some n => 0 <? st_size (node_stat n)
       | None => false
       end), w).
Proof.
  unfold dst_nonempty, readR, exists_, stat. now destruct (w_fs w !! dst).
Qed.

(** The whole [try ... except] statement: an exception of the body
    is counted, then its line is printed. *)
Lemma webp_try_except_eq (a : args) (src dst : path) (s : world * counters) :
  try_except (try_body a src dst) (handler src) s =
  match try_body a src dst s with
  | (Ok _, s1) => (Ok tt, s1)
  | (Raise e, (w1, c1)) =>
      if printable ("[ERROR] " ++ path_str src ++ ": " ++ e)
      then (Ok tt, (World (w_fs w1) (w_clock w1)
                      (w_stdout w1 ++ ["[ERROR] " ++ path_str src ++ ": " ++ e]),
                    incr_errors c1))
      else (Raise "UnicodeEncodeError: standard output cannot encode the line",
            (w1, incr_errors c1))
  end.
Proof.
  unfold try_except. destruct (try_body a src dst s) as [[[]|e] [w1 c1]]; [reflexivity|].
  unfold handler, mbind, M_bind, modify_c, lift_w, print.
  lazy beta iota zeta delta [fst snd].
  now destruct (printable _).
Qed.

Lemma webp_summary_ascii (c : counters) :
  Forall (fun line => all_ascii line = true) (summary c).
Proof.
  unfold summary.
  repeat (apply Forall_cons; split;
          [try reflexivity; rewrite all_ascii_app, pretty_nat_ascii; reflexivity|]).
  apply Forall_nil_2.
Qed.

(** [main]: the summary is ASCII text, so printing it never raises. *)
Lemma webp_main_eq (c : cli) (walk : list path) (w : world) :
  main c walk w =
  let a := parse_args c in
  if (negb (exists_ w (root a)) || negb (is_dir w (root a)))%bool
  then (SystemExit ("Folder not found: " ++ path_str (root a)), (w, zero))
  else
    match loop a (map lower (skip_folder a)) walk (w, zero) with
    | (Ok _, (w', cnt)) =>
        (Returned (if Nat.eqb (errors cnt) 0 then 0 else 2),
         (World (w_fs w') (w_clock w') (w_stdout w' ++ summary cnt), cnt))
    | (Raise e, s') => (Uncaught e, s')
    end.
Proof.
  unfold main. cbv zeta. destruct (_ || _)%bool; [reflexivity|].
  destruct (loop _ _ _ _) as [[[]|e] [w' cnt]]; [|reflexivity].
  now rewrite (print_lines_ascii _ _ (webp_summary_ascii cnt)).
Qed.

(** One turn of the loop in terms of [eligible]. *)
Lemma webp_iteration_eq (a : args) (sf : list string) (src : path) (s : world * counters) :
  iteration a sf src s =
  if eligible sf (fst s) src then
    match with_suffix src ".webp" with
    | Ok dst => try_except (try_body a src dst) (handler src) s
    | Raise e => (Raise e, s)
    end
  else (Ok tt, s).
Proof.
  unfold iteration, eligible, name_passes, mbind, M_bind, mret, M_ret, ask,
    lift_w, liftR.
  destruct s as [w c].
  lazy beta iota zeta delta [fst snd].
  destruct (is_file w src); [|reflexivity].
  destruct (existsb _ sf); [reflexivity|].
  destruct (str_in (lower (path_suffix src)) WEBP_EXTS); [reflexivity|].
  destruct (str_in (lower (path_suffix src)) CONVERT_EXTS); [|reflexivity].
  lazy beta iota zeta delta [fst snd negb andb].
  now destruct (with_suffix src ".webp").
Qed.
End webp_facts.

Section thumb_facts.
Import make_thumbnails.
Context {P : Platform}.

Lemma thumb_is_up_to_date_eq (w : world) (src dst : path) :
  is_Some (w_fs w !! src) ->
  is_up_to_date src dst w = (Ok (up_to_date w src dst), w).
Proof.
  intros [s Hs]. unfold is_up_to_date, readR, exists_, stat, up_to_date.
  rewrite Hs. now destruct (w_fs w !! dst).
Qed.

Lemma thumb_skip_check_eq (a : args) (w : world) (src dst : path) :
  is_Some (w_fs w !! src) ->
  skip_check a src dst w = (Ok (negb (overwrite a) && up_to_date w src dst)%bool, w).
Proof.
  intros Hs. unfold skip_check. destruct (overwrite a); simpl.
  - reflexivity.
  - now apply thumb_is_up_to_date_eq.
Qed.

Lemma thumb_try_body_eq (a : args) (src dst : path) (w : world) (c : counters) :
  try_body a src dst (w, c) =
  match skip_check a src dst w with
  | (Raise e, w1) => (Raise e, (w1, c))
  | (Ok true, w1) => (Ok tt, (w1, incr_skipped c))
  | (Ok false, w1) =>
      match make_thumbnail src dst (max a) (quality a) (method a)
              (keep_metadata a) w1 with
      | (Raise e, w2) => (Raise e, (w2, c))
      | (Ok _, w2) => (Ok tt, (w2, incr_created c))
      end
  end.
Proof.
  unfold try_body, mbind, M_bind, mret, M_ret, lift_w, modify_c.
  lazy beta iota zeta delta [fst snd].
  destruct (skip_check a src dst w) as [[[|]|e] w1]; try reflexivity.
  lazy beta iota zeta delta [fst snd].
  destruct (make_thumbnail src dst (max a) (quality a) (method a)
              (keep_metadata a) w1) as [[[]|e] w2]; reflexivity.
Qed.

Lemma thumb_try_except_eq (a : args) (src dst : path) (s : world * counters) :
  try_except (try_body a src dst) (handler src) s =
  match try_body a src dst s with
  | (Ok _, s1) => (Ok tt, s1)
  | (Raise e, (w1, c1)) =>
      if printable ("[ERROR] " ++ path_str src ++ ": " ++ e)
      then (Ok tt, (World (w_fs w1) (w_clock w1)
                      (w_stdout w1 ++ ["[ERROR] " ++ path_str src ++ ": " ++ e]),
                    incr_errors c1))
      else (Raise "UnicodeEncodeError: standard output cannot encode the line",
            (w1, incr_errors c1))
  end.
Proof.
  unfold try_except. destruct (try_body a src dst s) as [[[]|e] [w1 c1]]; [reflexivity|].
  unfold handler, mbind, M_bind, modify_c, lift_w, print.
  lazy beta iota zeta delta [fst snd].
  now destruct (printable _).
Qed.

Lemma thumb_summary_ascii (c : counters) :
  Forall (fun line => all_ascii line = true) (summary c).
Proof.
  unfold summary.
  repeat (apply Forall_cons; split;
          [try reflexivity; rewrite all_ascii_app, pretty_nat_ascii; reflexivity|]).
  apply Forall_nil_2.
Qed.

Lemma thumb_main_eq (c : cli) (walk : list path) (w : world) :
  main c walk w =
  let a := parse_args c in
  if (negb (exists_ w (root a)) || negb (is_dir w (root a)))%bool
  then (SystemExit ("Folder not found: " ++ path_str (root a)), (w, zero))
  else
    match loop a walk (w, zero) with
    | (Ok _, (w', cnt)) =>
        (Returned (if Nat.eqb (errors cnt) 0 then 0 else 2),
         (World (w_fs w') (w_clock w') (w_stdout w' ++ summary cnt), cnt))
    | (Raise e, s') => (Uncaught e, s')
    end.
Proof.
  unfold main. cbv zeta. destruct (_ || _)%bool; [reflexivity|].
  destruct (loop _ _ _) as [[[]|e] [w' cnt]]; [|reflexivity].
  now rewrite (print_lines_ascii _ _ (thumb_summary_ascii cnt)).
Qed.

Lemma thumb_iteration_eq (a : args) (src : path) (s : world * counters) :
  iteration a src s =
  if eligible (fst s) src then
    match thumb_path_of src with
    | Ok dst => try_except (try_body a src dst) (handler src) s
    | Raise e => (Raise e, s)
    end
  else (Ok tt, s).
Proof.
  unfold iteration, eligible, name_passes, is_image, mbind, M_bind, mret, M_ret,
    ask, lift_w, liftR.
  destruct s as [w c].
  lazy beta iota zeta delta [fst snd].
  destruct (is_file w src); [|reflexivity].
  destruct (str_in (lower (path_suffix src)) IMAGE_EXTS); [|reflexivity].
  destruct (existsb _ src); [reflexivity|].
  lazy beta iota zeta delta [fst snd negb andb].
  now destruct (thumb_path_of src).
Qed.
End thumb_facts.

(* ===================================================================== *)
(** * The loop: what a turn can raise *)
(* ===================================================================== *)

Lemma str_in_nonempty `{Platform} (x : string) (xs : list string) :
  str_in (lower x) xs = true -> str_in "" xs = false -> x <> "".
Proof. intros H1 H2 ->. rewrite lower_empty in H1. congruence. Qed.

Lemma transform_effect_keeps `{Platform} (dst q : path) (r : result unit) (w w' : world) :
  transform_effect dst r w w' -> is_Some (w_fs w !! q) -> is_Some (w_fs w' !! q).
Proof.
  intros [[_ Hadd]|[(w1 & data & Hadd & _ & ->) _]] [n Hn].
  - eapply adds_dirs_is_Some; eauto.
  - simpl. destruct (decide (dst = q)) as [<-|Hne].
    + rewrite lookup_insert_eq. eauto.
    + rewrite lookup_insert_ne by assumption. eapply adds_dirs_is_Some; eauto.
Qed.

Section webp_loop.
Import convert_to_webp.
Context {P : Platform}.

(** A part that matches one of the given names without regard to case
    makes the test of line 110 succeed. *)
Lemma webp_skip_folders_match (names : list string) (src : path) :
  (exists part name, part ∈ src /\ name ∈ names /\ lower part = lower name) ->
  existsb (fun name => is_in_folder_named src name) (map lower names) = true.
Proof.
  intros (part & name & Hpart & Hname & Heq).
  apply existsb_exists. exists (lower name). split.
  - apply in_map. now apply list_elem_of_In.
  - unfold is_in_folder_named. apply existsb_exists. exists part. split.
    + now apply list_elem_of_In.
    + rewrite lower_idemp, Heq. apply String.eqb_refl.
Qed.

Lemma webp_skipped_not_eligible (names : list string) (w : world) (src : path) :
  (exists part name, part ∈ src /\ name ∈ names /\ lower part = lower name) ->
  eligible (map lower names) w src = false.
Proof.
  intros H. apply webp_skip_folders_match in H. unfold eligible, name_passes.
  rewrite H. cbn [negb andb]. apply andb_false_r.
Qed.

(** A path that passes the filter has a destination:
    [src.with_suffix(".webp")] does not raise there. *)
Lemma webp_eligible_with_suffix (sf : list string) (w : world) (src : path) :
  eligible sf w src = true ->
  exists stem, stem <> "" /\
    with_suffix src ".webp" = Ok (path_parent src ++ [(stem ++ ".webp")%string])%list.
Proof.
  unfold eligible, name_passes. intros H.
  apply andb_true_iff in H as [_ H]. apply andb_true_iff in H as [_ H].
  apply with_suffix_webp, path_suffix_name.
  eapply str_in_nonempty; [exact H|reflexivity].
Qed.




Lemma webp_loop_cons (a : args) (sf : list string) (src : path) (rest : list path)
    (s s' : world * counters) :
  iteration a sf src s = (Ok tt, s') ->
  loop a sf (src :: rest) s = loop a sf rest s'.
Proof. intros H. cbn [loop]. rewrite M_bind_eq. now rewrite H. Qed.

(** Paths on which a turn of the loop does nothing can be left out
    of the walk. *)
Lemma webp_loop_filter (a : args) (sf : list string) (keep : path -> bool)
    (walk : list path) :
  (forall p s, keep p = false -> iteration a sf p s = (Ok tt, s)) ->
  forall s, loop a sf walk s = loop a sf (List.filter keep walk) s.
Proof.
  intros Hskip. induction walk as [|src rest IH]; intros s; [reflexivity|].
  cbn [List.filter]. destruct (keep src) eqn:E.
  - cbn [loop]. rewrite !M_bind_eq.
    destruct (iteration a sf src s) as [[[]|e] s1]; [apply IH|reflexivity].
  - rewrite (webp_loop_cons _ _ _ _ _ _ (Hskip _ s E)). apply IH.
Qed.

Lemma webp_loop_step (a : args) (sf : list string) (src : path) (rest : list path)
    (s : world * counters) :
  loop a sf (src :: rest) s =
  match iteration a sf src s with
  | (Ok _, s1) => loop a sf rest s1
  | (Raise e, s1) => (Raise e, s1)
  end.
Proof. reflexivity. Qed.


End webp_loop.

Section thumb_loop.
Import make_thumbnails.
Context {P : Platform}.

(** A path that passes the filter has a thumbnail path: it is
    [parent/thumbnails/stem.webp]. *)
Lemma thumb_name_passes_thumb_path (src : path) :
  name_passes src = true ->
  exists stem, stem <> "" /\
    thumb_path_of src =
    Ok (path_parent src ++ [THUMB_DIR_NAME; (stem ++ ".webp")%string])%list.
Proof.
  unfold name_passes. intros H.
  apply andb_true_iff in H as [H _].
  assert (path_name src <> "") as Hname.
  { apply path_suffix_name. eapply str_in_nonempty; [exact H|reflexivity]. }
  unfold thumb_path_of, path_join at 1 2. simpl String.eqb.
  apply eqb_false_neq in Hname as Hn. rewrite Hn.
  destruct (with_suffix_webp ((path_parent src ++ [THUMB_DIR_NAME]) ++ [path_name src]))
    as (stem & Hs & Heq).
  { now rewrite path_name_snoc. }
  exists stem. split; [assumption|]. rewrite Heq. f_equal.
  unfold path_parent. rewrite removelast_last. now rewrite <- app_assoc.
Qed.

Lemma thumb_eligible_thumb_path (w : world) (src : path) :
  eligible w src = true ->
  exists stem, stem <> "" /\
    thumb_path_of src =
    Ok (path_parent src ++ [THUMB_DIR_NAME; (stem ++ ".webp")%string])%list.
Proof.
  unfold eligible. intros [_ H]%andb_true_iff.
  now apply thumb_name_passes_thumb_path.
Qed.




Lemma thumb_loop_cons (a : args) (src : path) (rest : list path)
    (s s' : world * counters) :
  iteration a src s = (Ok tt, s') ->
  loop a (src :: rest) s = loop a rest s'.
Proof. intros H. cbn [loop]. rewrite M_bind_eq. now rewrite H. Qed.

Lemma thumb_loop_filter (a : args) (keep : path -> bool) (walk : list path) :
  (forall p s, keep p = false -> iteration a p s = (Ok tt, s)) ->
  forall s, loop a walk s = loop a (List.filter keep walk) s.
Proof.
  intros Hskip. induction walk as [|src rest IH]; intros s; [reflexivity|].
  cbn [List.filter]. destruct (keep src) eqn:E.
  - cbn [loop]. rewrite !M_bind_eq.
    destruct (iteration a src s) as [[[]|e] s1]; [apply IH|reflexivity].
  - rewrite (thumb_loop_cons _ _ _ _ _ (Hskip _ s E)). apply IH.
Qed.

Lemma thumb_loop_step (a : args) (src : path) (rest : list path)
    (s : world * counters) :
  loop a (src :: rest) s =
  match iteration a src s with
  | (Ok _, s1) => loop a rest s1
  | (Raise e, s1) => (Raise e, s1)
  end.
Proof. reflexivity. Qed.


End thumb_loop.

(* ===================================================================== *)
(** * An error-free run leaves every work item settled *)
(* ===================================================================== *)

Section staleness_invariant_facts.
Context {P : Platform} {L : PlatformLaws P}.
Variable name_ok : path -> bool.
Variable dst_of : path -> result path.
Hypothesis dst_not_source :
  forall p q, name_ok p = true -> dst_of p = Ok q -> name_ok q = false.

Local Abbreviation is_source := (source_in name_ok).
Local Abbreviation inv := (run_inv name_ok dst_of).

Lemma source_in_file (w : world) (p : path) :
  is_source w p = true ->
  name_ok p = true /\ exists m d, w_fs w !! p = Some (NFile m d).
Proof.
  unfold source_in. intros [Hf Hn]%andb_true_iff.
  split; [assumption|]. now apply is_file_some.
Qed.

Lemma source_in_intro (w : world) (p : path) (m : Z) (d : list Byte.byte) :
  name_ok p = true -> w_fs w !! p = Some (NFile m d) -> is_source w p = true.
Proof.
  intros Hn Hp. unfold source_in, is_file. now rewrite Hp, Hn.
Qed.

Lemma run_inv_start (w0 : world) :
  no_future_sources is_source w0 -> inv w0 w0 [].
Proof.
  intros Hnf. split.
  - reflexivity.
  - intros p n Hs Hp. eapply Hnf; eauto.
  - auto.
  - intros p Hin. now apply not_elem_of_nil in Hin.
Qed.

(** A path that is not a work item is settled for free. *)
Lemma run_inv_noop (w0 w : world) (done : list path) (src : path) :
  inv w0 w done -> is_source w src = false -> inv w0 w (src :: done).
Proof.
  intros [H1 H2 H3 H4] Hno. split; auto.
  intros p [->|Hin]%elem_of_cons; [|auto].
  intros Habs. congruence.
Qed.

(** A work item found up to date is settled. *)
Lemma run_inv_skip (w0 w : world) (done : list path) (src dst : path) :
  inv w0 w done -> dst_of src = Ok dst -> up_to_date w src dst = true ->
  inv w0 w (src :: done).
Proof.
  intros [H1 H2 H3 H4] Hdst Hup. split; auto.
  intros p [->|Hin]%elem_of_cons; [|auto].
  intros _. eauto.
Qed.

(** Creating and stamping directories keeps the invariant: a directory
    that serves as a destination gets the clock as its time, and no
    work item is younger than the clock. *)
Lemma run_inv_adds_dirs (w0 w w' : world) (done : list path) :
  inv w0 w done -> adds_dirs w w' -> inv w0 w' done.
Proof.
  intros [H1 H2 H3 H4] Hadd.
  assert (forall p, is_source w' p = true ->
                    is_source w p = true /\ w_fs w' !! p = w_fs w !! p) as Hback.
  { intros p Hp. destruct (source_in_file _ _ Hp) as (Hpok & m & d & Hpl).
    pose proof (adds_dirs_file _ _ _ _ _ Hadd Hpl) as Hpw.
    split; [eapply source_in_intro; eauto|congruence]. }
  pose proof Hadd as (Hc & _ & Hq).
  split.
  - intros p Hp. destruct (Hback p Hp) as (Hpw & ->). now apply H1.
  - intros p n Hp Hn. destruct (Hback p Hp) as (Hpw & Heq).
    rewrite Heq in Hn. rewrite Hc. now apply (H2 p n).
  - intros p Hd. apply H3 in Hd. eapply adds_dirs_is_dir; eauto.
  - intros p Hin Hp. destruct (Hback p Hp) as (Hpw & Heq).
    destruct (source_in_file _ _ Hpw) as (_ & m & d & Hpl).
    assert (m <= w_clock w) as Hm by (apply (H2 p _ Hpw Hpl)).
    destruct (H4 p Hin Hpw) as (dp & Hdp & Hup).
    exists dp. split; [assumption|].
    unfold up_to_date in *. rewrite Heq, Hpl in *.
    destruct (w_fs w !! dp) as [nd|] eqn:Hnd; [|discriminate].
    destruct (Hq dp) as [E|(_ & st & E & Hst)].
    + now rewrite E, Hnd.
    + rewrite E. cbn. apply Z.leb_le. lia.
Qed.

(** Writing the destination of a work item settles it and keeps the
    others settled: the new file is stamped with the clock, and no
    work item is younger than the clock. *)
Lemma run_inv_insert (w0 w : world) (done : list path) (src dst : path)
    (data : list Byte.byte) :
  inv w0 w done -> is_source w src = true -> dst_of src = Ok dst ->
  is_dir w dst = false ->
  let w1 := World (<[dst := NFile (w_clock w) data]> (w_fs w))
                  (clock_tick (w_clock w)) (w_stdout w) in
  inv w0 w1 (src :: done) /\ is_source w1 src = true.
Proof.
  intros [H1 H2 H3 H4] Hsrc Hdst Hnd w1.
  destruct (source_in_file _ _ Hsrc) as (Hok & ms & ds & Hs).
  pose proof (dst_not_source _ _ Hok Hdst) as Hdok.
  (* a work item of the new world is the same file in the old one *)
  assert (forall p, is_source w1 p = true ->
                    p <> dst /\ is_source w p = true /\
                    w_fs w1 !! p = w_fs w !! p) as Hback.
  { intros p Hp. destruct (source_in_file _ _ Hp) as (Hpok & m & d & Hpl).
    assert (p <> dst) as Hne by congruence.
    subst w1. cbn [w_fs] in *. rewrite lookup_insert_ne in Hpl by congruence.
    split; [assumption|]. split; [eapply source_in_intro; eauto|].
    now rewrite lookup_insert_ne by congruence. }
  assert (src <> dst) as Hsd by congruence.
  split; [split|].
  - intros p Hp. destruct (Hback p Hp) as (_ & Hpw & ->). now apply H1.
  - intros p n Hp Hn. destruct (Hback p Hp) as (_ & Hpw & Heq).
    rewrite Heq in Hn. subst w1. cbn [w_clock].
    pose proof (H2 p n Hpw Hn). pose proof (clock_tick_mono (w_clock w)). lia.
  - intros p Hd. apply H3 in Hd. unfold is_dir in *. subst w1. cbn [w_fs].
    destruct (w_fs w !! p) as [n|] eqn:Hp; [|discriminate].
    assert (p <> dst) as Hne.
    { intros ->. rewrite Hp in Hnd. congruence. }
    rewrite lookup_insert_ne by congruence. now rewrite Hp.
  - intros p Hin Hp. destruct (Hback p Hp) as (Hne & Hpw & Heq).
    destruct (source_in_file _ _ Hpw) as (_ & m & d & Hpl).
    assert (m <= w_clock w) as Hm by (apply (H2 p _ Hpw Hpl)).
    assert (exists dp, dst_of p = Ok dp /\
              (dp = dst \/ up_to_date w p dp = true)) as (dp & Hdp & Hcase).
    { apply elem_of_cons in Hin as [->|Hin].
      - exists dst. auto.
      - destruct (H4 p Hin Hpw) as (dp & Hdp & Hup). eauto. }
    exists dp. split; [assumption|].
    unfold up_to_date. rewrite Heq, Hpl. subst w1. cbn [w_fs].
    destruct (decide (dp = dst)) as [->|Hne'].
    + rewrite lookup_insert_eq. cbn. now apply Z.leb_le.
    + destruct Hcase as [?|Hup]; [congruence|].
      rewrite lookup_insert_ne by congruence.
      unfold up_to_date in Hup. now rewrite Hpl in Hup.
  - eapply source_in_intro; [exact Hok|]. subst w1. cbn [w_fs].
    rewrite lookup_insert_ne by congruence. exact Hs.
Qed.

Lemma run_inv_wrote (w0 w w1 : world) (done : list path) (src dst : path) :
  inv w0 w done -> is_source w src = true -> dst_of src = Ok dst ->
  wrote dst w w1 ->
  inv w0 w1 (src :: done) /\ is_source w1 src = true.
Proof.
  intros Hinv Hsrc Hdst (wm & data & Hadd & Hnd & ->).
  pose proof (run_inv_adds_dirs _ _ _ _ Hinv Hadd) as Hinvm.
  assert (is_source wm src = true) as Hsrcm.
  { unfold source_in in *. now rewrite (adds_dirs_is_file _ _ _ Hadd). }
  destruct Hadd as (Hc & Ho & _). rewrite <- Hc, <- Ho.
  now apply run_inv_insert.
Qed.

(** Deleting a work item keeps the others settled: no destination is
    a work item. *)
Lemma run_inv_unlink (w0 w w' : world) (done : list path) (src : path) :
  inv w0 w done -> is_source w src = true ->
  unlink src w = (Ok tt, w') ->
  inv w0 w' done /\ is_source w' src = false.
Proof.
  intros [H1 H2 H3 H4] Hsrc Hun.
  destruct (source_in_file _ _ Hsrc) as (Hok & ms & ds & Hs).
  unfold unlink in Hun. rewrite Hs in Hun.
  destruct (unlink_error src); [discriminate|]. injection Hun as <-.
  set (wd := set_fs (delete src (w_fs w)) w).
  assert (adds_dirs wd (set_fs (touch_dir (path_parent src) (w_clock w)
                                  (delete src (w_fs w))) w)) as Hadd
    by apply (adds_dirs_touch wd).
  assert (forall p, is_source wd p = true ->
                    p <> src /\ is_source w p = true /\
                    w_fs wd !! p = w_fs w !! p) as Hback.
  { intros p Hp. destruct (source_in_file _ _ Hp) as (Hpok & m & d & Hpl).
    subst wd. cbn [w_fs set_fs] in *.
    assert (p <> src) as Hne.
    { intros ->. rewrite lookup_delete_eq in Hpl. discriminate. }
    rewrite lookup_delete_ne in Hpl by congruence.
    split; [assumption|]. split; [eapply source_in_intro; eauto|].
    now rewrite lookup_delete_ne by congruence. }
  assert (inv w0 wd done) as Hinvd.
  { split.
    - intros p Hp. destruct (Hback p Hp) as (_ & Hpw & ->). now apply H1.
    - intros p n Hp Hn. destruct (Hback p Hp) as (_ & Hpw & Heq).
      rewrite Heq in Hn. subst wd. cbn [w_clock set_fs]. now apply (H2 p n).
    - intros p Hd. apply H3 in Hd. unfold is_dir in *. subst wd. cbn [w_fs set_fs].
      assert (p <> src) as Hne.
      { intros ->. rewrite Hs in Hd. discriminate. }
      now rewrite lookup_delete_ne by congruence.
    - intros p Hin Hp. destruct (Hback p Hp) as (Hne & Hpw & Heq).
      destruct (H4 p Hin Hpw) as (dp & Hdp & Hup).
      exists dp. split; [assumption|].
      destruct (source_in_file _ _ Hpw) as (Hpok & _).
      pose proof (dst_not_source _ _ Hpok Hdp) as Hdok.
      assert (dp <> src) as Hne' by congruence.
      unfold up_to_date in *. rewrite Heq. subst wd. cbn [w_fs set_fs].
      now rewrite lookup_delete_ne by congruence. }
  split.
  - eapply run_inv_adds_dirs; eauto.
  - unfold source_in. rewrite (adds_dirs_is_file _ _ _ Hadd).
    unfold is_file. subst wd. cbn [w_fs set_fs].
    now rewrite lookup_delete_eq.
Qed.

End staleness_invariant_facts.

Lemma up_to_date_same_fs (w w' : world) (src dst : path) :
  w_fs w' = w_fs w -> up_to_date w' src dst = up_to_date w src dst.
Proof. unfold up_to_date. now intros ->. Qed.

Lemma is_file_same_fs (w w' : world) (p : path) :
  w_fs w' = w_fs w -> is_file w' p = is_file w p.
Proof. unfold is_file. now intros ->. Qed.

Lemma is_dir_same_fs (w w' : world) (p : path) :
  w_fs w' = w_fs w -> is_dir w' p = is_dir w p.
Proof. unfold is_dir. now intros ->. Qed.

Lemma is_dir_exists (w : world) (p : path) : is_dir w p = true -> exists_ w p = true.
Proof. unfold is_dir, exists_. now destruct (w_fs w !! p). Qed.

Section webp_idempotence.
Import convert_to_webp.
Context {P : Platform} {L : PlatformLaws P}.
Variable a : args.
Variable sf : list string.
Hypothesis no_overwrite : overwrite a = false.

Local Abbreviation dst_of := (fun p : path => with_suffix p ".webp").
Local Abbreviation inv := (run_inv (name_passes sf) dst_of).

(** The destination of a work item is a [.webp] file, hence not a work
    item. *)
Lemma webp_dst_not_source (p q : path) :
  name_passes sf p = true -> with_suffix p ".webp" = Ok q -> name_passes sf q = false.
Proof.
  intros _ Hq. apply with_suffix_webp_suffix in Hq.
  unfold name_passes. rewrite Hq, lower_webp. cbn. now rewrite andb_false_r.
Qed.

(** The [try] body does not touch the error counter; the handler adds
    one to it. *)
Lemma webp_try_body_errors (src dst : path) (w w1 : world) (c c1 : counters)
    (r : result unit) :
  try_body a src dst (w, c) = (r, (w1, c1)) -> errors c1 = errors c.
Proof.
  rewrite webp_try_body_eq. intros Hbody.
  repeat match type of Hbody with
         | match ?x with _ => _ end = _ => destruct x
         | (if ?x then _ else _) = _ => destruct x
         end; injection Hbody as <- <- <-; reflexivity.
Qed.

Lemma webp_iteration_errors (src : path) (w w' : world) (c c' : counters)
    (r : result unit) :
  iteration a sf src (w, c) = (r, (w', c')) -> (errors c <= errors c')%nat.
Proof.
  rewrite webp_iteration_eq. cbn [fst].
  destruct (eligible sf w src); [|intros H; injection H as <- <- <-; lia].
  destruct (with_suffix src ".webp") as [dst|e];
    [|intros H; injection H as <- <- <-; lia].
  rewrite webp_try_except_eq.
  destruct (try_body a src dst (w, c)) as [[[]|e] [w1 c1]] eqn:Hbody;
    apply webp_try_body_errors in Hbody; [|destruct (printable _)];
    intros H; injection H as <- <- <-; cbn; lia.
Qed.

Lemma webp_loop_errors (walk : list path) (w w' : world) (c c' : counters)
    (r : result unit) :
  loop a sf walk (w, c) = (r, (w', c')) -> (errors c <= errors c')%nat.
Proof.
  revert w c. induction walk as [|src rest IH]; intros w c Hloop.
  - injection Hloop as <- <- <-. lia.
  - rewrite webp_loop_step in Hloop.
    destruct (iteration a sf src (w, c)) as [[[]|e] [w1 c1]] eqn:H1;
      pose proof (webp_iteration_errors _ _ _ _ _ _ H1).
    + specialize (IH _ _ Hloop). lia.
    + injection Hloop as <- <- <-. lia.
Qed.

(** One turn of the loop that counts no error keeps the invariant and
    settles its path. *)
Lemma webp_iteration_inv (w0 : world) (done : list path) (src : path)
    (w w' : world) (c c' : counters) :
  inv w0 w done ->
  iteration a sf src (w, c) = (Ok tt, (w', c')) ->
  errors c' = errors c ->
  inv w0 w' (src :: done).
Proof.
  intros Hinv. rewrite webp_iteration_eq. cbn [fst].
  destruct (eligible sf w src) eqn:Hel.
  2:{ intros H; injection H as <- <-. intros _.
      eapply run_inv_noop; eauto. }
  destruct (webp_eligible_with_suffix _ _ _ Hel) as (stem & _ & Hdst).
  rewrite Hdst. set (dst := (path_parent src ++ [(stem ++ ".webp")%string])%list) in *.
  assert (is_Some (w_fs w !! src)) as Hsome.
  { apply andb_true_iff in Hel as [Hf _].
    apply is_file_some in Hf as (m & d & Hf). eauto. }
  rewrite webp_try_except_eq, webp_try_body_eq, webp_skip_check_eq by assumption.
  rewrite no_overwrite. cbn [negb andb].
  destruct (up_to_date w src dst) eqn:Hup.
  { intros H; injection H as <- <-. intros _.
    eapply run_inv_skip; eauto. }
  destruct (convert_one src dst (quality a) (keep_metadata a) w) as [[[]|e] w2] eqn:Hconv.
  2:{ destruct (printable _); [|discriminate].
      intros H; injection H as <- <-. cbn. lia. }
  apply convert_one_spec in Hconv as [[[e He] _]|[Hwrote _]]; [discriminate|].
  destruct (run_inv_wrote (name_passes sf) dst_of webp_dst_not_source
              w0 w w2 done src dst Hinv Hel Hdst Hwrote) as [Hinv2 Hsrc2].
  destruct (delete_originals a).
  2:{ intros H; injection H as <- <-. intros _. exact Hinv2. }
  rewrite webp_dst_nonempty_eq.
  destruct (match w_fs w2 !! dst with Some _ => _ | None => _ end).
  2:{ intros H; injection H as <- <-. intros _. exact Hinv2. }
  destruct (unlink src w2) as [[[]|e] w4] eqn:Hun.
  2:{ destruct (printable _); [|discriminate].
      intros H; injection H as <- <-. cbn. lia. }
  intros H; injection H as <- <-. intros _.
  now destruct (run_inv_unlink (name_passes sf) dst_of webp_dst_not_source
                  w0 w2 w4 (src :: done) src Hinv2 Hsrc2 Hun).
Qed.

(** An error-free loop settles every path of its walk. *)
Lemma webp_loop_inv (w0 : world) (walk : list path) :
  forall (done : list path) (w w' : world) (c c' : counters),
    inv w0 w done ->
    loop a sf walk (w, c) = (Ok tt, (w', c')) ->
    errors c' = errors c ->
    inv w0 w' (rev walk ++ done).
Proof.
  induction walk as [|src rest IH]; intros done w w' c c' Hinv Hloop Herr.
  - injection Hloop as <- <-. exact Hinv.
  - rewrite webp_loop_step in Hloop.
    destruct (iteration a sf src (w, c)) as [[[]|e] [w1 c1]] eqn:H1; [|discriminate].
    pose proof (webp_iteration_errors _ _ _ _ _ _ H1) as Hle1.
    pose proof (webp_loop_errors _ _ _ _ _ _ Hloop) as Hle2.
    assert (errors c1 = errors c) as He1 by lia.
    pose proof (webp_iteration_inv _ _ _ _ _ _ _ Hinv H1 He1) as Hinv1.
    cbn [rev]. rewrite <- app_assoc. cbn [app].
    apply (IH _ _ _ _ _ Hinv1 Hloop). lia.
Qed.

(** A turn of the loop on a settled path: it is skipped if it is a work
    item, and nothing else changes. *)
Lemma webp_iteration_settled (src : path) (w : world) (c : counters) :
  settled (name_passes sf) dst_of w src ->
  iteration a sf src (w, c)
  = (Ok tt, (w, if eligible sf w src then incr_skipped c else c)).
Proof.
  intros Hset. rewrite webp_iteration_eq. cbn [fst].
  destruct (eligible sf w src) eqn:Hel; [|reflexivity].
  destruct (Hset Hel) as (dst & Hdst & Hup). rewrite Hdst.
  assert (is_Some (w_fs w !! src)) as Hsome.
  { apply andb_true_iff in Hel as [Hf _].
    apply is_file_some in Hf as (m & d & Hf). eauto. }
  rewrite webp_try_except_eq, webp_try_body_eq, webp_skip_check_eq by assumption.
  now rewrite no_overwrite, Hup.
Qed.

Lemma webp_loop_settled (walk : list path) (w : world) :
  (forall p, p ∈ walk -> settled (name_passes sf) dst_of w p) ->
  forall c,
    loop a sf walk (w, c)
    = (Ok tt, (w, Counters (converted c)
                    (skipped c + length (List.filter (eligible sf w) walk))
                    (errors c) (deleted c))).
Proof.
  induction walk as [|src rest IH]; intros Hall c.
  - cbn. rewrite Nat.add_0_r. now destruct c.
  - rewrite (webp_loop_cons _ _ _ _ _ _
               (webp_iteration_settled src w c (Hall src (list_elem_of_here _ _)))).
    rewrite IH by (intros p Hp; apply Hall; now apply list_elem_of_further).
    cbn [List.filter]. destruct (eligible sf w src); cbn; repeat f_equal; lia.
Qed.
End webp_idempotence.

Section thumb_idempotence.
Import make_thumbnails.
Context {P : Platform} {L : PlatformLaws P}.
Variable a : args.
Hypothesis no_overwrite : overwrite a = false.

Local Abbreviation inv := (run_inv name_passes thumb_path_of).

(** The thumbnail of a work item lies in a [thumbnails] folder, hence
    is not a work item. *)
Lemma thumb_dst_not_source (p q : path) :
  name_passes p = true -> thumb_path_of p = Ok q -> name_passes q = false.
Proof.
  intros Hp Hq.
  destruct (thumb_name_passes_thumb_path p Hp) as (stem & _ & Heq).
  rewrite Heq in Hq. injection Hq as <-.
  unfold name_passes.
  replace (existsb (String.eqb THUMB_DIR_NAME)
             (path_parent p ++ [THUMB_DIR_NAME; (stem ++ ".webp")%string]))
    with true; [cbn; apply andb_false_r|].
  symmetry. apply existsb_exists. exists THUMB_DIR_NAME. split.
  - apply in_or_app. right. now left.
  - apply String.eqb_refl.
Qed.

Lemma thumb_try_body_errors (src dst : path) (w w1 : world) (c c1 : counters)
    (r : result unit) :
  try_body a src dst (w, c) = (r, (w1, c1)) -> errors c1 = errors c.
Proof.
  rewrite thumb_try_body_eq. intros Hbody.
  repeat match type of Hbody with
         | match ?x with _ => _ end = _ => destruct x
         | (if ?x then _ else _) = _ => destruct x
         end; injection Hbody as <- <- <-; reflexivity.
Qed.

Lemma thumb_iteration_errors (src : path) (w w' : world) (c c' : counters)
    (r : result unit) :
  iteration a src (w, c) = (r, (w', c')) -> (errors c <= errors c')%nat.
Proof.
  rewrite thumb_iteration_eq. cbn [fst].
  destruct (eligible w src); [|intros H; injection H as <- <- <-; lia].
  destruct (thumb_path_of src) as [dst|e];
    [|intros H; injection H as <- <- <-; lia].
  rewrite thumb_try_except_eq.
  destruct (try_body a src dst (w, c)) as [[[]|e] [w1 c1]] eqn:Hbody;
    apply thumb_try_body_errors in Hbody; [|destruct (printable _)];
    intros H; injection H as <- <- <-; cbn; lia.
Qed.

Lemma thumb_loop_errors (walk : list path) (w w' : world) (c c' : counters)
    (r : result unit) :
  loop a walk (w, c) = (r, (w', c')) -> (errors c <= errors c')%nat.
Proof.
  revert w c. induction walk as [|src rest IH]; intros w c Hloop.
  - injection Hloop as <- <- <-. lia.
  - rewrite thumb_loop_step in Hloop.
    destruct (iteration a src (w, c)) as [[[]|e] [w1 c1]] eqn:H1;
      pose proof (thumb_iteration_errors _ _ _ _ _ _ H1).
    + specialize (IH _ _ Hloop). lia.
    + injection Hloop as <- <- <-. lia.
Qed.

Lemma thumb_iteration_inv (w0 : world) (done : list path) (src : path)
    (w w' : world) (c c' : counters) :
  inv w0 w done ->
  iteration a src (w, c) = (Ok tt, (w', c')) ->
  errors c' = errors c ->
  inv w0 w' (src :: done).
Proof.
  intros Hinv. rewrite thumb_iteration_eq. cbn [fst].
  destruct (eligible w src) eqn:Hel.
  2:{ intros H; injection H as <- <-. intros _.
      eapply run_inv_noop; eauto. }
  destruct (thumb_eligible_thumb_path _ _ Hel) as (stem & _ & Hdst).
  rewrite Hdst.
  set (dst := (path_parent src ++ [THUMB_DIR_NAME; (stem ++ ".webp")%string])%list) in *.
  assert (is_Some (w_fs w !! src)) as Hsome.
  { apply andb_true_iff in Hel as [Hf _].
    apply is_file_some in Hf as (m & d & Hf). eauto. }
  rewrite thumb_try_except_eq, thumb_try_body_eq, thumb_skip_check_eq by assumption.
  rewrite no_overwrite. cbn [negb andb].
  destruct (up_to_date w src dst) eqn:Hup.
  { intros H; injection H as <- <-. intros _.
    eapply run_inv_skip; eauto. }
  destruct (make_thumbnail src dst (max a) (quality a) (method a) (keep_metadata a) w)
    as [[[]|e] w2] eqn:Hconv.
  2:{ destruct (printable _); [|discriminate].
      intros H; injection H as <- <-. cbn. lia. }
  apply make_thumbnail_spec in Hconv as [[[e He] _]|[Hwrote _]]; [discriminate|].
  destruct (run_inv_wrote name_passes thumb_path_of thumb_dst_not_source
              w0 w w2 done src dst Hinv Hel Hdst Hwrote) as [Hinv2 Hsrc2].
  intros H; injection H as <- <-. intros _. exact Hinv2.
Qed.

Lemma thumb_loop_inv (w0 : world) (walk : list path) :
  forall (done : list path) (w w' : world) (c c' : counters),
    inv w0 w done ->
    loop a walk (w, c) = (Ok tt, (w', c')) ->
    errors c' = errors c ->
    inv w0 w' (rev walk ++ done).
Proof.
  induction walk as [|src rest IH]; intros done w w' c c' Hinv Hloop Herr.
  - injection Hloop as <- <-. exact Hinv.
  - rewrite thumb_loop_step in Hloop.
    destruct (iteration a src (w, c)) as [[[]|e] [w1 c1]] eqn:H1; [|discriminate].
    pose proof (thumb_iteration_errors _ _ _ _ _ _ H1) as Hle1.
    pose proof (thumb_loop_errors _ _ _ _ _ _ Hloop) as Hle2.
    assert (errors c1 = errors c) as He1 by lia.
    pose proof (thumb_iteration_inv _ _ _ _ _ _ _ Hinv H1 He1) as Hinv1.
    cbn [rev]. rewrite <- app_assoc. cbn [app].
    apply (IH _ _ _ _ _ Hinv1 Hloop). lia.
Qed.

Lemma thumb_iteration_settled (src : path) (w : world) (c : counters) :
  settled name_passes thumb_path_of w src ->
  iteration a src (w, c)
  = (Ok tt, (w, if eligible w src then incr_skipped c else c)).
Proof.
  intros Hset. rewrite thumb_iteration_eq. cbn [fst].
  destruct (eligible w src) eqn:Hel; [|reflexivity].
  destruct (Hset Hel) as (dst & Hdst & Hup). rewrite Hdst.
  assert (is_Some (w_fs w !! src)) as Hsome.
  { apply andb_true_iff in Hel as [Hf _].
    apply is_file_some in Hf as (m & d & Hf). eauto. }
  rewrite thumb_try_except_eq, thumb_try_body_eq, thumb_skip_check_eq by assumption.
  now rewrite no_overwrite, Hup.
Qed.

Lemma thumb_loop_settled (walk : list path) (w : world) :
  (forall p, p ∈ walk -> settled name_passes thumb_path_of w p) ->
  forall c,
    loop a walk (w, c)
    = (Ok tt, (w, Counters (created c)
                    (skipped c + length (List.filter (eligible w) walk))
                    (errors c))).
Proof.
  induction walk as [|src rest IH]; intros Hall c.
  - cbn. rewrite Nat.add_0_r. now destruct c.
  - rewrite (thumb_loop_cons _ _ _ _ _
               (thumb_iteration_settled src w c (Hall src (list_elem_of_here _ _)))).
    rewrite IH by (intros p Hp; apply Hall; now apply list_elem_of_further).
    cbn [List.filter]. destruct (eligible w src); cbn; repeat f_equal; lia.
Qed.
End thumb_idempotence.

(** ** The second of two runs *)

Lemma webp_second_run `{P : Platform} (L : PlatformLaws P)
    (c : convert_to_webp.cli) (walk1 walk2 : list path)
    (w0 w1 w1' : world) (cnt1 : convert_to_webp.counters) :
  let a := convert_to_webp.parse_args c in
  let sf := map lower (convert_to_webp.skip_folder a) in
  convert_to_webp.cli_overwrite c = false ->
  no_future_sources (convert_to_webp.eligible sf) w0 ->
  walk_reaches w0 (convert_to_webp.root a) walk1 ->
  convert_to_webp.main c walk1 w0 = (Returned 0, (w1, cnt1)) ->
  w_fs w1' = w_fs w1 ->
  rglob_yields w1' (convert_to_webp.root a) walk2 ->
  exists w2 cnt2,
    convert_to_webp.main c walk2 w1' = (Returned 0, (w2, cnt2)) /\
    convert_to_webp.converted cnt2 = 0%nat /\
    convert_to_webp.skipped cnt2
    = length (List.filter (convert_to_webp.eligible sf w1') walk2) /\
    convert_to_webp.deleted cnt2 = 0%nat /\
    convert_to_webp.errors cnt2 = 0%nat /\
    w_fs w2 = w_fs w1'.
Proof.
  intros a sf Hov Hnf Hreach Hmain Hfs [_ Hwalk2].
  assert (convert_to_webp.overwrite a = false) as Hova by exact Hov.
  rewrite webp_main_eq in Hmain. cbv zeta in Hmain. fold a in Hmain. fold sf in Hmain.
  destruct (negb (exists_ w0 (convert_to_webp.root a))
            || negb (is_dir w0 (convert_to_webp.root a)))%bool eqn:Hroot;
    [discriminate|].
  apply orb_false_iff in Hroot as [_ Hdir%negb_false_iff].
  destruct (convert_to_webp.loop a sf walk1 (w0, convert_to_webp.zero))
    as [[[]|e] [wl cl]] eqn:Hloop; [|discriminate].
  destruct (Nat.eqb (convert_to_webp.errors cl) 0) eqn:Herr; [|discriminate].
  apply Nat.eqb_eq in Herr. injection Hmain as <- <-.
  cbn [w_fs] in Hfs.
  pose proof (webp_loop_inv a sf Hova w0 walk1 [] w0 wl _ _
                (run_inv_start _ _ w0 Hnf) Hloop Herr) as [Hsrc _ Hdirs Hdone].
  (* every path of the second walk is settled in the tree of the second run *)
  assert (forall p, p ∈ walk2 ->
            settled (convert_to_webp.name_passes sf)
              (fun p => with_suffix p ".webp") w1' p) as Hset.
  { intros p Hp Hel. apply Hwalk2 in Hp as [_ Hbelow].
    assert (source_in (convert_to_webp.name_passes sf) wl p = true) as Hel'.
    { unfold source_in in *. now rewrite <- (is_file_same_fs _ _ p Hfs). }
    assert (p ∈ (rev walk1 ++ [])%list) as Hin.
    { rewrite app_nil_r. apply list_elem_of_In, in_rev. rewrite rev_involutive.
      apply list_elem_of_In. apply Hreach; [|assumption].
      rewrite <- (Hsrc p Hel').
      unfold source_in in Hel'. apply andb_true_iff in Hel' as [Hf _].
      apply is_file_some in Hf as (m & d & Hf). eauto. }
    destruct (Hdone p Hin Hel') as (dst & Hdst & Hup).
    exists dst. split; [assumption|]. now rewrite (up_to_date_same_fs _ _ _ _ Hfs). }
  assert (is_dir w1' (convert_to_webp.root a) = true) as Hdir'.
  { rewrite (is_dir_same_fs _ _ _ Hfs). now apply Hdirs. }
  rewrite webp_main_eq. cbv zeta. fold a. fold sf.
  rewrite Hdir', (is_dir_exists _ _ Hdir'). cbn [negb orb].
  rewrite (webp_loop_settled a sf Hova walk2 w1' Hset). cbn.
  eexists _, _. repeat split.
Qed.

Lemma thumb_second_run `{P : Platform} (L : PlatformLaws P)
    (c : make_thumbnails.cli) (walk1 walk2 : list path)
    (w0 w1 w1' : world) (cnt1 : make_thumbnails.counters) :
  let a := make_thumbnails.parse_args c in
  make_thumbnails.cli_overwrite c = false ->
  no_future_sources make_thumbnails.eligible w0 ->
  walk_reaches w0 (make_thumbnails.root a) walk1 ->
  make_thumbnails.main c walk1 w0 = (Returned 0, (w1, cnt1)) ->
  w_fs w1' = w_fs w1 ->
  rglob_yields w1' (make_thumbnails.root a) walk2 ->
  exists w2 cnt2,
    make_thumbnails.main c walk2 w1' = (Returned 0, (w2, cnt2)) /\
    make_thumbnails.created cnt2 = 0%nat /\
    make_thumbnails.skipped cnt2
    = length (List.filter (make_thumbnails.eligible w1') walk2) /\
    make_thumbnails.errors cnt2 = 0%nat /\
    w_fs w2 = w_fs w1'.
Proof.
  intros a Hov Hnf Hreach Hmain Hfs [_ Hwalk2].
  assert (make_thumbnails.overwrite a = false) as Hova by exact Hov.
  rewrite thumb_main_eq in Hmain. cbv zeta in Hmain. fold a in Hmain.
  destruct (negb (exists_ w0 (make_thumbnails.root a))
            || negb (is_dir w0 (make_thumbnails.root a)))%bool eqn:Hroot;
    [discriminate|].
  apply orb_false_iff in Hroot as [_ Hdir%negb_false_iff].
  destruct (make_thumbnails.loop a walk1 (w0, make_thumbnails.zero))
    as [[[]|e] [wl cl]] eqn:Hloop; [|discriminate].
  destruct (Nat.eqb (make_thumbnails.errors cl) 0) eqn:Herr; [|discriminate].
  apply Nat.eqb_eq in Herr. injection Hmain as <- <-.
  cbn [w_fs] in Hfs.
  pose proof (thumb_loop_inv a Hova w0 walk1 [] w0 wl _ _
                (run_inv_start _ _ w0 Hnf) Hloop Herr) as [Hsrc _ Hdirs Hdone].
  assert (forall p, p ∈ walk2 ->
            settled make_thumbnails.name_passes make_thumbnails.thumb_path_of w1' p)
    as Hset.
  { intros p Hp Hel. apply Hwalk2 in Hp as [_ Hbelow].
    assert (source_in make_thumbnails.name_passes wl p = true) as Hel'.
    { unfold source_in in *. now rewrite <- (is_file_same_fs _ _ p Hfs). }
    assert (p ∈ (rev walk1 ++ [])%list) as Hin.
    { rewrite app_nil_r. apply list_elem_of_In, in_rev. rewrite rev_involutive.
      apply list_elem_of_In. apply Hreach; [|assumption].
      rewrite <- (Hsrc p Hel').
      unfold source_in in Hel'. apply andb_true_iff in Hel' as [Hf _].
      apply is_file_some in Hf as (m & d & Hf). eauto. }
    destruct (Hdone p Hin Hel') as (dst & Hdst & Hup).
    exists dst. split; [assumption|]. now rewrite (up_to_date_same_fs _ _ _ _ Hfs). }
  assert (is_dir w1' (make_thumbnails.root a) = true) as Hdir'.
  { rewrite (is_dir_same_fs _ _ _ Hfs). now apply Hdirs. }
  rewrite thumb_main_eq. cbv zeta. fold a.
  rewrite Hdir', (is_dir_exists _ _ Hdir'). cbn [negb orb].
  rewrite (thumb_loop_settled a Hova walk2 w1' Hset). cbn.
  eexists _, _. repeat split.
Qed.

(* ===================================================================== *)
(** * More about names and destinations *)
(* ===================================================================== *)

Lemma append_empty_r (s : string) : (s ++ "")%string = s.
Proof. induction s as [|c s IH]; [reflexivity|]. rewrite append_cons. now rewrite IH. Qed.

Lemma str_take_drop (i : nat) (s : string) : (str_take i s ++ str_drop i s)%string = s.
Proof.
  revert s. induction i as [|i IH]; intros s; [reflexivity|].
  destruct s as [|c t]; [reflexivity|]. simpl str_take. simpl str_drop.
  rewrite append_cons. now rewrite IH.
Qed.

Lemma str_take_all (s : string) : str_take (String.length s) s = s.
Proof. induction s as [|c t IH]; [reflexivity|]. simpl. now rewrite IH. Qed.

Lemma str_take_app_length (a b : string) : str_take (String.length a) (a ++ b) = a.
Proof.
  induction a as [|c a IH]; [reflexivity|]. rewrite append_cons. simpl. now rewrite IH.
Qed.

Lemma string_length_app (a b : string) :
  String.length (a ++ b) = (String.length a + String.length b)%nat.
Proof.
  induction a as [|c a IH]; [reflexivity|]. rewrite append_cons. simpl. now rewrite IH.
Qed.

(** A name is its stem followed by its suffix. *)
Lemma name_stem_suffix (name : string) :
  (name_stem name ++ name_suffix name)%string = name.
Proof.
  unfold name_stem, name_suffix.
  destruct ((0 <? rfind_dot name) && (rfind_dot name <? str_len name - 1))%bool eqn:E.
  - apply andb_true_iff in E as [E1 E2].
    apply Z.ltb_lt in E1. apply Z.ltb_lt in E2. unfold str_len in E2.
    rewrite str_drop_length.
    replace (String.length name - (String.length name - Z.to_nat (rfind_dot name)))%nat
      with (Z.to_nat (rfind_dot name)) by lia.
    apply str_take_drop.
  - simpl String.length. rewrite Nat.sub_0_r, str_take_all. apply append_empty_r.
Qed.

Lemma name_stem_nonempty (name : string) : name <> "" -> name_stem name <> "".
Proof.
  intros Hne. unfold name_stem.
  destruct (String.eqb (name_suffix name) "") eqn:E.
  - apply String.eqb_eq in E. rewrite E. simpl String.length.
    rewrite Nat.sub_0_r, str_take_all. exact Hne.
  - apply eqb_false_neq in E. apply name_suffix_nonempty in E as [_ E].
    now apply str_take_nonempty.
Qed.

Lemma name_stem_webp (stem : string) :
  stem <> "" -> name_stem (stem ++ ".webp") = stem.
Proof.
  intros Hne. unfold name_stem. rewrite (name_suffix_webp stem Hne).
  rewrite string_length_app. simpl String.length.
  replace (String.length stem + 5 - 5)%nat with (String.length stem) by lia.
  apply str_take_app_length.
Qed.

(** [with_suffix(".webp")] replaces the suffix of the name and nothing
    else. *)
Lemma with_suffix_stem (p : path) :
  path_name p <> "" ->
  with_suffix p ".webp"
  = Ok (path_parent p ++ [(name_stem (path_name p) ++ ".webp")%string])%list.
Proof.
  intros Hname. unfold with_suffix.
  apply eqb_false_neq in Hname as Hn. rewrite Hn.
  assert ((if String.eqb (name_suffix (path_name p)) ""
           then (path_name p ++ ".webp")%string
           else (str_take (String.length (path_name p)
                           - String.length (name_suffix (path_name p)))
                   (path_name p) ++ ".webp")%string)
          = (name_stem (path_name p) ++ ".webp")%string) as ->.
  { unfold name_stem. destruct (String.eqb (name_suffix (path_name p)) "") eqn:E;
      [|reflexivity].
    apply String.eqb_eq in E. rewrite E. simpl String.length.
    now rewrite Nat.sub_0_r, str_take_all. }
  unfold path_join.
  assert ((name_stem (path_name p) ++ ".webp")%string <> "") as Hne
    by (apply append_nonempty_r; congruence).
  apply eqb_false_neq in Hne. now rewrite Hne.
Qed.

Lemma path_parent_snoc (p : path) (name : string) : path_parent (p ++ [name]) = p.
Proof. unfold path_parent. apply removelast_last. Qed.

(** A path with a name is its parent followed by its name. *)
Lemma path_parent_name (p : path) : p <> [] -> (path_parent p ++ [path_name p])%list = p.
Proof.
  intros Hne. unfold path_parent, path_name. symmetry. now apply app_removelast_last.
Qed.

(** ** What a transform leaves alone *)

Section transform_frame.
Context {P : Platform}.

(** Apart from the destination, a transform keeps every regular file
    that was there, content and time stamp. *)
Lemma transform_effect_frame (dst p : path) (r : result unit) (w w' : world)
    (m : Z) (d : list Byte.byte) :
  transform_effect dst r w w' -> p <> dst ->
  w_fs w !! p = Some (NFile m d) -> w_fs w' !! p = Some (NFile m d).
Proof.
  intros [[_ Hadd]|[(w1 & data & Hadd & _ & ->) _]] Hne Hp.
  - eapply adds_dirs_file_keeps; eauto.
  - cbn [w_fs]. rewrite lookup_insert_ne by congruence.
    eapply adds_dirs_file_keeps; eauto.
Qed.

(** Apart from the destination, a regular file found after a transform
    was there before. *)
Lemma transform_effect_files (dst p : path) (r : result unit) (w w' : world)
    (m : Z) (d : list Byte.byte) :
  transform_effect dst r w w' -> p <> dst ->
  w_fs w' !! p = Some (NFile m d) -> w_fs w !! p = Some (NFile m d).
Proof.
  intros [[_ Hadd]|[(w1 & data & Hadd & _ & ->) _]] Hne Hp.
  - eapply adds_dirs_file; eauto.
  - cbn [w_fs] in Hp. rewrite lookup_insert_ne in Hp by congruence.
    eapply adds_dirs_file; eauto.
Qed.

(** A directory is still a directory after a transform. *)
Lemma transform_effect_dirs (dst p : path) (r : result unit) (w w' : world) :
  transform_effect dst r w w' -> is_dir w p = true -> is_dir w' p = true.
Proof.
  intros [[_ Hadd]|[(w1 & data & Hadd & Hnd & ->) _]] Hp.
  - eapply adds_dirs_is_dir; eauto.
  - pose proof (adds_dirs_is_dir _ _ _ Hadd Hp) as Hp1.
    assert (p <> dst) as Hne by congruence.
    unfold is_dir in *. cbn [w_fs]. now rewrite lookup_insert_ne by congruence.
Qed.

End transform_frame.

(** ** The footprint of a run *)

Section thumb_footprint.
Import make_thumbnails.
Context {P : Platform}.

Lemma thumbnails_footprint_refl (w : world) : thumbnails_footprint w w.
Proof. repeat split; auto. Qed.

Lemma thumbnails_footprint_same_fs (w w' : world) :
  w_fs w' = w_fs w -> thumbnails_footprint w w'.
Proof.
  intros E. unfold thumbnails_footprint, is_dir. rewrite E. repeat split; auto.
Qed.

Lemma thumbnails_footprint_trans (w1 w2 w3 : world) :
  thumbnails_footprint w1 w2 -> thumbnails_footprint w2 w3 ->
  thumbnails_footprint w1 w3.
Proof.
  intros (A1 & D1 & B1 & C1) (A2 & D2 & B2 & C2). repeat split.
  - intros p m d Hp H1. eauto.
  - intros p H1. eauto.
  - intros p H1. eauto.
  - intros p m d H3. destruct (C2 p m d H3) as [H2|H2]; [|now right]. eauto.
Qed.

(** The thumbnail of a path that passes the name test lies in a
    [thumbnails] folder and ends in [.webp]. *)
Lemma thumb_path_facts (src : path) :
  name_passes src = true ->
  exists dst, thumb_path_of src = Ok dst /\
              existsb (String.eqb THUMB_DIR_NAME) dst = true /\
              path_suffix dst = ".webp".
Proof.
  intros Hn. destruct (thumb_name_passes_thumb_path src Hn) as (stem & Hs & Heq).
  eexists. split; [exact Heq|]. split.
  - apply existsb_exists. exists THUMB_DIR_NAME. split.
    + apply in_or_app. right. now left.
    + apply String.eqb_refl.
  - change [THUMB_DIR_NAME; (stem ++ ".webp")%string]
      with ([THUMB_DIR_NAME] ++ [(stem ++ ".webp")%string])%list.
    rewrite app_assoc. unfold path_suffix. rewrite path_name_snoc.
    now apply name_suffix_webp.
Qed.

Lemma thumb_skip_check_world (a : args) (w w' : world) (src dst : path)
    (r : result bool) :
  skip_check a src dst w = (r, w') -> w' = w.
Proof.
  unfold skip_check. destruct (negb (overwrite a)).
  - unfold is_up_to_date. intros H. now apply readR_inv in H.
  - intros H. now injection H.
Qed.

(** The tree after a [try ... except] statement is the tree before it,
    or the tree a call of the transform left. *)
Lemma thumb_try_except_fs (a : args) (src dst : path) (w w' : world)
    (c c' : counters) (r : result unit) :
  try_except (try_body a src dst) (handler src) (w, c) = (r, (w', c')) ->
  w_fs w' = w_fs w \/
  exists r2 w2, transform_effect dst r2 w w2 /\ w_fs w' = w_fs w2.
Proof.
  rewrite thumb_try_except_eq, thumb_try_body_eq.
  destruct (skip_check a src dst w) as [[[|]|e0] w0] eqn:Hskip;
    pose proof (thumb_skip_check_world _ _ _ _ _ _ Hskip) as ->.
  - intros H; injection H as <- <- <-. now left.
  - destruct (make_thumbnail src dst (max a) (quality a) (method a)
                (keep_metadata a) w) as [[[]|e] w2] eqn:Ht;
      apply make_thumbnail_spec in Ht; [|destruct (printable _)];
      intros H; injection H as <- <- <-; right; eauto.
  - destruct (printable _); intros H; injection H as <- <- <-; now left.
Qed.

Lemma thumb_transform_footprint (dst : path) (r : result unit) (w w2 : world) :
  existsb (String.eqb THUMB_DIR_NAME) dst = true -> path_suffix dst = ".webp" ->
  transform_effect dst r w w2 -> thumbnails_footprint w w2.
Proof.
  intros Hin Hsuf Heff. repeat split.
  - intros p m d Hp H1. eapply transform_effect_frame; eauto. congruence.
  - intros p. eapply transform_effect_dirs; eauto.
  - intros p. eapply transform_effect_keeps; eauto.
  - intros p m d H2. destruct (decide (p = dst)) as [->|Hne]; [now right|].
    left. eapply transform_effect_files; eauto.
Qed.

Lemma thumb_iteration_footprint (a : args) (src : path) (w w' : world)
    (c c' : counters) (r : result unit) :
  iteration a src (w, c) = (r, (w', c')) -> thumbnails_footprint w w'.
Proof.
  rewrite thumb_iteration_eq. cbn [fst].
  destruct (eligible w src) eqn:Hel.
  2:{ intros H; injection H as <- <- <-. apply thumbnails_footprint_refl. }
  assert (name_passes src = true) as Hn.
  { unfold eligible in Hel. now apply andb_true_iff in Hel as [_ ?]. }
  destruct (thumb_path_facts src Hn) as (dst & -> & Hin & Hsuf).
  intros H. apply thumb_try_except_fs in H as [E|(r2 & w2 & Heff & E)].
  - now apply thumbnails_footprint_same_fs.
  - eapply thumbnails_footprint_trans.
    + eapply thumb_transform_footprint; eauto.
    + now apply thumbnails_footprint_same_fs.
Qed.

End thumb_footprint.

Section webp_footprint_facts.
Import convert_to_webp.
Context {P : Platform}.
Variable a : args.
Variable sf : list string.

Lemma webp_step_refl (gone : path -> Prop) (w : world) : webp_step gone w w.
Proof. repeat split; auto. Qed.

Lemma webp_step_mono (g1 g2 : path -> Prop) (w w' : world) :
  (forall p, g1 p -> g2 p) -> webp_step g1 w w' -> webp_step g2 w w'.
Proof.
  intros Hg (A & D & B & C). repeat split; auto.
  - intros p m d Hp H1. destruct (A p m d Hp H1); auto.
  - intros p H1. destruct (B p H1); auto.
Qed.

Lemma webp_step_trans (gone : path -> Prop) (w1 w2 w3 : world) :
  webp_step gone w1 w2 -> webp_step gone w2 w3 -> webp_step gone w1 w3.
Proof.
  intros (A1 & D1 & B1 & C1) (A2 & D2 & B2 & C2). repeat split.
  - intros p m d Hp H1. destruct (A1 p m d Hp H1) as [H2|H2]; [|now right]. eauto.
  - intros p H1. eauto.
  - intros p H1. destruct (B1 p H1) as [H2|H2]; [|now right]. eauto.
  - intros p m d H3. destruct (C2 p m d H3) as [H2|H2]; [|now right]. eauto.
Qed.

(** Only the tree matters. *)
Lemma webp_step_fs_eq (gone : path -> Prop) (w w' w'' : world) :
  webp_step gone w w' -> w_fs w'' = w_fs w' -> webp_step gone w w''.
Proof. unfold webp_step, is_dir. now intros H ->. Qed.

Lemma webp_step_transform (gone : path -> Prop) (dst : path) (r : result unit)
    (w w' : world) :
  path_suffix dst = ".webp" -> transform_effect dst r w w' -> webp_step gone w w'.
Proof.
  intros Hsuf Heff. repeat split.
  - intros p m d Hp H1. left. eapply transform_effect_frame; eauto. congruence.
  - intros p. eapply transform_effect_dirs; eauto.
  - intros p Hp. left. eapply transform_effect_keeps; eauto.
  - intros p m d H2. destruct (decide (p = dst)) as [->|Hne]; [now right|].
    left. eapply transform_effect_files; eauto.
Qed.

(** What [unlink] does, when it returns: the file is gone, its
    directory is stamped, and nothing else has changed. *)
Lemma unlink_ok (src : path) (w w' : world) :
  unlink src w = (Ok tt, w') ->
  is_file w src = true /\ unlink_error src = None /\
  w_fs w' !! src = None /\
  adds_dirs (set_fs (delete src (w_fs w)) w) w'.
Proof.
  unfold unlink, is_file.
  destruct (w_fs w !! src) as [[st|m d]|] eqn:Hs; try discriminate.
  destruct (unlink_error src) as [e|]; [discriminate|].
  intros H; injection H as <-.
  pose proof (adds_dirs_touch (set_fs (delete src (w_fs w)) w) (path_parent src))
    as Hadd.
  split; [reflexivity|]. split; [reflexivity|]. split; [|exact Hadd].
  cbn [w_fs set_fs].
  destruct (touch_dir_lookup (path_parent src) src (w_clock w) (delete src (w_fs w)))
    as [E|(st & E & _)].
  - rewrite E. apply lookup_delete_eq.
  - rewrite lookup_delete_eq in E. discriminate.
Qed.

Lemma unlink_raise (src : path) (w w' : world) (e : string) :
  unlink src w = (Raise e, w') -> w' = w.
Proof.
  unfold unlink.
  destruct (w_fs w !! src) as [[st|m d]|]; [| destruct (unlink_error src) |];
    intros H; now injection H.
Qed.

Lemma webp_step_unlink (gone : path -> Prop) (src : path) (r : result unit)
    (w w' : world) :
  unlink src w = (r, w') -> gone src -> webp_step gone w w'.
Proof.
  destruct r as [[]|e]; intros Hun Hg.
  2:{ apply unlink_raise in Hun as ->. apply webp_step_refl. }
  apply unlink_ok in Hun as (Hf & _ & _ & Hadd). repeat split.
  - intros p m d _ Hp. destruct (decide (p = src)) as [->|Hne]; [now right|].
    left. apply (adds_dirs_file_keeps _ _ _ _ _ Hadd). cbn [w_fs set_fs].
    now rewrite lookup_delete_ne by congruence.
  - intros p Hp. apply (adds_dirs_is_dir _ _ _ Hadd).
    assert (p <> src) as Hne.
    { intros ->. unfold is_dir, is_file in *.
      destruct (w_fs w !! src) as [[?|? ?]|]; discriminate. }
    unfold is_dir in *. cbn [w_fs set_fs]. now rewrite lookup_delete_ne by congruence.
  - intros p Hp. destruct (decide (p = src)) as [->|Hne]; [now right|].
    left. apply (adds_dirs_is_Some _ _ _ Hadd). cbn [w_fs set_fs].
    now rewrite lookup_delete_ne by congruence.
  - intros p m d Hp. left. apply (adds_dirs_file _ _ _ _ _ Hadd) in Hp.
    cbn [w_fs set_fs] in Hp.
    destruct (decide (p = src)) as [->|Hne].
    + now rewrite lookup_delete_eq in Hp.
    + now rewrite lookup_delete_ne in Hp by congruence.
Qed.

(** The tree after a [try ... except] statement: [convert_one] may have
    written the destination, and with [--delete-originals] the source
    may be gone. *)
Lemma webp_try_except_step (src dst : path) (w w' : world)
    (c c' : counters) (r : result unit) :
  path_suffix dst = ".webp" ->
  try_except (try_body a src dst) (handler src) (w, c) = (r, (w', c')) ->
  webp_step (fun p => p = src /\ delete_originals a = true) w w'.
Proof.
  intros Hsuf. rewrite webp_try_except_eq, webp_try_body_eq.
  destruct (skip_check a src dst w) as [[[|]|e0] w0] eqn:Hskip;
    pose proof (webp_skip_check_world _ _ _ _ _ _ Hskip) as ->.
  - intros H; injection H as <- <- <-. apply webp_step_refl.
  - destruct (convert_one src dst (quality a) (keep_metadata a) w)
      as [[[]|e] w2] eqn:Ht; apply convert_one_spec in Ht;
      pose proof (webp_step_transform (fun p => p = src /\ delete_originals a = true)
                    _ _ _ _ Hsuf Ht) as Hstep.
    2:{ destruct (printable _); intros H; injection H as <- <- <-;
          eapply webp_step_fs_eq; eauto. }
    destruct (delete_originals a) eqn:Hdel.
    2:{ intros H; injection H as <- <- <-. exact Hstep. }
    rewrite webp_dst_nonempty_eq.
    destruct (match w_fs w2 !! dst with Some _ => _ | None => _ end).
    2:{ intros H; injection H as <- <- <-. exact Hstep. }
    destruct (unlink src w2) as [[[]|e] w4] eqn:Hun;
      pose proof (webp_step_unlink (fun p => p = src /\ true = true) _ _ _ _ Hun
                    (conj eq_refl eq_refl)) as Hstep2;
      pose proof (webp_step_trans _ _ _ _ Hstep Hstep2) as Hstep3.
    + intros H; injection H as <- <- <-. exact Hstep3.
    + destruct (printable _); intros H; injection H as <- <- <-;
        eapply webp_step_fs_eq; eauto.
  - destruct (printable _); intros H; injection H as <- <- <-;
      eapply webp_step_fs_eq; try apply webp_step_refl; reflexivity.
Qed.

(** One turn of the loop: nothing but its own path can go. *)
Lemma webp_iteration_step (src : path) (w w' : world)
    (c c' : counters) (r : result unit) :
  iteration a sf src (w, c) = (r, (w', c')) ->
  webp_step (fun p => p = src /\ delete_originals a = true /\
                      eligible sf w src = true) w w'.
Proof.
  rewrite webp_iteration_eq. cbn [fst].
  destruct (eligible sf w src) eqn:Hel.
  2:{ intros H; injection H as <- <- <-. apply webp_step_refl. }
  destruct (webp_eligible_with_suffix _ _ _ Hel) as (stem & Hs & Hdst).
  pose proof (with_suffix_webp_suffix _ _ Hdst) as Hsuf.
  rewrite Hdst. intros H. apply (webp_try_except_step _ _ _ _ _ _ _ Hsuf) in H.
  eapply webp_step_mono; [|exact H]. intros p [-> Hd]. auto.
Qed.


Lemma webp_name_passes_suffix (p : path) :
  name_passes sf p = true -> path_suffix p <> ".webp".
Proof.
  unfold name_passes. intros H Heq. rewrite Heq, lower_webp in H. cbn in H.
  now rewrite andb_false_r in H.
Qed.


End webp_footprint_facts.

(** ** The delete step *)

Section webp_delete.
Import convert_to_webp.
Context {P : Platform}.

(** The destination of a work item is another path. *)
Lemma webp_dst_differs (sf : list string) (src dst : path) (w : world) :
  eligible sf w src = true -> with_suffix src ".webp" = Ok dst -> src <> dst.
Proof.
  intros Hel Hdst <-. apply with_suffix_webp_suffix in Hdst.
  unfold eligible, name_passes in Hel. rewrite Hdst, lower_webp in Hel.
  cbn in Hel. now rewrite !andb_false_r in Hel.
Qed.

(** A work item is still the same regular file after [convert_one]
    returned. *)
Lemma webp_source_survives (sf : list string) (src dst : path) (r : result unit)
    (w w2 : world) :
  eligible sf w src = true -> with_suffix src ".webp" = Ok dst ->
  transform_effect dst r w w2 ->
  exists m d, w_fs w !! src = Some (NFile m d) /\ w_fs w2 !! src = Some (NFile m d).
Proof.
  intros Hel Hdst Heff.
  pose proof (webp_dst_differs _ _ _ _ Hel Hdst) as Hne.
  apply andb_true_iff in Hel as [Hf _].
  apply is_file_some in Hf as (m & d & Hs).
  exists m, d. split; [assumption|].
  eapply transform_effect_frame; eauto.
Qed.
End webp_delete.

(** ** The steps of the two transforms *)

Section transform_steps.
Context {P : Platform}.

Lemma Image_save_ok (im : image) (dst : path) (kw : save_kwargs) (w w' : world) :
  Image_save im dst kw w = (Ok tt, w') ->
  exists out,
    pil_encode_webp im kw = Ok out /\
    w_fs w' !! dst = Some (NFile (w_clock w) out) /\
    is_dir w' (path_parent dst) = true /\
    w_clock w' = clock_tick (w_clock w) /\
    w_stdout w' = w_stdout w.
Proof.
  unfold Image_save.
  destruct (w_fs w !! dst) as [[st|m d]|] eqn:E; [discriminate| |];
    (destruct (is_dir w (path_parent dst)) eqn:Hd; cbn [negb]; [|discriminate]);
    (assert (path_parent dst <> dst) as Hne
       by (intros Heq; rewrite Heq in Hd; unfold is_dir in Hd; rewrite E in Hd;
           discriminate));
    cbv zeta; destruct (pil_encode_webp im kw) as [out|e]; try discriminate;
    intros H; injection H as <-; exists out; cbn [w_fs w_clock w_stdout];
    (split; [reflexivity|]); (split; [apply lookup_insert_eq|]);
    (split; [|split; reflexivity]);
    unfold is_dir in *; cbn [w_fs]; rewrite lookup_insert_ne by congruence.
  - exact Hd.
  - destruct (touch_dir_lookup (path_parent dst) (path_parent dst) (w_clock w) (w_fs w))
      as [E1|(st & _ & E1)]; now rewrite E1.
Qed.

(** The common tail, when it returns. *)
Lemma mkdir_save_ok (im : image) (dst : path) (kw : save_kwargs) (w w' : world) :
  (mkdir_parents (path_parent dst) ≫= fun _ => Image_save im dst kw) w = (Ok tt, w') ->
  exists out,
    pil_encode_webp im kw = Ok out /\
    w_fs w' !! dst = Some (NFile (w_clock w) out) /\
    is_dir w' (path_parent dst) = true /\
    w_clock w' = clock_tick (w_clock w) /\
    w_stdout w' = w_stdout w.
Proof.
  intros H. apply W_bind_inv in H as [(u & w1 & Hm & Hs)|(e & _ & He)];
    [|discriminate].
  apply mkdir_parents_spec in Hm as [(Hc & Ho & _) _].
  apply Image_save_ok in Hs as (out & Henc & Hd & Hp & Hc2 & Ho2).
  exists out. rewrite <- Hc, <- Ho. auto.
Qed.

(** The common tail never raises without the image steps done: the
    world it is given is the one the transform started in. *)
Lemma convert_one_steps (src dst : path) (q : Z) (k : bool) (w w' : world)
    (r : result unit) :
  convert_to_webp.convert_one src dst q k w = (r, w') ->
  ((exists e, r = Raise e) /\ w' = w) \/
  exists m data im0 im1 im2,
    w_fs w !! src = Some (NFile m data) /\
    pil_decode data = Ok im0 /\
    pil_exif_transpose im0 = Ok im1 /\
    convert_to_webp.normalize_mode im1 = Ok im2 /\
    (mkdir_parents (path_parent dst)
       ≫= fun _ => Image_save im2 dst (convert_to_webp.make_save_kwargs im2 q k)) w
    = (r, w').
Proof.
  unfold convert_to_webp.convert_one, Image_open. intros H.
  apply W_bind_inv in H as [(im0 & w1 & H1 & H)|(e & H1 & ->)];
    apply readR_inv in H1 as [H1 ->]; [|left; eauto].
  apply W_bind_inv in H as [(im1 & w2 & H2 & H)|(e & H2 & ->)];
    apply liftR_inv in H2 as [H2 ->]; [|left; eauto].
  apply W_bind_inv in H as [(im2 & w3 & H3 & H)|(e & H3 & ->)];
    apply liftR_inv in H3 as [H3 ->]; [|left; eauto].
  right. destruct (w_fs w !! src) as [[st|m data]|] eqn:Hs; try discriminate.
  exists m, data, im0, im1, im2. auto.
Qed.

Lemma make_thumbnail_steps (src dst : path) (mx : Z * Z) (q : Z) (meth : string)
    (k : bool) (w w' : world) (r : result unit) :
  make_thumbnails.make_thumbnail src dst mx q meth k w = (r, w') ->
  ((exists e, r = Raise e) /\ w' = w) \/
  exists m data im0 im1 im2 im3,
    w_fs w !! src = Some (NFile m data) /\
    pil_decode data = Ok im0 /\
    pil_exif_transpose im0 = Ok im1 /\
    make_thumbnails.normalize_mode im1 = Ok im2 /\
    make_thumbnails.resize im2 mx meth = Ok im3 /\
    (mkdir_parents (path_parent dst)
       ≫= fun _ => Image_save im3 dst (make_thumbnails.make_save_kwargs im3 q k)) w
    = (r, w').
Proof.
  unfold make_thumbnails.make_thumbnail, Image_open. intros H.
  apply W_bind_inv in H as [(im0 & w1 & H1 & H)|(e & H1 & ->)];
    apply readR_inv in H1 as [H1 ->]; [|left; eauto].
  apply W_bind_inv in H as [(im1 & w2 & H2 & H)|(e & H2 & ->)];
    apply liftR_inv in H2 as [H2 ->]; [|left; eauto].
  apply W_bind_inv in H as [(im2 & w3 & H3 & H)|(e & H3 & ->)];
    apply liftR_inv in H3 as [H3 ->]; [|left; eauto].
  apply W_bind_inv in H as [(im3 & w4 & H4 & H)|(e & H4 & ->)];
    apply liftR_inv in H4 as [H4 ->]; [|left; eauto].
  right. destruct (w_fs w !! src) as [[st|m data]|] eqn:Hs; try discriminate.
  exists m, data, im0, im1, im2, im3. auto 10.
Qed.
End transform_steps.

(** ** Every work item is counted once *)

Lemma transform_effect_is_file `{Platform} (dst p : path) (r : result unit) (w w2 : world) :
  transform_effect dst r w w2 -> p <> dst -> is_file w2 p = is_file w p.
Proof.
  intros Heff Hne. unfold is_file at 2.
  destruct (w_fs w !! p) as [[st|m d]|] eqn:Hp.
  - assert (is_dir w p = true) as Hd by (unfold is_dir; now rewrite Hp).
    apply (transform_effect_dirs _ _ _ _ _ Heff) in Hd.
    unfold is_dir, is_file in *. now destruct (w_fs w2 !! p) as [[?|? ?]|].
  - unfold is_file. now rewrite (transform_effect_frame _ _ _ _ _ _ _ Heff Hne Hp).
  - unfold is_file. destruct (w_fs w2 !! p) as [[st|m d]|] eqn:Hp2; try reflexivity.
    pose proof (transform_effect_files _ _ _ _ _ _ _ Heff Hne Hp2). congruence.
Qed.

Section thumb_count.
Import make_thumbnails.
Context {P : Platform}.
Variable a : args.

Lemma thumb_iteration_count (src : path) (w w' : world) (c c' : counters) :
  iteration a src (w, c) = (Ok tt, (w', c')) ->
  thumb_total c' = (thumb_total c + (if eligible w src then 1 else 0))%nat.
Proof.
  rewrite thumb_iteration_eq. cbn [fst].
  destruct (eligible w src) eqn:Hel.
  2:{ intros H; injection H as <- <-. lia. }
  destruct (thumb_eligible_thumb_path _ _ Hel) as (stem & _ & ->).
  rewrite thumb_try_except_eq, thumb_try_body_eq.
  destruct (skip_check a src _ w) as [[[|]|e0] w0].
  - intros H; injection H as <- <-. unfold thumb_total. cbn. lia.
  - destruct (make_thumbnail src _ (max a) (quality a) (method a) (keep_metadata a) w0)
      as [[[]|e] w2]; [|destruct (printable _); [|discriminate]];
      intros H; injection H as <- <-; unfold thumb_total; cbn; lia.
  - destruct (printable _); [|discriminate].
    intros H; injection H as <- <-. unfold thumb_total. cbn. lia.
Qed.

Lemma thumb_eligible_stable (w w' : world) (p : path) :
  thumbnails_footprint w w' -> eligible w' p = eligible w p.
Proof.
  intros (A & D & _ & C). unfold eligible.
  destruct (name_passes p) eqn:Hn; [|now rewrite !andb_false_r].
  rewrite !andb_true_r.
  assert (existsb (String.eqb THUMB_DIR_NAME) p = false) as Hout.
  { unfold name_passes in Hn. apply andb_true_iff in Hn as [_ Hn].
    now apply negb_true_iff in Hn. }
  unfold is_file at 2. destruct (w_fs w !! p) as [[st|m d]|] eqn:Hp.
  - assert (is_dir w p = true) as Hd by (unfold is_dir; now rewrite Hp).
    apply D in Hd. unfold is_dir, is_file in *.
    now destruct (w_fs w' !! p) as [[?|? ?]|].
  - unfold is_file. now rewrite (A p m d Hout Hp).
  - unfold is_file. destruct (w_fs w' !! p) as [[st|m d]|] eqn:Hp'; try reflexivity.
    destruct (C p m d Hp') as [?|[? _]]; congruence.
Qed.

Lemma thumb_loop_count (walk : list path) :
  forall (w w' : world) (c c' : counters),
    loop a walk (w, c) = (Ok tt, (w', c')) ->
    thumb_total c' = (thumb_total c + length (List.filter (eligible w) walk))%nat.
Proof.
  induction walk as [|src rest IH]; intros w w' c c' Hloop.
  - injection Hloop as <- <-. cbn. lia.
  - rewrite thumb_loop_step in Hloop.
    destruct (iteration a src (w, c)) as [[[]|e] [w1 c1]] eqn:H1; [|discriminate].
    rewrite (IH _ _ _ _ Hloop), (thumb_iteration_count _ _ _ _ _ H1).
    pose proof (thumb_iteration_footprint _ _ _ _ _ _ _ H1) as Hfoot.
    rewrite (filter_ext (eligible w1) (eligible w))
      by (intros p; now apply thumb_eligible_stable).
    cbn [List.filter]. destruct (eligible w src); cbn [length]; lia.
Qed.
End thumb_count.

Section webp_count.
Import convert_to_webp.
Context {P : Platform}.
Variable a : args.
Variable sf : list string.

(** One turn on a work item counts it as skipped, as converted or as an
    error; it counts it twice, as converted and as an error, when the
    conversion succeeds and the operating system refuses to remove the
    original.  A deletion is counted only after a conversion. *)
Lemma webp_iteration_count (src : path) (w w' : world) (c c' : counters) :
  iteration a sf src (w, c) = (Ok tt, (w', c')) ->
  let k := if eligible sf w src then 1%nat else 0%nat in
  (webp_total c + k <= webp_total c')%nat /\
  (converted c' + skipped c' <= converted c + skipped c + k)%nat /\
  (delete_originals a = false \/ unlink_error src = None ->
   webp_total c' = (webp_total c + k)%nat) /\
  (deleted c' + converted c <= converted c' + deleted c)%nat /\
  (deleted c <= deleted c')%nat /\
  (delete_originals a = false -> deleted c' = deleted c).
Proof.
  rewrite webp_iteration_eq. cbn [fst].
  destruct (eligible sf w src) eqn:Hel.
  2:{ intros H; injection H as <- <-. cbv zeta. repeat split; lia. }
  destruct (webp_eligible_with_suffix _ _ _ Hel) as (stem & _ & Hdst).
  rewrite Hdst. set (dst := (path_parent src ++ [(stem ++ ".webp")%string])%list) in *.
  rewrite webp_try_except_eq, webp_try_body_eq.
  destruct (skip_check a src dst w) as [[[|]|e0] w0] eqn:Hskip;
    pose proof (webp_skip_check_world _ _ _ _ _ _ Hskip) as ->.
  - intros H; injection H as <- <-. unfold webp_total. cbn. repeat split; lia.
  - destruct (convert_one src dst (quality a) (keep_metadata a) w)
      as [[[]|e] w2] eqn:Hconv.
    2:{ destruct (printable _); [|discriminate].
        intros H; injection H as <- <-. unfold webp_total. cbn. repeat split; lia. }
    apply convert_one_spec in Hconv.
    destruct (webp_source_survives sf src dst _ w w2 Hel Hdst Hconv)
      as (m & d & _ & Hs2).
    destruct (delete_originals a) eqn:Hdel.
    2:{ intros H; injection H as <- <-. unfold webp_total. cbn. repeat split; lia. }
    rewrite webp_dst_nonempty_eq.
    destruct (match w_fs w2 !! dst with Some _ => _ | None => _ end).
    2:{ intros H; injection H as <- <-. unfold webp_total. cbn. repeat split; lia. }
    unfold unlink. rewrite Hs2.
    destruct (unlink_error src) as [e|] eqn:Hue.
    + destruct (printable _); [|discriminate].
      intros H; injection H as <- <-. unfold webp_total. cbn.
      repeat split; try lia. intros [?|?]; discriminate.
    + intros H; injection H as <- <-. unfold webp_total. cbn. repeat split; lia.
  - destruct (printable _); [|discriminate].
    intros H; injection H as <- <-. unfold webp_total. cbn. repeat split; lia.
Qed.

(** A turn of the loop does not change which other paths are work
    items. *)
Lemma webp_eligible_stable (src p : path) (w w' : world) (c c' : counters)
    (r : result unit) :
  iteration a sf src (w, c) = (r, (w', c')) -> p <> src ->
  eligible sf w' p = eligible sf w p.
Proof.
  intros Hit Hps. unfold eligible.
  destruct (name_passes sf p) eqn:Hn; [|now rewrite !andb_false_r].
  rewrite !andb_true_r. apply webp_name_passes_suffix in Hn.
  apply webp_iteration_step in Hit as (A & D & _ & C).
  unfold is_file at 2. destruct (w_fs w !! p) as [[st|m d]|] eqn:Hp.
  - assert (is_dir w p = true) as Hd by (unfold is_dir; now rewrite Hp).
    apply D in Hd. unfold is_dir, is_file in *.
    now destruct (w_fs w' !! p) as [[?|? ?]|].
  - destruct (A p m d Hn Hp) as [E|[? _]]; [|congruence].
    unfold is_file. now rewrite E.
  - unfold is_file. destruct (w_fs w' !! p) as [[st|m d]|] eqn:Hp'; try reflexivity.
    destruct (C p m d Hp') as [?|?]; congruence.
Qed.

Lemma webp_loop_count (walk : list path) :
  NoDup walk ->
  forall (w w' : world) (c c' : counters),
    loop a sf walk (w, c) = (Ok tt, (w', c')) ->
    let n := length (List.filter (eligible sf w) walk) in
    (webp_total c + n <= webp_total c')%nat /\
    (converted c' + skipped c' <= converted c + skipped c + n)%nat /\
    (delete_originals a = false \/ (forall p, p ∈ walk -> unlink_error p = None) ->
     webp_total c' = (webp_total c + n)%nat) /\
    (deleted c' + converted c <= converted c' + deleted c)%nat /\
    (deleted c <= deleted c')%nat /\
    (delete_originals a = false -> deleted c' = deleted c).
Proof.
  induction walk as [|src rest IH]; intros Hnd w w' c c' Hloop.
  - injection Hloop as <- <-. cbn. repeat split; lia.
  - apply NoDup_cons in Hnd as [Hnotin Hnd].
    rewrite webp_loop_step in Hloop.
    destruct (iteration a sf src (w, c)) as [[[]|e] [w1 c1]] eqn:H1; [|discriminate].
    destruct (IH Hnd _ _ _ _ Hloop) as (Hlo & Hhi & Hex & Hd & Hm & Hz).
    destruct (webp_iteration_count _ _ _ _ _ H1) as (Hlo1 & Hhi1 & Hex1 & Hd1 & Hm1 & Hz1).
    assert (List.filter (eligible sf w1) rest = List.filter (eligible sf w) rest) as Hf.
    { clear -H1 Hnotin. induction rest as [|p rest IHr]; [reflexivity|].
      cbn [List.filter].
      rewrite (webp_eligible_stable src p _ _ _ _ _ H1)
        by (intros ->; apply Hnotin, list_elem_of_here).
      rewrite IHr by (intros Hin; apply Hnotin; now apply list_elem_of_further).
      reflexivity. }
    rewrite Hf in Hlo, Hhi, Hex. cbv zeta. cbn [List.filter].
    assert (length (if eligible sf w src
                    then src :: List.filter (eligible sf w) rest
                    else List.filter (eligible sf w) rest)
            = ((if eligible sf w src then 1 else 0)
               + length (List.filter (eligible sf w) rest))%nat) as ->
      by (destruct (eligible sf w src); reflexivity).
    cbv zeta in Hlo1, Hhi1, Hex1.
    repeat split.
    + lia.
    + lia.
    + intros Hcase.
      rewrite Hex, Hex1; [lia| |].
      * destruct Hcase as [?|Hall]; [now left|right].
        apply Hall, list_elem_of_here.
      * destruct Hcase as [?|Hall]; [now left|right].
        intros p Hp. apply Hall. now apply list_elem_of_further.
    + lia.
    + lia.
    + intros Hdel. rewrite (Hz Hdel). now apply Hz1.
Qed.
End webp_count.

(** ** Output, and runs with [--overwrite] *)

Lemma transform_effect_stdout `{Platform} (dst : path) (r : result unit) (w w' : world) :
  transform_effect dst r w w' -> w_stdout w' = w_stdout w.
Proof.
  intros [[_ (_ & Ho & _)]|[(w1 & data & _ & _ & ->) _]]; [assumption|reflexivity].
Qed.

Lemma prefix_append (s t : string) : String.prefix s (s ++ t) = true.
Proof.
  induction s as [|c s IH]; [now destruct t|].
  rewrite append_cons. simpl. now destruct (ascii_dec c c).
Qed.

Section webp_output.
Import convert_to_webp.
Context {P : Platform}.
Variable a : args.
Variable sf : list string.

Lemma webp_try_body_quiet (src dst : path) (w w1 : world) (c c1 : counters)
    (r : result unit) :
  try_body a src dst (w, c) = (r, (w1, c1)) ->
  w_stdout w1 = w_stdout w /\ errors c1 = errors c /\
  (overwrite a = true -> skipped c1 = skipped c).
Proof.
  rewrite webp_try_body_eq.
  destruct (skip_check a src dst w) as [[[|]|e0] w0] eqn:Hskip;
    pose proof (webp_skip_check_world _ _ _ _ _ _ Hskip) as ->.
  - intros H; injection H as <- <- <-. repeat split.
    intros Hov. unfold skip_check in Hskip. rewrite Hov in Hskip. discriminate.
  - destruct (convert_one src dst (quality a) (keep_metadata a) w)
      as [[[]|e] w2] eqn:Hconv;
      apply convert_one_spec, transform_effect_stdout in Hconv.
    2:{ intros H; injection H as <- <- <-. now repeat split. }
    destruct (delete_originals a).
    2:{ intros H; injection H as <- <- <-. now repeat split. }
    rewrite webp_dst_nonempty_eq.
    destruct (match w_fs w2 !! dst with Some _ => _ | None => _ end).
    2:{ intros H; injection H as <- <- <-. now repeat split. }
    destruct (unlink src w2) as [[[]|e] w4] eqn:Hun.
    + apply unlink_ok in Hun as (_ & _ & _ & (_ & Ho & _)).
      intros H; injection H as <- <- <-. cbn [w_stdout set_fs] in Ho.
      repeat split; congruence.
    + apply unlink_raise in Hun as ->.
      intros H; injection H as <- <- <-. now repeat split.
  - intros H; injection H as <- <- <-. now repeat split.
Qed.

Lemma webp_loop_output (walk : list path) :
  forall (w w' : world) (c c' : counters),
    loop a sf walk (w, c) = (Ok tt, (w', c')) ->
    (exists errs,
       w_stdout w' = (w_stdout w ++ errs)%list /\
       errors c' = (errors c + length errs)%nat /\
       Forall is_error_line errs) /\
    (overwrite a = true -> skipped c' = skipped c).
Proof.
  induction walk as [|src rest IH]; intros w w' c c' Hloop.
  - injection Hloop as <- <-. split; [|reflexivity].
    exists []. rewrite app_nil_r. cbn. repeat split; [lia|constructor].
  - rewrite webp_loop_step in Hloop.
    destruct (iteration a sf src (w, c)) as [[[]|e] [w1 c1]] eqn:H1; [|discriminate].
    destruct (IH _ _ _ _ Hloop) as [(errs & Ho & He & Hf) Hs].
    revert H1. rewrite webp_iteration_eq. cbn [fst].
    destruct (eligible sf w src).
    2:{ intros H; injection H as <- <-. split; [eauto|assumption]. }
    destruct (with_suffix src ".webp") as [dst|e]; [|discriminate].
    rewrite webp_try_except_eq.
    destruct (try_body a src dst (w, c)) as [[[]|e] [w2 c2]] eqn:Hb;
      apply webp_try_body_quiet in Hb as (Hq & Hqe & Hqs);
      [|destruct (printable _); [|discriminate]];
      intros H; injection H as <- <-.
    + split.
      * exists errs. rewrite Ho, He, Hq, Hqe. now repeat split.
      * intros Hov. rewrite (Hs Hov). now apply Hqs.
    + split.
      * exists (("[ERROR] " ++ path_str src ++ ": " ++ e)%string :: errs).
        rewrite Ho, He. cbn [w_stdout errors incr_errors length].
        rewrite Hq, Hqe, <- app_assoc. repeat split; [lia|].
        constructor; [apply prefix_append|assumption].
      * intros Hov. rewrite (Hs Hov). cbn. now apply Hqs.
Qed.
End webp_output.

Section thumb_output.
Import make_thumbnails.
Context {P : Platform}.
Variable a : args.

Lemma thumb_try_body_quiet (src dst : path) (w w1 : world) (c c1 : counters)
    (r : result unit) :
  try_body a src dst (w, c) = (r, (w1, c1)) ->
  w_stdout w1 = w_stdout w /\ errors c1 = errors c /\
  (overwrite a = true -> skipped c1 = skipped c).
Proof.
  rewrite thumb_try_body_eq.
  destruct (skip_check a src dst w) as [[[|]|e0] w0] eqn:Hskip;
    pose proof (thumb_skip_check_world _ _ _ _ _ _ Hskip) as ->.
  - intros H; injection H as <- <- <-. repeat split.
    intros Hov. unfold skip_check in Hskip. rewrite Hov in Hskip. discriminate.
  - destruct (make_thumbnail src dst (max a) (quality a) (method a)
                (keep_metadata a) w) as [[[]|e] w2] eqn:Hconv;
      apply make_thumbnail_spec, transform_effect_stdout in Hconv;
      intros H; injection H as <- <- <-; now repeat split.
  - intros H; injection H as <- <- <-. now repeat split.
Qed.

Lemma thumb_loop_output (walk : list path) :
  forall (w w' : world) (c c' : counters),
    loop a walk (w, c) = (Ok tt, (w', c')) ->
    (exists errs,
       w_stdout w' = (w_stdout w ++ errs)%list /\
       errors c' = (errors c + length errs)%nat /\
       Forall is_error_line errs) /\
    (overwrite a = true -> skipped c' = skipped c).
Proof.
  induction walk as [|src rest IH]; intros w w' c c' Hloop.
  - injection Hloop as <- <-. split; [|reflexivity].
    exists []. rewrite app_nil_r. cbn. repeat split; [lia|constructor].
  - rewrite thumb_loop_step in Hloop.
    destruct (iteration a src (w, c)) as [[[]|e] [w1 c1]] eqn:H1; [|discriminate].
    destruct (IH _ _ _ _ Hloop) as [(errs & Ho & He & Hf) Hs].
    revert H1. rewrite thumb_iteration_eq. cbn [fst].
    destruct (eligible w src).
    2:{ intros H; injection H as <- <-. split; [eauto|assumption]. }
    destruct (thumb_path_of src) as [dst|e]; [|discriminate].
    rewrite thumb_try_except_eq.
    destruct (try_body a src dst (w, c)) as [[[]|e] [w2 c2]] eqn:Hb;
      apply thumb_try_body_quiet in Hb as (Hq & Hqe & Hqs);
      [|destruct (printable _); [|discriminate]];
      intros H; injection H as <- <-.
    + split.
      * exists errs. rewrite Ho, He, Hq, Hqe. now repeat split.
      * intros Hov. rewrite (Hs Hov). now apply Hqs.
    + split.
      * exists (("[ERROR] " ++ path_str src ++ ": " ++ e)%string :: errs).
        rewrite Ho, He. cbn [w_stdout errors incr_errors length].
        rewrite Hq, Hqe, <- app_assoc. repeat split; [lia|].
        constructor; [apply prefix_append|assumption].
      * intros Hov. rewrite (Hs Hov). cbn. now apply Hqs.
Qed.
End thumb_output.

(** ** Paths the loop passes over *)

Lemma has_part_like_below `{Platform} (root p : path) (name : string) :
  has_part_like root name -> below root p -> has_part_like p name.
Proof.
  intros (part & Hin & Heq) (rest & _ & ->). exists part. split; [|assumption].
  apply elem_of_app. now left.
Qed.

Lemma webp_loop_noop `{Platform} (a : convert_to_webp.args) (sf : list string)
    (walk : list path) (s : world * convert_to_webp.counters) :
  (forall p, p ∈ walk -> convert_to_webp.iteration a sf p s = (Ok tt, s)) ->
  convert_to_webp.loop a sf walk s = (Ok tt, s).
Proof.
  induction walk as [|src rest IH]; intros Hall; [reflexivity|].
  rewrite (webp_loop_cons _ _ _ _ _ _ (Hall src (list_elem_of_here _ _))).
  apply IH. intros p Hp. apply Hall. now apply list_elem_of_further.
Qed.

Lemma thumb_loop_noop `{Platform} (a : make_thumbnails.args)
    (walk : list path) (s : world * make_thumbnails.counters) :
  (forall p, p ∈ walk -> make_thumbnails.iteration a p s = (Ok tt, s)) ->
  make_thumbnails.loop a walk s = (Ok tt, s).
Proof.
  induction walk as [|src rest IH]; intros Hall; [reflexivity|].
  rewrite (thumb_loop_cons _ _ _ _ _ (Hall src (list_elem_of_here _ _))).
  apply IH. intros p Hp. apply Hall. now apply list_elem_of_further.
Qed.

(** ** A transform that returns *)

Lemma mkdir_save_ok_of_thumbnail `{Platform} (src dst : path) (mx : Z * Z) (q : Z)
    (meth : string) (k : bool) (w w' : world) :
  make_thumbnails.make_thumbnail src dst mx q meth k w = (Ok tt, w') ->
  exists out, w_fs w' !! dst = Some (NFile (w_clock w) out) /\
              is_dir w' (path_parent dst) = true.
Proof.
  intros Hmk. apply make_thumbnail_steps in Hmk
    as [[[e He] _]|(m & data & im0 & im1 & im2 & im3 & _ & _ & _ & _ & _ & Ht)];
    [discriminate|].
  apply mkdir_save_ok in Ht as (out & _ & Hd & Hp & _). eauto.
Qed.

Lemma mkdir_save_ok_of_convert `{Platform} (src dst : path) (q : Z) (k : bool)
    (w w' : world) :
  convert_to_webp.convert_one src dst q k w = (Ok tt, w') ->
  exists out, w_fs w' !! dst = Some (NFile (w_clock w) out) /\
              is_dir w' (path_parent dst) = true.
Proof.
  intros Hmk. apply convert_one_steps in Hmk
    as [[[e He] _]|(m & data & im0 & im1 & im2 & _ & _ & _ & _ & Ht)];
    [discriminate|].
  apply mkdir_save_ok in Ht as (out & _ & Hd & Hp & _). eauto.
Qed.

(* ===================================================================== *)
(** * The sample trees *)
(* ===================================================================== *)

(** From here on the scripts are also run on the small platform. *)
#[global] Existing Instance toy.platform.

Lemma toy_tree_a_paths (mtime : Z) (p : path) :
  is_Some (toy.tree_a mtime !! p) -> p = ["/"] \/ p = toy.site \/ p = toy.a_jpg.
Proof.
  unfold toy.tree_a. intros H.
  apply lookup_insert_is_Some in H as [<- | [_ H]]; [now left|].
  apply lookup_insert_is_Some in H as [<- | [_ H]]; [now right; left|].
  destruct H as [n H]. apply lookup_singleton_Some in H as [<- _]. now right; right.
Qed.

Lemma toy_tree_a_after_paths (mtime : Z) (p : path) :
  is_Some (toy.tree_a_after mtime !! p) ->
  p = ["/"] \/ p = toy.site \/ p = toy.a_jpg \/ p = toy.a_webp.
Proof.
  unfold toy.tree_a_after. intros H.
  apply lookup_insert_is_Some in H as [<- | [_ H]]; [now left|].
  apply lookup_insert_is_Some in H as [<- | [_ H]]; [now right; left|].
  apply lookup_insert_is_Some in H as [<- | [_ H]]; [now right; right; left|].
  destruct H as [n H]. apply lookup_singleton_Some in H as [<- _]. now right; right; right.
Qed.

Lemma toy_below_site (p : path) :
  below toy.site p -> p <> ["/"] /\ p <> toy.site.
Proof.
  intros (rest & Hne & ->). unfold toy.site. split.
  - discriminate.
  - intros H. simpl in H. injection H as H. now destruct rest.
Qed.

Lemma toy_below_a_jpg : below toy.site toy.a_jpg.
Proof. exists ["a.jpg"]. split; [discriminate|reflexivity]. Qed.

Lemma toy_below_a_webp : below toy.site toy.a_webp.
Proof. exists ["a.webp"]. split; [discriminate|reflexivity]. Qed.

(** The walk of the first run reaches the one file below [/site]. *)
Lemma toy_walk1 (mtime now : Z) :
  walk_reaches (toy.world_a mtime now) toy.site [toy.a_jpg].
Proof.
  intros p Hp Hbelow. cbn [w_fs toy.world_a] in Hp.
  apply toy_below_site in Hbelow as [H1 H2].
  apply toy_tree_a_paths in Hp as [? | [? | ->]]; [congruence..|].
  apply list_elem_of_here.
Qed.

(** What [rglob] yields on the tree the first run leaves. *)
Lemma toy_walk2 (mtime now : Z) (out : list string) :
  rglob_yields (World (toy.tree_a_after mtime) now out) toy.site
    [toy.a_jpg; toy.a_webp].
Proof.
  split.
  - apply NoDup_cons. split; [|apply NoDup_singleton].
    intros H%list_elem_of_In. simpl in H. destruct H as [H|[]]. discriminate.
  - intros p. cbn [w_fs]. split.
    + intros H%list_elem_of_In. simpl in H. destruct H as [<- | [<- | []]].
      * split; [|apply toy_below_a_jpg]. eexists. reflexivity.
      * split; [|apply toy_below_a_webp]. eexists. reflexivity.
    + intros [Hp Hbelow]. apply toy_below_site in Hbelow as [H1 H2].
      apply list_elem_of_In. simpl.
      apply toy_tree_a_after_paths in Hp as [? | [? | [-> | ->]]]; [congruence..| |]; tauto.
Qed.

(** No work item of the sample tree is younger than the clock when the
    source was written at or before it. *)
Lemma toy_no_future (mtime now : Z) (sf : list string) :
  mtime <= now ->
  no_future_sources (convert_to_webp.eligible sf) (toy.world_a mtime now).
Proof.
  intros Hle p n Hel Hp. cbn [w_fs w_clock toy.world_a] in *.
  unfold convert_to_webp.eligible, is_file in Hel. cbn [w_fs toy.world_a] in Hel.
  rewrite Hp in Hel.
  assert (is_Some (toy.tree_a mtime !! p)) as Hs by eauto.
  apply toy_tree_a_paths in Hs as [-> | [-> | ->]];
    vm_compute in Hp; injection Hp as <-; try discriminate.
  exact Hle.
Qed.

(* ===================================================================== *)
(** * The properties of the specification *)
(* ===================================================================== *)

(** C3.  In both scripts the staleness check, applied to a source file,
    returns without touching the world, and it answers "skip" exactly
    when the destination exists and its modification time is greater than
    or equal to the source's.  The loop skips on that answer only when
    [--overwrite] is absent.  With [--overwrite] the check is bypassed
    and the transform is called whatever the time stamps say; its
    exception propagates to the handler; when it returns the destination
    has been rebuilt: it is a regular file stamped with the clock of the
    call that holds what the encoder made of the decoded source, the run
    counts a conversion and no skip, and the rebuilt file is still there
    when the [try] statement is left. *)
Theorem C3_staleness_check `{P : Platform} (w : world) (src dst : path) :
  is_file w src = true ->
  (exists b : bool,
     convert_to_webp.is_up_to_date src dst w = (Ok b, w) /\
     make_thumbnails.is_up_to_date src dst w = (Ok b, w) /\
     (b = true <->
      exists d s, w_fs w !! dst = Some d /\ w_fs w !! src = Some s /\
                  st_mtime (node_stat d) >= st_mtime (node_stat s))) /\
  (forall a, convert_to_webp.skip_check a src dst w =
     (if convert_to_webp.overwrite a then (Ok false, w)
      else convert_to_webp.is_up_to_date src dst w)) /\
  (forall a, make_thumbnails.skip_check a src dst w =
     (if make_thumbnails.overwrite a then (Ok false, w)
      else make_thumbnails.is_up_to_date src dst w)) /\
  (forall a c, convert_to_webp.overwrite a = true ->
     match convert_to_webp.convert_one src dst (convert_to_webp.quality a)
             (convert_to_webp.keep_metadata a) w with
     | (Raise e, w2) =>
         convert_to_webp.try_body a src dst (w, c) = (Raise e, (w2, c))
     | (Ok _, w2) =>
         exists m data im0 im1 im2 out,
           w_fs w !! src = Some (NFile m data) /\
           pil_decode data = Ok im0 /\
           pil_exif_transpose im0 = Ok im1 /\
           convert_to_webp.normalize_mode im1 = Ok im2 /\
           pil_encode_webp im2
             (convert_to_webp.make_save_kwargs im2 (convert_to_webp.quality a)
                (convert_to_webp.keep_metadata a)) = Ok out /\
           w_fs w2 !! dst = Some (NFile (w_clock w) out) /\
           exists r w3 c3,
             convert_to_webp.try_body a src dst (w, c) = (r, (w3, c3)) /\
             convert_to_webp.converted c3 = S (convert_to_webp.converted c) /\
             convert_to_webp.skipped c3 = convert_to_webp.skipped c /\
             (src <> dst -> w_fs w3 !! dst = Some (NFile (w_clock w) out))
     end) /\
  (forall a c, make_thumbnails.overwrite a = true ->
     match make_thumbnails.make_thumbnail src dst (make_thumbnails.max a)
             (make_thumbnails.quality a) (make_thumbnails.method a)
             (make_thumbnails.keep_metadata a) w with
     | (Raise e, w2) =>
         make_thumbnails.try_body a src dst (w, c) = (Raise e, (w2, c))
     | (Ok _, w2) =>
         exists m data im0 im1 im2 im3 out,
           w_fs w !! src = Some (NFile m data) /\
           pil_decode data = Ok im0 /\
           pil_exif_transpose im0 = Ok im1 /\
           make_thumbnails.normalize_mode im1 = Ok im2 /\
           make_thumbnails.resize im2 (make_thumbnails.max a) (make_thumbnails.method a)
           = Ok im3 /\
           pil_encode_webp im3
             (make_thumbnails.make_save_kwargs im3 (make_thumbnails.quality a)
                (make_thumbnails.keep_metadata a)) = Ok out /\
           w_fs w2 !! dst = Some (NFile (w_clock w) out) /\
           make_thumbnails.try_body a src dst (w, c) =
           (Ok tt, (w2, make_thumbnails.incr_created c))
     end).
Proof.
  intros Hfile. apply is_file_some in Hfile as (m & d & Hsrc).
  assert (is_Some (w_fs w !! src)) as Hsome by eauto.
  split; [|split; [|split; [|split]]].
  - exists (up_to_date w src dst).
    rewrite webp_is_up_to_date_eq,
      thumb_is_up_to_date_eq by assumption.
    split; [reflexivity|]. split; [reflexivity|].
    rewrite up_to_date_iff. split.
    + intros (d' & s' & H1 & H2 & H3). exists d', s'. repeat split; auto. lia.
    + intros (d' & s' & H1 & H2 & H3). exists d', s'. repeat split; auto. lia.
  - intros a. unfold convert_to_webp.skip_check.
    now destruct (convert_to_webp.overwrite a).
  - intros a. unfold make_thumbnails.skip_check.
    now destruct (make_thumbnails.overwrite a).
  - intros a c Hov. rewrite webp_try_body_eq.
    unfold convert_to_webp.skip_check. rewrite Hov. cbn [negb]. cbv beta iota.
    unfold mret, W_ret.
    destruct (convert_to_webp.convert_one _ _ _ _ w) as [[[]|e] w2] eqn:Hconv;
      [|reflexivity].
    apply convert_one_steps in Hconv
      as [[[e He] _]|(m' & data & im0 & im1 & im2 & Hs & H0 & H1 & H2 & Ht)];
      [discriminate|].
    apply mkdir_save_ok in Ht as (out & Henc & Hd & _ & _ & _).
    exists m', data, im0, im1, im2, out. repeat (split; [assumption|]).
    destruct (convert_to_webp.delete_originals a); [|eauto 10].
    rewrite webp_dst_nonempty_eq.
    destruct (match w_fs w2 !! dst with Some _ => _ | None => _ end); [|eauto 10].
    destruct (unlink src w2) as [[[]|e] w4] eqn:Hun.
    + eexists _, _, _. split; [reflexivity|]. split; [reflexivity|].
      split; [reflexivity|]. intros Hne.
      apply unlink_ok in Hun as (_ & _ & _ & Hadd).
      apply (adds_dirs_file_keeps _ _ _ _ _ Hadd). cbn [w_fs set_fs].
      now rewrite lookup_delete_ne by congruence.
    + apply unlink_raise in Hun as ->. eauto 10.
  - intros a c Hov. rewrite thumb_try_body_eq.
    unfold make_thumbnails.skip_check. rewrite Hov. cbn [negb]. cbv beta iota.
    unfold mret, W_ret.
    destruct (make_thumbnails.make_thumbnail _ _ _ _ _ _ w) as [[[]|e] w2] eqn:Hmk;
      [|reflexivity].
    apply make_thumbnail_steps in Hmk
      as [[[e He] _]|(m' & data & im0 & im1 & im2 & im3 & Hs & H0 & H1 & H2 & H3 & Ht)];
      [discriminate|].
    apply mkdir_save_ok in Ht as (out & Henc & Hd & _ & _ & _).
    exists m', data, im0, im1, im2, im3, out. repeat (split; [assumption|]).
    reflexivity.
Qed.

Lemma C3_staleness_check_witness :
  is_file (toy.world_a_done) toy.a_jpg = true /\
  convert_to_webp.is_up_to_date toy.a_jpg toy.a_webp toy.world_a_done
  = (Ok true, toy.world_a_done) /\
  exists w2 out,
    convert_to_webp.convert_one toy.a_jpg toy.a_webp 80 false toy.world_a_done
    = (Ok tt, w2) /\
    w_fs w2 !! toy.a_webp = Some (NFile 100 out).
Proof.
  split; [reflexivity|]. split; [reflexivity|].
  pose proof (proj1 (proj2 (proj2 (proj2
                (C3_staleness_check (P := toy.platform) toy.world_a_done
                   toy.a_jpg toy.a_webp eq_refl))))
                (convert_to_webp.Args toy.site 80 false false true ["thumbnails"])
                convert_to_webp.zero eq_refl) as H.
  cbn [convert_to_webp.quality convert_to_webp.keep_metadata] in H.
  destruct (convert_to_webp.convert_one toy.a_jpg toy.a_webp 80 false toy.world_a_done)
    as [[[]|e] w2] eqn:Hc; [|vm_compute in Hc; discriminate].
  destruct H as (m & data & im0 & im1 & im2 & out & _ & _ & _ & _ & _ & Hdst & _).
  exists w2, out. split; [reflexivity|exact Hdst].
Defined.

(** C10.  convert_to_webp with [--delete-originals] and without
    [--overwrite]: a source file that passes the filter and whose
    destination is up to date is counted as skipped and nothing else
    happens in that turn of the loop: the converted, deleted and error
    counters keep their values and the world, the original included, is
    left as it was. *)
Theorem C10_skipped_original_untouched `{P : Platform}
    (a : convert_to_webp.args) (skip_folders : list string)
    (src dst : path) (w : world) (c : convert_to_webp.counters) :
  convert_to_webp.delete_originals a = true ->
  convert_to_webp.overwrite a = false ->
  convert_to_webp.eligible skip_folders w src = true ->
  with_suffix src ".webp" = Ok dst ->
  up_to_date w src dst = true ->
  convert_to_webp.is_up_to_date src dst w = (Ok true, w) /\
  convert_to_webp.iteration a skip_folders src (w, c)
  = (Ok tt, (w, convert_to_webp.incr_skipped c)) /\
  convert_to_webp.deleted (convert_to_webp.incr_skipped c) = convert_to_webp.deleted c /\
  is_file w src = true.
Proof.
  intros Hdel Hov Hel Hdst Hup.
  assert (is_file w src = true) as Hfile.
  { unfold convert_to_webp.eligible in Hel. now apply andb_true_iff in Hel as [? _]. }
  destruct (is_file_some _ _ Hfile) as (m & d & Hsrc).
  assert (convert_to_webp.is_up_to_date src dst w = (Ok true, w)) as Hcheck.
  { rewrite webp_is_up_to_date_eq by eauto. now rewrite Hup. }
  repeat split; try assumption.
  rewrite webp_iteration_eq. cbn [fst]. rewrite Hel, Hdst.
  rewrite webp_try_except_eq, webp_try_body_eq.
  unfold convert_to_webp.skip_check. rewrite Hov. cbn [negb]. now rewrite Hcheck.
Qed.

Lemma C10_skipped_original_untouched_witness :
  convert_to_webp.iteration (convert_to_webp.parse_args toy.cli_delete)
    ["thumbnails"] toy.a_jpg (toy.world_a_done, convert_to_webp.zero)
  = (Ok tt, (toy.world_a_done, convert_to_webp.Counters 0 1 0 0)).
Proof.
  apply (C10_skipped_original_untouched (P := toy.platform)
           (convert_to_webp.parse_args toy.cli_delete) ["thumbnails"]
           toy.a_jpg toy.a_webp toy.world_a_done convert_to_webp.zero);
    reflexivity.
Defined.

(** C1.  One [try ... except] statement of convert_to_webp, for any
    source and destination.  If it removed the source from the tree, or
    counted a deletion, then [--delete-originals] was given, the staleness
    check did not skip, [convert_one] returned without an exception and,
    in the world it left, the destination exists with a size greater than
    zero.  If [convert_one] raises on this file, the source is still
    there afterwards and no deletion is counted. *)
Theorem C1_delete_only_after_verified_output `{P : Platform}
    (a : convert_to_webp.args) (src dst : path)
    (w : world) (c : convert_to_webp.counters)
    (r : result unit) (w' : world) (c' : convert_to_webp.counters) :
  try_except (convert_to_webp.try_body a src dst) (convert_to_webp.handler src) (w, c)
  = (r, (w', c')) ->
  ((is_Some (w_fs w !! src) /\ w_fs w' !! src = None) \/
   convert_to_webp.deleted c' <> convert_to_webp.deleted c ->
   convert_to_webp.delete_originals a = true /\
   convert_to_webp.skip_check a src dst w = (Ok false, w) /\
   exists w1 n,
     convert_to_webp.convert_one src dst (convert_to_webp.quality a)
       (convert_to_webp.keep_metadata a) w = (Ok tt, w1) /\
     w_fs w1 !! dst = Some n /\ 0 < st_size (node_stat n)) /\
  (forall e w1,
     is_Some (w_fs w !! src) ->
     convert_to_webp.convert_one src dst (convert_to_webp.quality a)
       (convert_to_webp.keep_metadata a) w = (Raise e, w1) ->
     is_Some (w_fs w' !! src) /\
     convert_to_webp.deleted c' = convert_to_webp.deleted c).
Proof.
  rewrite webp_try_except_eq, webp_try_body_eq.
  destruct (convert_to_webp.skip_check a src dst w) as [[[|]|e0] w0] eqn:Hskip;
    pose proof (webp_skip_check_world _ _ _ _ _ _ Hskip) as ->.
  - (* skipped *)
    intros H; injection H as <- <- <-. split.
    + intros [[[n Hn] Hgone]|Hd]; [congruence|now destruct c].
    + intros e w1 Hs _. split; [assumption|now destruct c].
  - (* not skipped: [convert_one] is called *)
    destruct (convert_to_webp.convert_one src dst _ _ w) as [[[]|e1] w2] eqn:Hconv;
      pose proof (convert_one_spec _ _ _ _ _ _ _ Hconv) as Heff.
    + destruct (convert_to_webp.delete_originals a) eqn:Hdel.
      * rewrite webp_dst_nonempty_eq.
        destruct (w_fs w2 !! dst) as [n|] eqn:Hdst.
        -- destruct (0 <? st_size (node_stat n)) eqn:Hsize.
           ++ apply Z.ltb_lt in Hsize.
              split; [|intros e w1 _ Habs; discriminate].
              intros _. repeat split; eauto.
           ++ intros H; injection H as <- <- <-. split; [|intros e w1 _ Habs; discriminate].
              intros [[Hs Hgone]|Hd]; [|now destruct c].
              apply (transform_effect_keeps _ _ _ _ _ Heff) in Hs as [n' Hn'].
              congruence.
        -- intros H; injection H as <- <- <-. split; [|intros e w1 _ Habs; discriminate].
           intros [[Hs Hgone]|Hd]; [|now destruct c].
           apply (transform_effect_keeps _ _ _ _ _ Heff) in Hs as [n' Hn'].
           congruence.
      * intros H; injection H as <- <- <-. split; [|intros e w1 _ Habs; discriminate].
        intros [[Hs Hgone]|Hd]; [|now destruct c].
        apply (transform_effect_keeps _ _ _ _ _ Heff) in Hs as [n' Hn'].
        congruence.
    + (* [convert_one] raised *)
      destruct (printable _); intros H; injection H as <- <- <-; cbn [w_fs]; split.
      all: try (intros [[Hs Hgone]|Hd]; [|now destruct c];
                apply (transform_effect_keeps _ _ _ _ _ Heff) in Hs as [n' Hn'];
                congruence).
      all: intros e w1 Hs _; (split; [|now destruct c]);
        apply (transform_effect_keeps _ _ _ _ _ Heff) in Hs; exact Hs.
  - (* the staleness check raised *)
    destruct (printable _); intros H; injection H as <- <- <-; cbn [w_fs]; split.
    all: try (intros [[[n Hn] Hgone]|Hd]; [congruence|now destruct c]).
    all: intros e w1 Hs _; split; [assumption|now destruct c].
Qed.

Lemma C1_delete_only_after_verified_output_witness :
  let a := convert_to_webp.parse_args toy.cli_delete in
  let run := try_except (convert_to_webp.try_body a toy.b_jpg toy.b_webp)
               (convert_to_webp.handler toy.b_jpg) (toy.world_b, convert_to_webp.zero) in
  convert_to_webp.convert_one toy.b_jpg toy.b_webp 80 false toy.world_b
  = (Raise "cannot identify image file", toy.world_b) /\
  is_Some (w_fs (fst (snd run)) !! toy.b_jpg) /\
  convert_to_webp.deleted (snd (snd run)) = 0%nat.
Proof.
  intros a run. split; [reflexivity|].
  refine (proj2 (C1_delete_only_after_verified_output (P := toy.platform)
            a toy.b_jpg toy.b_webp toy.world_b convert_to_webp.zero
            (fst run) (fst (snd run)) (snd (snd run)) _) _ toy.world_b _ _).
  - reflexivity.
  - eexists; reflexivity.
  - reflexivity.
Defined.



(** C2 as the specification words it fails: [/site/\255.jpg] is no image
    and its name cannot be encoded by standard output.  [convert_one]
    raises, the handler counts the error, and its [print] raises in turn:
    the turn of the loop does not return and the run ends with an
    uncaught exception. *)
Lemma C2_counterexample :
  let e := "UnicodeEncodeError: standard output cannot encode the line" in
  convert_to_webp.eligible ["thumbnails"] toy.world_odd toy.odd_jpg = true /\
  convert_to_webp.iteration (convert_to_webp.parse_args toy.cli_plain) ["thumbnails"]
    toy.odd_jpg (toy.world_odd, convert_to_webp.zero)
  = (Raise e, (toy.world_odd, convert_to_webp.Counters 0 0 1 0)) /\
  convert_to_webp.main toy.cli_plain [toy.odd_jpg; toy.site] toy.world_odd
  = (Uncaught e, (toy.world_odd, convert_to_webp.Counters 0 0 1 0)) /\
  ~ errors_never_abort_claim.
Proof.
  intros e. split; [reflexivity|]. split; [vm_compute; reflexivity|].
  split; [vm_compute; reflexivity|].
  intros [Hclaim _].
  destruct (Hclaim toy.platform (convert_to_webp.parse_args toy.cli_plain) ["thumbnails"]
              toy.odd_jpg (toy.world_odd, convert_to_webp.zero)) as [s' Hs'].
  vm_compute in Hs'. discriminate.
Qed.



(** C7 as the specification words it fails: the root [/site] is a
    directory, [/site/\255.jpg] fails to convert and the line of its
    error cannot be printed.  One error has been counted, and the run
    ends with an uncaught exception, that is with exit status 1, which is
    neither 0 nor 2. *)
Lemma C7_counterexample :
  is_dir toy.world_odd toy.site = true /\
  (exists e,
     convert_to_webp.main toy.cli_plain [toy.odd_jpg] toy.world_odd
     = (Uncaught e, (toy.world_odd, convert_to_webp.Counters 0 0 1 0))) /\
  exit_status (fst (convert_to_webp.main toy.cli_plain [toy.odd_jpg] toy.world_odd)) = 1 /\
  ~ exit_status_claim.
Proof.
  split; [reflexivity|]. split; [eexists; vm_compute; reflexivity|].
  split; [vm_compute; reflexivity|].
  intros [Hclaim _].
  destruct (Hclaim toy.platform toy.cli_plain [toy.odd_jpg] toy.world_odd eq_refl)
    as (w' & cnt & Hsnd & Hst).
  vm_compute in Hsnd. injection Hsnd as _ <-.
  vm_compute in Hst. discriminate.
Qed.

(** C9.  For every command line of convert_to_webp the parsed
    [skip_folder] list is ["thumbnails"] followed by the names given with
    [--skip-folder], so ["thumbnails"] is in the set of skipped folders
    whatever the user supplies.  A path with a part that is [thumbnails]
    in any letter case goes through its turn of the loop without any
    effect, and the whole run is the run over the walk with those paths
    left out. *)
Theorem C9_thumbnails_always_skipped `{P : Platform} (c : convert_to_webp.cli) :
  let a := convert_to_webp.parse_args c in
  let skip_folders := map lower (convert_to_webp.skip_folder a) in
  convert_to_webp.skip_folder a = "thumbnails" :: convert_to_webp.cli_skip_folder c /\
  "thumbnails" ∈ skip_folders /\
  (forall src s,
     (exists part, part ∈ src /\ lower part = "thumbnails") ->
     convert_to_webp.iteration a skip_folders src s = (Ok tt, s)) /\
  (forall walk s,
     convert_to_webp.loop a skip_folders walk s
     = convert_to_webp.loop a skip_folders
         (List.filter
            (fun p => negb (convert_to_webp.is_in_folder_named p "thumbnails")) walk) s).
Proof.
  intros a skip_folders.
  assert (forall src s,
            (exists part, part ∈ src /\ lower part = "thumbnails") ->
            convert_to_webp.iteration a skip_folders src s = (Ok tt, s)) as Hskip.
  { intros src s (part & Hpart & Hlow).
    rewrite webp_iteration_eq.
    unfold skip_folders. rewrite webp_skipped_not_eligible; [reflexivity|].
    exists part, "thumbnails". split; [assumption|].
    split; [apply list_elem_of_here|]. now rewrite lower_thumbnails. }
  split; [reflexivity|]. split.
  { unfold skip_folders, a. cbn [convert_to_webp.skip_folder convert_to_webp.parse_args
                                  argparse_append app map].
    rewrite lower_thumbnails. apply list_elem_of_here. }
  split; [exact Hskip|].
  intros walk s. apply webp_loop_filter.
  intros p s' Hkeep. apply Hskip.
  apply negb_false_iff in Hkeep. unfold convert_to_webp.is_in_folder_named in Hkeep.
  apply existsb_exists in Hkeep as (part & Hin & Heq).
  exists part. split; [now apply list_elem_of_In|].
  apply String.eqb_eq in Heq. now rewrite lower_thumbnails in Heq.
Qed.

Lemma C9_thumbnails_always_skipped_witness :
  let c := convert_to_webp.Cli toy.site None false false false ["cache"] in
  let src := ["/"; "site"; "Thumbnails"; "a.jpg"] in
  (exists part, part ∈ src /\ lower part = "thumbnails") /\
  convert_to_webp.iteration (convert_to_webp.parse_args c) ["thumbnails"; "cache"] src
    (toy.world_caps, convert_to_webp.zero)
  = (Ok tt, (toy.world_caps, convert_to_webp.zero)).
Proof.
  intros c src.
  assert (exists part, part ∈ src /\ lower part = "thumbnails") as Hpart.
  { exists "Thumbnails". split; [|reflexivity].
    apply list_elem_of_In. simpl. tauto. }
  split; [exact Hpart|].
  exact (proj1 (proj2 (proj2 (C9_thumbnails_always_skipped (P := toy.platform) c)))
           src (toy.world_caps, convert_to_webp.zero) Hpart).
Defined.

(** C4, as amended.  convert_to_webp: a path with a part equal, without
    regard to letter case, to one of the configured skip-folder names
    goes through its turn of the loop without any effect, so no
    destination is created for it.  make_thumbnails: the same holds for a
    path with a part that is exactly [thumbnails]; the comparison there is
    case-sensitive.  In both scripts the run is the run over the walk
    with those paths left out. *)
Theorem C4_skip_folders_excluded `{P : Platform} :
  (forall a src s,
     (exists part name, part ∈ src /\ name ∈ convert_to_webp.skip_folder a /\
                        lower part = lower name) ->
     convert_to_webp.iteration a (map lower (convert_to_webp.skip_folder a)) src s
     = (Ok tt, s)) /\
  (forall a walk s,
     let sf := map lower (convert_to_webp.skip_folder a) in
     convert_to_webp.loop a sf walk s
     = convert_to_webp.loop a sf
         (List.filter
            (fun p => negb (existsb
                              (fun name => convert_to_webp.is_in_folder_named p name) sf))
            walk) s) /\
  (forall a src s,
     make_thumbnails.THUMB_DIR_NAME ∈ src ->
     make_thumbnails.iteration a src s = (Ok tt, s)) /\
  (forall a walk s,
     make_thumbnails.loop a walk s
     = make_thumbnails.loop a
         (List.filter
            (fun p => negb (existsb (String.eqb make_thumbnails.THUMB_DIR_NAME) p)) walk) s).
Proof.
  assert (forall a src s,
            existsb (String.eqb make_thumbnails.THUMB_DIR_NAME) src = true ->
            make_thumbnails.iteration a src s = (Ok tt, s)) as Hthumb.
  { intros a src s H. rewrite thumb_iteration_eq.
    unfold make_thumbnails.eligible, make_thumbnails.name_passes. rewrite H.
    cbn [negb]. now rewrite !andb_false_r. }
  repeat apply conj.
  - intros a src s H. rewrite webp_iteration_eq.
    now rewrite webp_skipped_not_eligible.
  - intros a walk s sf. apply webp_loop_filter.
    intros p s' Hkeep. apply negb_false_iff in Hkeep.
    rewrite webp_iteration_eq.
    unfold convert_to_webp.eligible, convert_to_webp.name_passes.
    rewrite Hkeep. cbn [negb andb]. now rewrite andb_false_r.
  - intros a src s Hin. apply Hthumb. apply existsb_exists.
    exists make_thumbnails.THUMB_DIR_NAME. split; [now apply list_elem_of_In|].
    apply String.eqb_refl.
  - intros a walk s. apply thumb_loop_filter.
    intros p s' Hkeep. apply negb_false_iff in Hkeep. now apply Hthumb.
Qed.

Lemma C4_skip_folders_excluded_witness :
  make_thumbnails.THUMB_DIR_NAME ∈ toy.w_thumb /\
  make_thumbnails.iteration (make_thumbnails.parse_args toy.cli_thumbs) toy.w_thumb
    (toy.world_w, make_thumbnails.zero)
  = (Ok tt, (toy.world_w, make_thumbnails.zero)).
Proof.
  assert (make_thumbnails.THUMB_DIR_NAME ∈ toy.w_thumb) as Hin.
  { apply list_elem_of_In. simpl. tauto. }
  split; [exact Hin|].
  exact (proj1 (proj2 (proj2 (C4_skip_folders_excluded (P := toy.platform))))
           (make_thumbnails.parse_args toy.cli_thumbs) toy.w_thumb
           (toy.world_w, make_thumbnails.zero) Hin).
Defined.

(** C4 as the specification words it fails in make_thumbnails: the image
    [/site/Thumbnails/a.jpg] has a part that is [thumbnails] up to letter
    case, and yet its turn of the loop creates the thumbnail
    [/site/Thumbnails/thumbnails/a.webp]. *)
Lemma C4_counterexample :
  (exists part, part ∈ toy.caps_jpg /\
                lower part = lower make_thumbnails.THUMB_DIR_NAME) /\
  w_fs toy.world_caps !! toy.caps_thumb = None /\
  (exists w',
     make_thumbnails.iteration (make_thumbnails.parse_args toy.cli_thumbs) toy.caps_jpg
       (toy.world_caps, make_thumbnails.zero)
     = (Ok tt, (w', make_thumbnails.Counters 1 0 0)) /\
     is_file w' toy.caps_thumb = true) /\
  ~ skip_folder_claim.
Proof.
  assert (exists part, part ∈ toy.caps_jpg /\
                       lower part = lower make_thumbnails.THUMB_DIR_NAME) as Hpart.
  { exists "Thumbnails". split; [|reflexivity]. apply list_elem_of_In. simpl. tauto. }
  split; [exact Hpart|]. split; [reflexivity|]. split.
  - eexists. split; [vm_compute; reflexivity|reflexivity].
  - intros [_ Hclaim].
    specialize (Hclaim toy.platform (make_thumbnails.parse_args toy.cli_thumbs)
                  toy.caps_jpg (toy.world_caps, make_thumbnails.zero) Hpart).
    vm_compute in Hclaim. discriminate.
Qed.

(** C5, as amended.  convert_to_webp: a path whose extension is [.webp]
    in any letter case goes through its turn of the loop without any
    effect; it never reaches the [try] statement.  make_thumbnails counts
    [.webp] among the image extensions: such a file is an image, and it
    is a work item exactly when no part of its path is [thumbnails]. *)
Theorem C5_webp_sources `{P : Platform} (src : path) :
  lower (path_suffix src) = ".webp" ->
  (forall a sf s, convert_to_webp.iteration a sf src s = (Ok tt, s)) /\
  (forall sf w, convert_to_webp.eligible sf w src = false) /\
  (forall w, make_thumbnails.is_image w src = is_file w src) /\
  (forall w, make_thumbnails.eligible w src
             = (is_file w src
                && negb (existsb (String.eqb make_thumbnails.THUMB_DIR_NAME) src))%bool).
Proof.
  intros Hext.
  assert (forall sf w, convert_to_webp.eligible sf w src = false) as Hne.
  { intros sf w. unfold convert_to_webp.eligible, convert_to_webp.name_passes.
    rewrite Hext. cbn. now rewrite !andb_false_r. }
  repeat apply conj.
  - intros a sf s. rewrite webp_iteration_eq. now rewrite Hne.
  - exact Hne.
  - intros w. unfold make_thumbnails.is_image. rewrite Hext. cbn. apply andb_true_r.
  - intros w. unfold make_thumbnails.eligible, make_thumbnails.name_passes.
    rewrite Hext. reflexivity.
Qed.

Lemma C5_webp_sources_witness :
  lower (path_suffix toy.w_webp) = ".webp" /\
  convert_to_webp.iteration (convert_to_webp.parse_args toy.cli_delete) ["thumbnails"]
    toy.w_webp (toy.world_w, convert_to_webp.zero)
  = (Ok tt, (toy.world_w, convert_to_webp.zero)) /\
  make_thumbnails.eligible toy.world_w toy.w_webp = true.
Proof.
  split; [reflexivity|].
  destruct (C5_webp_sources (P := toy.platform) toy.w_webp eq_refl)
    as (Hconv & _ & _ & Hel).
  split; [apply Hconv|]. rewrite Hel. reflexivity.
Defined.

(** C5 as the specification words it fails in make_thumbnails: the file
    [/site/w.webp] is a work item, and its turn of the loop writes the
    thumbnail [/site/thumbnails/w.webp]. *)
Lemma C5_counterexample :
  lower (path_suffix toy.w_webp) = ".webp" /\
  (exists w',
     make_thumbnails.iteration (make_thumbnails.parse_args toy.cli_thumbs) toy.w_webp
       (toy.world_w, make_thumbnails.zero)
     = (Ok tt, (w', make_thumbnails.Counters 1 0 0)) /\
     is_file w' toy.w_thumb = true) /\
  ~ webp_excluded_claim.
Proof.
  split; [reflexivity|]. split.
  - eexists. split; [vm_compute; reflexivity|reflexivity].
  - intros [_ Hclaim].
    specialize (Hclaim toy.platform (make_thumbnails.parse_args toy.cli_thumbs)
                  toy.w_webp (toy.world_w, make_thumbnails.zero) eq_refl).
    vm_compute in Hclaim. discriminate.
Qed.

(** The small platform satisfies the laws. *)
Lemma toy_platform_laws : PlatformLaws toy.platform.
Proof.
  split.
  - intros im m im' H. injection H as <-. reflexivity.
  - intros t. simpl. lia.
Qed.





(** C8, as amended.  Either script, run twice in a row with the same
    command line and without [--overwrite], where the first run returns 0
    (no errors), its walk reaches every path that was below the root when
    it started, the tree does not change between the runs, and, in
    addition to what the specification says, no work item of the first run
    is stamped with a modification time later than the system clock (the
    clock itself never running backwards).  Then the second run returns 0,
    converts (creates) nothing, deletes nothing, counts no error, leaves
    the tree as it is, and its skipped count is the number of eligible
    files that [rglob] yields. *)
Theorem C8_second_run_skips_everything `{P : Platform} (L : PlatformLaws P) :
  (forall (c : convert_to_webp.cli) (walk1 walk2 : list path)
          (w0 w1 w1' : world) (cnt1 : convert_to_webp.counters),
     let a := convert_to_webp.parse_args c in
     let sf := map lower (convert_to_webp.skip_folder a) in
     convert_to_webp.cli_overwrite c = false ->
     no_future_sources (convert_to_webp.eligible sf) w0 ->
     walk_reaches w0 (convert_to_webp.root a) walk1 ->
     convert_to_webp.main c walk1 w0 = (Returned 0, (w1, cnt1)) ->
     w_fs w1' = w_fs w1 ->
     rglob_yields w1' (convert_to_webp.root a) walk2 ->
     exists w2 cnt2,
       convert_to_webp.main c walk2 w1' = (Returned 0, (w2, cnt2)) /\
       convert_to_webp.converted cnt2 = 0%nat /\
       convert_to_webp.skipped cnt2
       = length (List.filter (convert_to_webp.eligible sf w1') walk2) /\
       convert_to_webp.deleted cnt2 = 0%nat /\
       convert_to_webp.errors cnt2 = 0%nat /\
       w_fs w2 = w_fs w1') /\
  (forall (c : make_thumbnails.cli) (walk1 walk2 : list path)
          (w0 w1 w1' : world) (cnt1 : make_thumbnails.counters),
     let a := make_thumbnails.parse_args c in
     make_thumbnails.cli_overwrite c = false ->
     no_future_sources make_thumbnails.eligible w0 ->
     walk_reaches w0 (make_thumbnails.root a) walk1 ->
     make_thumbnails.main c walk1 w0 = (Returned 0, (w1, cnt1)) ->
     w_fs w1' = w_fs w1 ->
     rglob_yields w1' (make_thumbnails.root a) walk2 ->
     exists w2 cnt2,
       make_thumbnails.main c walk2 w1' = (Returned 0, (w2, cnt2)) /\
       make_thumbnails.created cnt2 = 0%nat /\
       make_thumbnails.skipped cnt2
       = length (List.filter (make_thumbnails.eligible w1') walk2) /\
       make_thumbnails.errors cnt2 = 0%nat /\
       w_fs w2 = w_fs w1').
Proof.
  split.
  - intros c walk1 walk2 w0 w1 w1' cnt1 a sf Hov Hnf Hreach Hmain Hfs Hwalk2.
    exact (webp_second_run L c walk1 walk2 w0 w1 w1' cnt1 Hov Hnf Hreach Hmain Hfs Hwalk2).
  - intros c walk1 walk2 w0 w1 w1' cnt1 a Hov Hnf Hreach Hmain Hfs Hwalk2.
    exact (thumb_second_run L c walk1 walk2 w0 w1 w1' cnt1 Hov Hnf Hreach Hmain Hfs Hwalk2).
Qed.

Lemma C8_second_run_skips_everything_witness :
  let w1 := World (toy.tree_a_after 10) 101
              [String "010" "Done."; "Converted: 1"; "Skipped (up-to-date): 0";
               "Deleted originals: 0"; "Errors: 0"] in
  convert_to_webp.main toy.cli_plain [toy.a_jpg] (toy.world_a 10 100)
  = (Returned 0, (w1, convert_to_webp.Counters 1 0 0 0)) /\
  exists w2 cnt2,
    convert_to_webp.main toy.cli_plain [toy.a_jpg; toy.a_webp] w1
    = (Returned 0, (w2, cnt2)) /\
    convert_to_webp.converted cnt2 = 0%nat /\
    convert_to_webp.skipped cnt2 = 1%nat.
Proof.
  intros w1.
  assert (convert_to_webp.main toy.cli_plain [toy.a_jpg] (toy.world_a 10 100)
          = (Returned 0, (w1, convert_to_webp.Counters 1 0 0 0))) as Hrun1
    by (vm_compute; reflexivity).
  split; [exact Hrun1|].
  destruct (proj1 (C8_second_run_skips_everything (P := toy.platform) toy_platform_laws)
              toy.cli_plain [toy.a_jpg] [toy.a_jpg; toy.a_webp]
              (toy.world_a 10 100) w1 w1 (convert_to_webp.Counters 1 0 0 0)
              eq_refl
              (toy_no_future 10 100 _ ltac:(lia))
              (toy_walk1 10 100)
              Hrun1
              eq_refl
              (toy_walk2 10 101 _))
    as (w2 & cnt2 & Hmain & Hconv & Hskip & _).
  exists w2, cnt2. split; [exact Hmain|]. split; [exact Hconv|].
  rewrite Hskip. reflexivity.
Defined.

(** C8 as the specification words it fails: [/site/a.jpg] carries a
    modification time (200) later than the clock (100).  The first run
    converts it without error and stamps [a.webp] with 100; nothing
    changes; the second run finds [a.webp] older than [a.jpg] and converts
    again. *)
Lemma C8_counterexample :
  let w1 := World (toy.tree_a_after 200) 101
              [String "010" "Done."; "Converted: 1"; "Skipped (up-to-date): 0";
               "Deleted originals: 0"; "Errors: 0"] in
  convert_to_webp.main toy.cli_plain [toy.a_jpg] (toy.world_a 200 100)
  = (Returned 0, (w1, convert_to_webp.Counters 1 0 0 0)) /\
  convert_to_webp.converted
    (snd (snd (convert_to_webp.main toy.cli_plain [toy.a_jpg; toy.a_webp] w1)))
  = 1%nat /\
  ~ idempotence_claim.
Proof.
  intros w1.
  assert (convert_to_webp.main toy.cli_plain [toy.a_jpg] (toy.world_a 200 100)
          = (Returned 0, (w1, convert_to_webp.Counters 1 0 0 0))) as Hrun1
    by (vm_compute; reflexivity).
  split; [exact Hrun1|]. split; [vm_compute; reflexivity|].
  intros [Hclaim _].
  destruct (Hclaim toy.platform toy_platform_laws
              toy.cli_plain [toy.a_jpg] [toy.a_jpg; toy.a_webp]
              (toy.world_a 200 100) w1 w1 (convert_to_webp.Counters 1 0 0 0)
              eq_refl (toy_walk1 200 100) Hrun1 eq_refl (toy_walk2 200 101 _))
    as (w2 & cnt2 & code & Hmain & Hconv & _).
  vm_compute in Hmain. injection Hmain as _ _ <-. discriminate.
Qed.

(* ===================================================================== *)
(** * Further properties of the scripts *)
(* ===================================================================== *)

(** X1.  convert_to_webp, line 119.  For a path that passes the filter,
    [src.with_suffix(".webp")] does not raise; the destination lies in the
    directory of the source, its name is the stem of the source's name
    followed by [.webp] (the source's name being that stem followed by
    its suffix), it is not the source, it never passes the filter itself,
    and taking its destination again gives the same path. *)
Theorem X1_webp_destination `{P : Platform} (sf : list string) (w : world) (src : path) :
  convert_to_webp.eligible sf w src = true ->
  exists dst,
    with_suffix src ".webp" = Ok dst /\
    dst = (path_parent src ++ [(name_stem (path_name src) ++ ".webp")%string])%list /\
    (name_stem (path_name src) ++ path_suffix src)%string = path_name src /\
    path_parent dst = path_parent src /\
    path_suffix dst = ".webp" /\
    dst <> src /\
    (forall w', convert_to_webp.eligible sf w' dst = false) /\
    with_suffix dst ".webp" = Ok dst.
Proof.
  intros Hel.
  assert (convert_to_webp.name_passes sf src = true) as Hn.
  { unfold convert_to_webp.eligible in Hel. now apply andb_true_iff in Hel as [_ ?]. }
  assert (path_name src <> "") as Hname.
  { unfold convert_to_webp.name_passes in Hn.
    apply andb_true_iff in Hn as [_ Hc].
    apply path_suffix_name. eapply str_in_nonempty; [exact Hc|reflexivity]. }
  pose proof (name_stem_nonempty _ Hname) as Hstem.
  pose proof (with_suffix_stem src Hname) as Hdst.
  eexists. split; [exact Hdst|]. split; [reflexivity|].
  assert (path_suffix (path_parent src ++ [(name_stem (path_name src) ++ ".webp")%string])
          = ".webp") as Hsuf by (now apply with_suffix_webp_suffix in Hdst).
  repeat apply conj.
  - apply name_stem_suffix.
  - apply path_parent_snoc.
  - exact Hsuf.
  - intros Heq. rewrite Heq in Hsuf.
    unfold convert_to_webp.name_passes in Hn. rewrite Hsuf, lower_webp in Hn.
    cbn in Hn. now rewrite andb_false_r in Hn.
  - intros w'. unfold convert_to_webp.eligible, convert_to_webp.name_passes.
    rewrite Hsuf, lower_webp. cbn. now rewrite !andb_false_r.
  - rewrite with_suffix_stem by (rewrite path_name_snoc; apply append_nonempty_r; congruence).
    now rewrite path_parent_snoc, path_name_snoc, name_stem_webp.
Qed.

Lemma X1_webp_destination_witness :
  convert_to_webp.eligible ["thumbnails"] (toy.world_a 10 100) toy.a_jpg = true /\
  with_suffix toy.a_jpg ".webp" = Ok toy.a_webp.
Proof.
  split; [reflexivity|].
  destruct (X1_webp_destination (P := toy.platform) ["thumbnails"] (toy.world_a 10 100) toy.a_jpg eq_refl)
    as (dst & Hdst & -> & _).
  exact Hdst.
Defined.

(** X2.  make_thumbnails, lines 106-107.  For a path that passes the
    filter the thumbnail path is
    [parent / "thumbnails" / (stem + ".webp")]: it does not raise, the
    thumbnail lies in the [thumbnails] folder next to the source, keeps
    the stem of the source's name with the suffix forced to [.webp], is
    not the source and never passes the filter itself. *)
Theorem X2_thumbnail_destination `{P : Platform} (w : world) (src : path) :
  make_thumbnails.eligible w src = true ->
  exists dst,
    make_thumbnails.thumb_path_of src = Ok dst /\
    dst = (path_parent src
           ++ [make_thumbnails.THUMB_DIR_NAME;
               (name_stem (path_name src) ++ ".webp")%string])%list /\
    (name_stem (path_name src) ++ path_suffix src)%string = path_name src /\
    path_parent dst = (path_parent src ++ [make_thumbnails.THUMB_DIR_NAME])%list /\
    path_suffix dst = ".webp" /\
    dst <> src /\
    (forall w', make_thumbnails.eligible w' dst = false).
Proof.
  intros Hel.
  assert (make_thumbnails.name_passes src = true) as Hn.
  { unfold make_thumbnails.eligible in Hel. now apply andb_true_iff in Hel as [_ ?]. }
  assert (path_name src <> "") as Hname.
  { unfold make_thumbnails.name_passes in Hn.
    apply andb_true_iff in Hn as [Hc _].
    apply path_suffix_name. eapply str_in_nonempty; [exact Hc|reflexivity]. }
  pose proof (name_stem_nonempty _ Hname) as Hstem.
  assert (make_thumbnails.thumb_path_of src
          = Ok (path_parent src
                ++ [make_thumbnails.THUMB_DIR_NAME;
                    (name_stem (path_name src) ++ ".webp")%string])%list) as Hdst.
  { unfold make_thumbnails.thumb_path_of, path_join at 1 2. simpl String.eqb.
    apply eqb_false_neq in Hname as Hne. rewrite Hne.
    rewrite with_suffix_stem by (now rewrite path_name_snoc).
    now rewrite path_parent_snoc, path_name_snoc, <- app_assoc. }
  eexists. split; [exact Hdst|]. split; [reflexivity|].
  assert (existsb (String.eqb make_thumbnails.THUMB_DIR_NAME)
            (path_parent src
             ++ [make_thumbnails.THUMB_DIR_NAME;
                 (name_stem (path_name src) ++ ".webp")%string]) = true) as Hin.
  { apply existsb_exists. exists make_thumbnails.THUMB_DIR_NAME. split.
    - apply in_or_app. right. now left.
    - apply String.eqb_refl. }
  repeat apply conj.
  - apply name_stem_suffix.
  - change [make_thumbnails.THUMB_DIR_NAME; (name_stem (path_name src) ++ ".webp")%string]
      with ([make_thumbnails.THUMB_DIR_NAME]
            ++ [(name_stem (path_name src) ++ ".webp")%string])%list.
    rewrite app_assoc. apply path_parent_snoc.
  - change [make_thumbnails.THUMB_DIR_NAME; (name_stem (path_name src) ++ ".webp")%string]
      with ([make_thumbnails.THUMB_DIR_NAME]
            ++ [(name_stem (path_name src) ++ ".webp")%string])%list.
    rewrite app_assoc. unfold path_suffix. rewrite path_name_snoc.
    now apply name_suffix_webp.
  - intros Heq. rewrite Heq in Hin.
    unfold make_thumbnails.name_passes in Hn. rewrite Hin in Hn.
    cbn in Hn. now rewrite andb_false_r in Hn.
  - intros w'. unfold make_thumbnails.eligible, make_thumbnails.name_passes.
    rewrite Hin. cbn. now rewrite !andb_false_r.
Qed.

Lemma X2_thumbnail_destination_witness :
  make_thumbnails.eligible toy.world_w toy.w_webp = true /\
  make_thumbnails.thumb_path_of toy.w_webp = Ok toy.w_thumb.
Proof.
  split; [reflexivity|].
  destruct (X2_thumbnail_destination (P := toy.platform) toy.world_w toy.w_webp eq_refl)
    as (dst & Hdst & -> & _).
  exact Hdst.
Defined.







(** X6.  Both transforms touch the file system only after the image is
    ready: if [convert_one] or [make_thumbnail] leaves a world different
    from the one it started in, then the source was a regular file, it
    decoded, [exif_transpose] and the mode conversion returned, and for
    [make_thumbnail] the resize returned as well.  In particular
    [make_thumbnail] called with a method other than ["fit"] or ["cover"]
    raises and leaves the world as it was, no [thumbnails] folder is
    created.  From [main] the method is always one of the two, the one
    chosen on the command line, ["fit"] by default. *)
Theorem X6_world_untouched_until_image_ready `{P : Platform} :
  (forall src dst q k w r w',
     convert_to_webp.convert_one src dst q k w = (r, w') -> w' <> w ->
     exists m data im0 im1 im2,
       w_fs w !! src = Some (NFile m data) /\
       pil_decode data = Ok im0 /\
       pil_exif_transpose im0 = Ok im1 /\
       convert_to_webp.normalize_mode im1 = Ok im2) /\
  (forall src dst mx q meth k w r w',
     make_thumbnails.make_thumbnail src dst mx q meth k w = (r, w') -> w' <> w ->
     exists m data im0 im1 im2 im3,
       w_fs w !! src = Some (NFile m data) /\
       pil_decode data = Ok im0 /\
       pil_exif_transpose im0 = Ok im1 /\
       make_thumbnails.normalize_mode im1 = Ok im2 /\
       make_thumbnails.resize im2 mx meth = Ok im3) /\
  (forall src dst mx q meth k w,
     meth <> "fit" -> meth <> "cover" ->
     exists e, make_thumbnails.make_thumbnail src dst mx q meth k w = (Raise e, w)) /\
  (forall (c : make_thumbnails.cli) im,
     let a := make_thumbnails.parse_args c in
     make_thumbnails.resize im (make_thumbnails.max a) (make_thumbnails.method a)
     = match default make_thumbnails.fit (make_thumbnails.cli_method c) with
       | make_thumbnails.fit => pil_thumbnail im (make_thumbnails.max a)
       | make_thumbnails.cover => pil_fit im (make_thumbnails.max a)
       end).
Proof.
  repeat apply conj.
  - intros src dst q k w r w' H Hne.
    apply convert_one_steps in H as [[_ ->]|(m & data & im0 & im1 & im2 & H)];
      [congruence|].
    exists m, data, im0, im1, im2. tauto.
  - intros src dst mx q meth k w r w' H Hne.
    apply make_thumbnail_steps in H as [[_ ->]|(m & data & im0 & im1 & im2 & im3 & H)];
      [congruence|].
    exists m, data, im0, im1, im2, im3. tauto.
  - intros src dst mx q meth k w Hfit Hcover.
    destruct (make_thumbnails.make_thumbnail src dst mx q meth k w) as [r w'] eqn:H.
    apply make_thumbnail_steps in H
      as [[[e ->] ->]|(m & data & im0 & im1 & im2 & im3 & _ & _ & _ & _ & Hr & _)];
      [eauto|].
    unfold make_thumbnails.resize in Hr.
    apply eqb_false_neq in Hfit. apply eqb_false_neq in Hcover.
    rewrite Hfit, Hcover in Hr. discriminate.
  - intros c im a. unfold make_thumbnails.resize, a. cbn.
    now destruct (make_thumbnails.cli_method c) as [[]|].
Qed.

Lemma X6_world_untouched_until_image_ready_witness :
  exists e,
    make_thumbnails.make_thumbnail toy.a_jpg toy.w_thumb (600, 600) 80 "stretch" false
      (toy.world_a 10 100)
    = (Raise e, toy.world_a 10 100).
Proof.
  apply (proj1 (proj2 (proj2 (X6_world_untouched_until_image_ready (P := toy.platform)))));
    discriminate.
Defined.

(** X7.  What a transform that returns has written.  [convert_one]: the
    source is a regular file; its bytes are decoded, transposed by the
    EXIF orientation and brought to RGB or RGBA mode in that order; the
    result is encoded as WEBP with the quality given, method 6 and
    optimize on, with the ICC profile of the image when it has one and
    with its EXIF data only when [keep_metadata] is set and the image has
    some; the destination is a regular file holding exactly the encoder's
    output, stamped with the clock at the time of the call, and its
    parent is a directory.  [make_thumbnail]: the same with the resize
    between the mode conversion and the encoding. *)
Theorem X7_what_a_transform_writes `{P : Platform} :
  (forall src dst q k w w',
     convert_to_webp.convert_one src dst q k w = (Ok tt, w') ->
     exists m data im0 im1 im2 out,
       w_fs w !! src = Some (NFile m data) /\
       pil_decode data = Ok im0 /\
       pil_exif_transpose im0 = Ok im1 /\
       convert_to_webp.normalize_mode im1 = Ok im2 /\
       pil_encode_webp im2
         (SaveKwargs "WEBP" q 6 true (im_info im2 !! "icc_profile")
            (if k then im_info im2 !! "exif" else None)) = Ok out /\
       w_fs w' !! dst = Some (NFile (w_clock w) out) /\
       is_dir w' (path_parent dst) = true /\
       w_stdout w' = w_stdout w) /\
  (forall src dst mx q meth k w w',
     make_thumbnails.make_thumbnail src dst mx q meth k w = (Ok tt, w') ->
     exists m data im0 im1 im2 im3 out,
       w_fs w !! src = Some (NFile m data) /\
       pil_decode data = Ok im0 /\
       pil_exif_transpose im0 = Ok im1 /\
       make_thumbnails.normalize_mode im1 = Ok im2 /\
       make_thumbnails.resize im2 mx meth = Ok im3 /\
       pil_encode_webp im3
         (SaveKwargs "WEBP" q 6 true (im_info im3 !! "icc_profile")
            (if k then im_info im3 !! "exif" else None)) = Ok out /\
       w_fs w' !! dst = Some (NFile (w_clock w) out) /\
       is_dir w' (path_parent dst) = true /\
       w_stdout w' = w_stdout w).
Proof.
  split.
  - intros src dst q k w w' H.
    apply convert_one_steps in H
      as [[[e He] _]|(m & data & im0 & im1 & im2 & Hs & H0 & H1 & H2 & H)];
      [discriminate|].
    apply mkdir_save_ok in H as (out & Henc & Hd & Hp & _ & Ho).
    exists m, data, im0, im1, im2, out. auto 10.
  - intros src dst mx q meth k w w' H.
    apply make_thumbnail_steps in H
      as [[[e He] _]|(m & data & im0 & im1 & im2 & im3 & Hs & H0 & H1 & H2 & H3 & H)];
      [discriminate|].
    apply mkdir_save_ok in H as (out & Henc & Hd & Hp & _ & Ho).
    exists m, data, im0, im1, im2, im3, out. auto 12.
Qed.

Lemma X7_what_a_transform_writes_witness :
  let w' := World (toy.tree_a_after 10) 101 [] in
  convert_to_webp.convert_one toy.a_jpg toy.a_webp 80 false (toy.world_a 10 100)
  = (Ok tt, w') /\
  exists out, w_fs w' !! toy.a_webp = Some (NFile 100 out).
Proof.
  intros w'.
  assert (convert_to_webp.convert_one toy.a_jpg toy.a_webp 80 false (toy.world_a 10 100)
          = (Ok tt, w')) as Hrun by (vm_compute; reflexivity).
  split; [exact Hrun|].
  destruct (proj1 (X7_what_a_transform_writes (P := toy.platform)) _ _ _ _ _ _ Hrun)
    as (m & data & im0 & im1 & im2 & out & _ & _ & _ & _ & _ & Hd & _).
  exists out. exact Hd.
Defined.

(** X8.  The summary adds up.  When make_thumbnails returns, created +
    skipped + errors is the number of entries of the walk that were work
    items when the run started.  When convert_to_webp returns and the
    walk yields no path twice, every work item has been counted, as
    skipped, as converted or as an error, and none as both skipped and
    converted: converted + skipped is at most the number of work items
    and converted + skipped + errors at least that number.  The two are
    equal without [--delete-originals], and with it whenever the
    operating system lets every original be removed; a conversion whose
    original cannot be removed is counted as converted and as an error.
    There are never more deletions than conversions, and none without
    [--delete-originals]. *)
Theorem X8_every_work_item_is_counted `{P : Platform} :
  (forall c walk w code w' cnt,
     make_thumbnails.main c walk w = (Returned code, (w', cnt)) ->
     (make_thumbnails.created cnt + make_thumbnails.skipped cnt
      + make_thumbnails.errors cnt)%nat
     = length (List.filter (make_thumbnails.eligible w) walk)) /\
  (forall c walk w code w' cnt,
     let sf := map lower (convert_to_webp.skip_folder (convert_to_webp.parse_args c)) in
     let n := length (List.filter (convert_to_webp.eligible sf w) walk) in
     NoDup walk ->
     convert_to_webp.main c walk w = (Returned code, (w', cnt)) ->
     (convert_to_webp.converted cnt + convert_to_webp.skipped cnt <= n)%nat /\
     (n <= convert_to_webp.converted cnt + convert_to_webp.skipped cnt
           + convert_to_webp.errors cnt)%nat /\
     (convert_to_webp.cli_delete_originals c = false \/
      (forall p, p ∈ walk -> unlink_error p = None) ->
      (convert_to_webp.converted cnt + convert_to_webp.skipped cnt
       + convert_to_webp.errors cnt)%nat = n) /\
     (convert_to_webp.deleted cnt <= convert_to_webp.converted cnt)%nat /\
     (convert_to_webp.cli_delete_originals c = false ->
      convert_to_webp.deleted cnt = 0%nat)).
Proof.
  split.
  - intros c walk w code w' cnt. rewrite thumb_main_eq. cbv zeta.
    destruct (negb _ || negb _)%bool; [discriminate|].
    destruct (make_thumbnails.loop _ walk (w, make_thumbnails.zero))
      as [[[]|e] [w1 c1]] eqn:Hloop; [|discriminate].
    intros H; injection H as _ _ <-.
    apply thumb_loop_count in Hloop. exact Hloop.
  - intros c walk w code w' cnt sf n Hnd. rewrite webp_main_eq. cbv zeta. fold sf.
    destruct (negb _ || negb _)%bool; [discriminate|].
    destruct (convert_to_webp.loop _ sf walk (w, convert_to_webp.zero))
      as [[[]|e] [w1 c1]] eqn:Hloop; [|discriminate].
    intros H; injection H as _ _ <-.
    apply (webp_loop_count _ _ _ Hnd) in Hloop as (Hlo & Hhi & Hex & Hd & _ & Hz).
    cbv zeta in Hlo, Hhi, Hex. fold n in Hlo, Hhi, Hex.
    unfold webp_total in *. cbn in *. repeat split; [lia|lia| |lia|exact Hz].
    intros Hcase. now rewrite (Hex Hcase).
Qed.

(** On [/site/locked], whose image cannot be removed, the one work item
    is counted as converted and as an error. *)
Lemma X8_every_work_item_is_counted_witness :
  let run := convert_to_webp.main toy.cli_delete [toy.locked_jpg] toy.world_locked in
  snd (snd run) = convert_to_webp.Counters 1 0 1 0 /\
  (convert_to_webp.converted (snd (snd run)) + convert_to_webp.skipped (snd (snd run))
   <= 1)%nat /\
  (1 <= convert_to_webp.converted (snd (snd run)) + convert_to_webp.skipped (snd (snd run))
        + convert_to_webp.errors (snd (snd run)))%nat.
Proof.
  intros run. split; [vm_compute; reflexivity|].
  destruct (proj2 (X8_every_work_item_is_counted (P := toy.platform))
              toy.cli_delete [toy.locked_jpg] toy.world_locked
              2 (fst (snd run)) (snd (snd run))) as (H1 & H2 & _).
  - apply NoDup_singleton.
  - vm_compute. reflexivity.
  - split; [exact H1|exact H2].
Defined.

(** X9.  With [--overwrite] nothing is skipped: when either script
    returns, its skipped counter is zero, so every work item of the walk
    was handed to the transform and is counted as converted (created) or
    as an error. *)
Theorem X9_overwrite_skips_nothing `{P : Platform} :
  (forall c walk w code w' cnt,
     convert_to_webp.cli_overwrite c = true ->
     convert_to_webp.main c walk w = (Returned code, (w', cnt)) ->
     convert_to_webp.skipped cnt = 0%nat) /\
  (forall c walk w code w' cnt,
     make_thumbnails.cli_overwrite c = true ->
     make_thumbnails.main c walk w = (Returned code, (w', cnt)) ->
     make_thumbnails.skipped cnt = 0%nat /\
     (make_thumbnails.created cnt + make_thumbnails.errors cnt)%nat
     = length (List.filter (make_thumbnails.eligible w) walk)).
Proof.
  split.
  - intros c walk w code w' cnt Hov. rewrite webp_main_eq. cbv zeta.
    destruct (negb _ || negb _)%bool; [discriminate|].
    destruct (convert_to_webp.loop _ _ walk (w, convert_to_webp.zero))
      as [[[]|e] [w1 c1]] eqn:Hloop; [|discriminate].
    intros H; injection H as _ _ <-.
    apply webp_loop_output in Hloop as [_ Hs]. now apply Hs.
  - intros c walk w code w' cnt Hov. rewrite thumb_main_eq. cbv zeta.
    destruct (negb _ || negb _)%bool; [discriminate|].
    destruct (make_thumbnails.loop _ walk (w, make_thumbnails.zero))
      as [[[]|e] [w1 c1]] eqn:Hloop; [|discriminate].
    intros H; injection H as _ _ <-.
    pose proof (thumb_loop_count _ _ _ _ _ _ Hloop) as Ht.
    apply thumb_loop_output in Hloop as [_ Hs]. specialize (Hs Hov).
    unfold thumb_total in Ht. cbn in *. split; [exact Hs|lia].
Qed.

Lemma X9_overwrite_skips_nothing_witness :
  let c := convert_to_webp.Cli toy.site None false false true [] in
  let run := convert_to_webp.main c [toy.a_jpg; toy.a_webp] toy.world_a_done in
  convert_to_webp.overwrite (convert_to_webp.parse_args c) = true /\
  convert_to_webp.skipped (snd (snd run)) = 0%nat.
Proof.
  intros c run. split; [reflexivity|].
  refine (proj1 (X9_overwrite_skips_nothing (P := toy.platform))
            c [toy.a_jpg; toy.a_webp] toy.world_a_done 0 (fst (snd run))
            (snd (snd run)) eq_refl _).
  vm_compute. reflexivity.
Defined.

(** X10.  What a run prints.  When either script returns, standard
    output has grown by one line per counted error, each starting with
    ["[ERROR] "], followed by the summary of the final counters; nothing
    else is printed.  The exit code is 0 exactly when no error line was
    printed. *)
Theorem X10_one_line_per_error `{P : Platform} :
  (forall c walk w code w' cnt,
     convert_to_webp.main c walk w = (Returned code, (w', cnt)) ->
     exists errs,
       w_stdout w' = (w_stdout w ++ errs ++ convert_to_webp.summary cnt)%list /\
       length errs = convert_to_webp.errors cnt /\
       Forall is_error_line errs /\
       (code = 0 <-> errs = [])) /\
  (forall c walk w code w' cnt,
     make_thumbnails.main c walk w = (Returned code, (w', cnt)) ->
     exists errs,
       w_stdout w' = (w_stdout w ++ errs ++ make_thumbnails.summary cnt)%list /\
       length errs = make_thumbnails.errors cnt /\
       Forall is_error_line errs /\
       (code = 0 <-> errs = [])).
Proof.
  split.
  - intros c walk w code w' cnt. rewrite webp_main_eq. cbv zeta.
    destruct (negb _ || negb _)%bool; [discriminate|].
    destruct (convert_to_webp.loop _ _ walk (w, convert_to_webp.zero))
      as [[[]|e] [w1 c1]] eqn:Hloop; [|discriminate].
    intros H; injection H as <- <- <-.
    apply webp_loop_output in Hloop as [(errs & Ho & He & Hf) _].
    exists errs. cbn [w_stdout]. rewrite Ho, <- app_assoc.
    cbn in He. repeat split; auto.
    + rewrite He. destruct errs; [reflexivity|discriminate].
    + intros ->. now rewrite He.
  - intros c walk w code w' cnt. rewrite thumb_main_eq. cbv zeta.
    destruct (negb _ || negb _)%bool; [discriminate|].
    destruct (make_thumbnails.loop _ walk (w, make_thumbnails.zero))
      as [[[]|e] [w1 c1]] eqn:Hloop; [|discriminate].
    intros H; injection H as <- <- <-.
    apply thumb_loop_output in Hloop as [(errs & Ho & He & Hf) _].
    exists errs. cbn [w_stdout]. rewrite Ho, <- app_assoc.
    cbn in He. repeat split; auto.
    + rewrite He. destruct errs; [reflexivity|discriminate].
    + intros ->. now rewrite He.
Qed.

Lemma X10_one_line_per_error_witness :
  let run := convert_to_webp.main toy.cli_delete [toy.site; toy.b_jpg] toy.world_b in
  exists errs,
    w_stdout (fst (snd run))
    = ([] ++ errs ++ convert_to_webp.summary (snd (snd run)))%list /\
    length errs = 1%nat.
Proof.
  intros run.
  destruct (proj1 (X10_one_line_per_error (P := toy.platform))
              toy.cli_delete [toy.site; toy.b_jpg] toy.world_b
              2 (fst (snd run)) (snd (snd run)) eq_refl)
    as (errs & Ho & He & _).
  exists errs. split; [exact Ho|exact He].
Defined.

(** X11.  [is_in_folder_named] looks at every part of the path, the
    parts of the root included.  So when the root directory itself has a
    component that matches a skip-folder name without regard to letter
    case (for instance a root inside a folder called [thumbnails], which
    is always on the list), every path below the root is passed over:
    convert_to_webp converts nothing, prints only the summary with all
    counters zero and returns 0.  make_thumbnails does the same when a
    component of the root is exactly [thumbnails]. *)
Theorem X11_root_inside_skipped_folder `{P : Platform} :
  (forall (c : convert_to_webp.cli) walk w name,
     name ∈ convert_to_webp.skip_folder (convert_to_webp.parse_args c) ->
     has_part_like (convert_to_webp.cli_root c) name ->
     (forall p, p ∈ walk -> below (convert_to_webp.cli_root c) p) ->
     is_dir w (convert_to_webp.cli_root c) = true ->
     convert_to_webp.main c walk w
     = (Returned 0,
        (World (w_fs w) (w_clock w)
           (w_stdout w ++ convert_to_webp.summary convert_to_webp.zero),
         convert_to_webp.zero))) /\
  (forall (c : make_thumbnails.cli) walk w,
     make_thumbnails.THUMB_DIR_NAME ∈ make_thumbnails.cli_root c ->
     (forall p, p ∈ walk -> below (make_thumbnails.cli_root c) p) ->
     is_dir w (make_thumbnails.cli_root c) = true ->
     make_thumbnails.main c walk w
     = (Returned 0,
        (World (w_fs w) (w_clock w)
           (w_stdout w ++ make_thumbnails.summary make_thumbnails.zero),
         make_thumbnails.zero))).
Proof.
  split.
  - intros c walk w name Hname Hroot Hwalk Hdir.
    rewrite webp_main_eq. cbv zeta.
    cbn [convert_to_webp.root convert_to_webp.parse_args].
    rewrite Hdir, (is_dir_exists _ _ Hdir). cbn [negb orb].
    rewrite webp_loop_noop; [reflexivity|].
    intros p Hp. rewrite webp_iteration_eq.
    rewrite webp_skipped_not_eligible; [reflexivity|].
    destruct (has_part_like_below _ p _ Hroot (Hwalk p Hp)) as (part & Hin & Heq).
    exists part, name. auto.
  - intros c walk w Hroot Hwalk Hdir.
    rewrite thumb_main_eq. cbv zeta.
    cbn [make_thumbnails.root make_thumbnails.parse_args].
    rewrite Hdir, (is_dir_exists _ _ Hdir). cbn [negb orb].
    rewrite thumb_loop_noop; [reflexivity|].
    intros p Hp. rewrite thumb_iteration_eq.
    unfold make_thumbnails.eligible, make_thumbnails.name_passes.
    replace (existsb (String.eqb make_thumbnails.THUMB_DIR_NAME) p) with true.
    { cbn [negb]. now rewrite !andb_false_r. }
    symmetry. apply existsb_exists. exists make_thumbnails.THUMB_DIR_NAME.
    split; [|apply String.eqb_refl].
    destruct (Hwalk p Hp) as (rest & _ & ->).
    apply in_or_app. left. now apply list_elem_of_In.
Qed.

Lemma X11_root_inside_skipped_folder_witness :
  let root := ["/"; "site"; "Thumbnails"] in
  let c := convert_to_webp.Cli root None false false false [] in
  has_part_like root "thumbnails" /\
  fst (convert_to_webp.main c [toy.caps_jpg] toy.world_caps) = Returned 0 /\
  snd (snd (convert_to_webp.main c [toy.caps_jpg] toy.world_caps)) = convert_to_webp.zero.
Proof.
  intros root c.
  assert (has_part_like root "thumbnails") as Hroot.
  { exists "Thumbnails". split; [|reflexivity]. apply list_elem_of_In. simpl. tauto. }
  split; [exact Hroot|].
  rewrite (proj1 (X11_root_inside_skipped_folder (P := toy.platform))
             c [toy.caps_jpg] toy.world_caps "thumbnails").
  - split; reflexivity.
  - apply list_elem_of_here.
  - exact Hroot.
  - intros p Hp. apply list_elem_of_In in Hp. simpl in Hp. destruct Hp as [<- | []].
    exists ["a.jpg"]. split; [discriminate|reflexivity].
  - reflexivity.
Defined.

(** X13.  make_thumbnails, one turn of the loop on a work item that is
    not skipped and on which [make_thumbnail] returns.  The turn counts
    one creation and nothing else; afterwards the folder [thumbnails]
    next to the source is a directory, the thumbnail in it is a regular
    file stamped with the clock of the call, and the source is exactly as
    it was.  If the source is not younger than the clock, the thumbnail
    is up to date from then on. *)
Theorem X13_thumbnail_created `{P : Platform} (a : make_thumbnails.args)
    (src dst : path) (w w2 : world) (c : make_thumbnails.counters) :
  make_thumbnails.eligible w src = true ->
  make_thumbnails.thumb_path_of src = Ok dst ->
  make_thumbnails.skip_check a src dst w = (Ok false, w) ->
  make_thumbnails.make_thumbnail src dst (make_thumbnails.max a)
    (make_thumbnails.quality a) (make_thumbnails.method a)
    (make_thumbnails.keep_metadata a) w = (Ok tt, w2) ->
  make_thumbnails.iteration a src (w, c)
  = (Ok tt, (w2, make_thumbnails.incr_created c)) /\
  is_dir w2 (path_parent src ++ [make_thumbnails.THUMB_DIR_NAME]) = true /\
  (exists out, w_fs w2 !! dst = Some (NFile (w_clock w) out)) /\
  w_fs w2 !! src = w_fs w !! src /\
  (forall n, w_fs w !! src = Some n -> st_mtime (node_stat n) <= w_clock w ->
             up_to_date w2 src dst = true).
Proof.
  intros Hel Hdst Hskip Hmk.
  assert (make_thumbnails.name_passes src = true) as Hn.
  { unfold make_thumbnails.eligible in Hel. now apply andb_true_iff in Hel as [_ ?]. }
  destruct (thumb_name_passes_thumb_path src Hn) as (stem & _ & Heq).
  assert (dst = (path_parent src
                 ++ [make_thumbnails.THUMB_DIR_NAME; (stem ++ ".webp")%string])%list)
    as Hshape by congruence.
  assert (path_parent dst = (path_parent src ++ [make_thumbnails.THUMB_DIR_NAME])%list)
    as Hparent.
  { rewrite Hshape.
    change [make_thumbnails.THUMB_DIR_NAME; (stem ++ ".webp")%string]
      with ([make_thumbnails.THUMB_DIR_NAME] ++ [(stem ++ ".webp")%string])%list.
    rewrite app_assoc. apply path_parent_snoc. }
  assert (src <> dst) as Hne.
  { intros <-. destruct (thumb_path_facts src Hn) as (d' & Hd' & Hin & _).
    assert (d' = src) as -> by congruence.
    unfold make_thumbnails.name_passes in Hn. rewrite Hin in Hn.
    cbn in Hn. now rewrite andb_false_r in Hn. }
  pose proof (make_thumbnail_spec _ _ _ _ _ _ _ _ _ Hmk) as Heff.
  destruct (mkdir_save_ok_of_thumbnail _ _ _ _ _ _ _ _ Hmk) as (out & Hd & Hp).
  assert (w_fs w2 !! src = w_fs w !! src) as Hsame.
  { apply andb_true_iff in Hel as [Hf _].
    apply is_file_some in Hf as (m & d & Hs). rewrite Hs.
    eapply transform_effect_frame; eauto. }
  repeat apply conj.
  - rewrite thumb_iteration_eq. cbn [fst]. rewrite Hel, Hdst.
    now rewrite thumb_try_except_eq, thumb_try_body_eq, Hskip, Hmk.
  - now rewrite <- Hparent.
  - eauto.
  - exact Hsame.
  - intros n Hs Hle. unfold up_to_date. rewrite Hd, Hsame, Hs. cbn.
    now apply Z.leb_le.
Qed.

Lemma X13_thumbnail_created_witness :
  let a := make_thumbnails.parse_args toy.cli_thumbs in
  let w2 := fst (snd (make_thumbnails.iteration a toy.a_jpg
                        (toy.world_a 10 100, make_thumbnails.zero))) in
  is_dir w2 ["/"; "site"; "thumbnails"] = true /\
  up_to_date w2 toy.a_jpg ["/"; "site"; "thumbnails"; "a.webp"] = true.
Proof.
  intros a w2.
  destruct (X13_thumbnail_created (P := toy.platform) a toy.a_jpg
              ["/"; "site"; "thumbnails"; "a.webp"] (toy.world_a 10 100) w2
              make_thumbnails.zero eq_refl eq_refl eq_refl)
    as (_ & Hdir & _ & _ & Hup).
  - vm_compute. reflexivity.
  - split; [exact Hdir|].
    apply (Hup (NFile 10 [Byte.x52; Byte.x01])); [reflexivity|]. cbn. lia.
Defined.

(** X14.  convert_to_webp without [--delete-originals], one turn of the
    loop on a work item that is not skipped and on which [convert_one]
    returns.  The turn counts one conversion and nothing else; the
    destination lies in the directory of the source and is a regular file
    stamped with the clock of the call; the source is exactly as it was.
    If the source is not younger than the clock, the destination is up to
    date from then on. *)
Theorem X14_converted_next_to_source `{P : Platform} (a : convert_to_webp.args)
    (sf : list string) (src dst : path) (w w2 : world) (c : convert_to_webp.counters) :
  convert_to_webp.delete_originals a = false ->
  convert_to_webp.eligible sf w src = true ->
  with_suffix src ".webp" = Ok dst ->
  convert_to_webp.skip_check a src dst w = (Ok false, w) ->
  convert_to_webp.convert_one src dst (convert_to_webp.quality a)
    (convert_to_webp.keep_metadata a) w = (Ok tt, w2) ->
  convert_to_webp.iteration a sf src (w, c)
  = (Ok tt, (w2, convert_to_webp.incr_converted c)) /\
  path_parent dst = path_parent src /\
  (exists out, w_fs w2 !! dst = Some (NFile (w_clock w) out)) /\
  w_fs w2 !! src = w_fs w !! src /\
  (forall n, w_fs w !! src = Some n -> st_mtime (node_stat n) <= w_clock w ->
             up_to_date w2 src dst = true).
Proof.
  intros Hdel Hel Hdst Hskip Hconv.
  destruct (webp_eligible_with_suffix _ _ _ Hel) as (stem & _ & Heq).
  assert (dst = (path_parent src ++ [(stem ++ ".webp")%string])%list) as Hshape
    by congruence.
  pose proof (convert_one_spec _ _ _ _ _ _ _ Hconv) as Heff.
  destruct (webp_source_survives sf src dst _ w w2 Hel Hdst Heff) as (m & d & Hs & Hs2).
  destruct (mkdir_save_ok_of_convert _ _ _ _ _ _ Hconv) as (out & Hd & _).
  repeat apply conj.
  - rewrite webp_iteration_eq. cbn [fst]. rewrite Hel, Hdst.
    now rewrite webp_try_except_eq, webp_try_body_eq, Hskip, Hconv, Hdel.
  - rewrite Hshape. apply path_parent_snoc.
  - eauto.
  - congruence.
  - intros n Hn Hle. unfold up_to_date. rewrite Hd, Hs2.
    assert (n = NFile m d) as -> by congruence. cbn in *. now apply Z.leb_le.
Qed.

Lemma X14_converted_next_to_source_witness :
  let a := convert_to_webp.parse_args toy.cli_plain in
  let w2 := World (toy.tree_a_after 10) 101 [] in
  convert_to_webp.iteration a ["thumbnails"] toy.a_jpg
    (toy.world_a 10 100, convert_to_webp.zero)
  = (Ok tt, (w2, convert_to_webp.Counters 1 0 0 0)) /\
  up_to_date w2 toy.a_jpg toy.a_webp = true.
Proof.
  intros a w2.
  destruct (X14_converted_next_to_source (P := toy.platform) a ["thumbnails"]
              toy.a_jpg toy.a_webp (toy.world_a 10 100) w2 convert_to_webp.zero
              eq_refl eq_refl eq_refl eq_refl)
    as (Hit & _ & _ & _ & Hup).
  - vm_compute. reflexivity.
  - split; [exact Hit|].
    apply (Hup (NFile 10 [Byte.x52; Byte.x01])); [reflexivity|]. cbn. lia.
Defined.
